(** * Splitt receipt parser: a shallow embedding of [ReceiptParser]

    The development follows the class [ReceiptParser] of [src/combined.js]
    (the receipt OCR parser that is shipped together with the session
    engine) and, in the module [Lite], the smaller parser of
    [src/unnamed/part_001].

    Conventions of the embedding:
    - a JavaScript string is the list of its UTF-16 code units ([list N]);
    - a JavaScript number is [number]: NaN, the two infinities, or a finite
      value kept as an exact rational.  Every arithmetic operation is the
      real-number one on finite values and follows IEEE-754 on the special
      values; binary64 rounding, overflow and the sign of zero are not
      represented, and a statement that is to hold of the rounded values
      as well is given with a margin or with a bound on its inputs;
    - a regular expression literal is a value of [regex], run by a
      backtracking matcher that follows the ECMAScript matching order
      (leftmost start, alternatives left to right, greedy or lazy
      repetition, empty iterations refused). *)

From Stdlib Require Import NArith ZArith QArith Qround Qabs Qpower Lia Lqa Bool.
From stdpp Require Import base option list gmap strings relations.

Open Scope N_scope.

(** ** Strings *)

Abbreviation jsstring := (list N).

(** Code units of a literal written in ASCII. *)
Definition str (s : string) : jsstring :=
  map (fun a => Ascii.N_of_ascii a) (String.list_ascii_of_string s).

Definition in_range (lo hi c : N) : bool := (lo <=? c) && (c <=? hi).
Definition one_of (cs : jsstring) (c : N) : bool := existsb (N.eqb c) cs.

(** [\d], [\w] and [\s] of ECMAScript (non-unicode mode). *)
Definition is_digit (c : N) : bool := in_range 48 57 c.
Definition is_upper (c : N) : bool := in_range 65 90 c.
Definition is_lower (c : N) : bool := in_range 97 122 c.
Definition is_word (c : N) : bool :=
  is_digit c || is_upper c || is_lower c || (c =? 95).
Definition is_line_terminator (c : N) : bool :=
  one_of [10; 13; 8232; 8233] c.
Definition is_space (c : N) : bool :=
  one_of [9; 10; 11; 12; 13; 32; 160; 5760; 8232; 8233; 8239; 8287; 12288; 65279] c
  || in_range 8192 8202 c.

(** Case mapping of one code unit.  Only Basic Latin letters are mapped; the
    Unicode tables behind [String.prototype.toLowerCase] are not part of the
    repository and other code units are left as they are. *)
Definition lower_char (c : N) : N := if is_upper c then c + 32 else c.
Definition upper_char (c : N) : N := if is_lower c then c - 32 else c.
Definition toLowerCase (s : jsstring) : jsstring := map lower_char s.
Definition toUpperCase (s : jsstring) : jsstring := map upper_char s.

Fixpoint trimStart (s : jsstring) : jsstring :=
  match s with
  | c :: s' => if is_space c then trimStart s' else s
  | [] => []
  end.
Definition trimEnd (s : jsstring) : jsstring := rev (trimStart (rev s)).
Definition trim (s : jsstring) : jsstring := trimEnd (trimStart s).

Definition str_eqb (a b : jsstring) : bool := bool_decide (a = b).

(** [s.includes(t)] *)
Fixpoint starts_with (t s : jsstring) : bool :=
  match t, s with
  | [], _ => true
  | x :: t', y :: s' => (x =? y) && starts_with t' s'
  | _ :: _, [] => false
  end.
Fixpoint includes (s t : jsstring) : bool :=
  starts_with t s ||
  match s with
  | [] => false
  | _ :: s' => includes s' t
  end.

(** ** Regular expressions *)

Inductive regex : Type :=
| Eps
| Chr (p : N -> bool)
| Cat (r1 r2 : regex)
| Alt (r1 r2 : regex)
| Star (greedy : bool) (r : regex)
| Grp (i : nat) (r : regex)
| Bol
| Eol
| WordB.

(** Matcher state: the code units already passed (most recent first), the
    ones still ahead, and the capture groups set so far. *)
Record mstate : Type := MState {
  consumed : jsstring;
  remaining : jsstring;
  captures : list (nat * jsstring)
}.

Definition capture (i : nat) (from to : mstate) : mstate :=
  let n := (length (consumed to) - length (consumed from))%nat in
  MState (consumed to) (remaining to)
         ((i, rev (take n (consumed to))) :: captures to).

Definition or_else {A} (x : option A) (y : option A) : option A :=
  match x with Some _ => x | None => y end.

Definition at_word_boundary (st : mstate) : bool :=
  let a := match consumed st with c :: _ => is_word c | [] => false end in
  let b := match remaining st with c :: _ => is_word c | [] => false end in
  xorb a b.

(** Backtracking matcher in continuation-passing style.  A repetition may
    iterate at most once per code unit still ahead, because an iteration
    that consumes nothing is refused. *)
Fixpoint run (r : regex) (st : mstate) (k : mstate -> option mstate)
  {struct r} : option mstate :=
  match r with
  | Eps => k st
  | Chr p =>
      match remaining st with
      | c :: s' => if p c then k (MState (c :: consumed st) s' (captures st)) else None
      | [] => None
      end
  | Cat r1 r2 => run r1 st (fun st1 => run r2 st1 k)
  | Alt r1 r2 => or_else (run r1 st k) (run r2 st k)
  | Star greedy r1 =>
      (fix loop (fuel : nat) (st0 : mstate) {struct fuel} : option mstate :=
         match fuel with
         | O => k st0
         | S fuel' =>
             let again :=
               run r1 st0 (fun st1 =>
                 if (length (remaining st1) <? length (remaining st0))%nat
                 then loop fuel' st1 else None) in
             if greedy then or_else again (k st0) else or_else (k st0) again
         end) (length (remaining st)) st
  | Grp i r1 => run r1 st (fun st1 => k (capture i st st1))
  | Bol => match consumed st with [] => k st | _ => None end
  | Eol => match remaining st with [] => k st | _ => None end
  | WordB => if at_word_boundary st then k st else None
  end.

(** Result of [String.prototype.match] for a regex without the [g] flag. *)
Record match_result : Type := MatchResult {
  m_before : jsstring;
  m_text : jsstring;
  m_after : jsstring;
  m_groups : list (nat * jsstring)
}.

Definition group (i : nat) (m : match_result) : option jsstring :=
  snd <$> find (fun p => Nat.eqb (fst p) i) (m_groups m).

Definition match_at (r : regex) (before_rev s : jsstring) : option match_result :=
  match run r (MState before_rev s []) Some with
  | Some st =>
      let n := (length (consumed st) - length before_rev)%nat in
      Some (MatchResult (rev before_rev) (rev (take n (consumed st)))
                        (remaining st) (captures st))
  | None => None
  end.

Fixpoint search_from (r : regex) (before_rev s : jsstring) : option match_result :=
  match match_at r before_rev s with
  | Some m => Some m
  | None =>
      match s with
      | [] => None
      | c :: s' => search_from r (c :: before_rev) s'
      end
  end.

(** [s.match(r)], [r.test(s)] and [s.replace(r, t)] for a regex without [g]. *)
Definition exec (r : regex) (s : jsstring) : option match_result :=
  search_from r [] s.
Definition test (r : regex) (s : jsstring) : bool :=
  match exec r s with Some _ => true | None => false end.
Definition replace (r : regex) (t : jsstring) (s : jsstring) : jsstring :=
  match exec r s with
  | Some m => m_before m ++ t ++ m_after m
  | None => s
  end.

(** [s.replace(r, f)] for a regex with the [g] flag: matches are taken left
    to right, the search resuming after each match (one code unit further
    when the match is empty). *)
Fixpoint replace_all_from (fuel : nat) (r : regex) (f : jsstring -> jsstring)
  (before_rev s : jsstring) : jsstring :=
  match fuel with
  | O => s
  | S fuel' =>
      match search_from r before_rev s with
      | None => s
      | Some m =>
          let skipped := drop (length before_rev) (m_before m) in
          match m_text m, m_after m with
          | [], [] => skipped ++ f []
          | [], c :: rest =>
              skipped ++ f [] ++ c ::
                replace_all_from fuel' r f (c :: rev (m_before m)) rest
          | t, rest =>
              skipped ++ f t ++
                replace_all_from fuel' r f (rev t ++ rev (m_before m)) rest
          end
      end
  end.
Definition replace_all (r : regex) (f : jsstring -> jsstring) (s : jsstring) : jsstring :=
  replace_all_from (S (length s)) r f [] s.

(** *** Notation for patterns *)

Definition ch (c : string) : N -> bool := one_of (str c).
Definition ch_i (c : string) : N -> bool :=
  fun x => one_of (toLowerCase (str c)) (lower_char x).
Definition any_char : N -> bool := fun c => negb (is_line_terminator c).
Definition cls (ps : list (N -> bool)) : N -> bool :=
  fun c => existsb (fun p => p c) ps.
Definition ncls (p : N -> bool) : N -> bool := fun c => negb (p c).

Definition Plus (greedy : bool) (r : regex) : regex := Cat r (Star greedy r).
Definition Opt (r : regex) : regex := Alt r Eps.
Fixpoint Seq (rs : list regex) : regex :=
  match rs with
  | [] => Eps
  | [r] => r
  | r :: rs' => Cat r (Seq rs')
  end.
Fixpoint Any (rs : list regex) : regex :=
  match rs with
  | [] => Chr (fun _ => false)
  | [r] => r
  | r :: rs' => Alt r (Any rs')
  end.
Fixpoint Times (n : nat) (r : regex) : regex :=
  match n with
  | O => Eps
  | S n' => Cat r (Times n' r)
  end.
(** [r{n,}] and [r{n,m}], greedy. *)
Definition AtLeast (n : nat) (r : regex) : regex := Cat (Times n r) (Star true r).
Fixpoint UpTo (n : nat) (r : regex) : regex :=
  match n with
  | O => Eps
  | S n' => Opt (Cat r (UpTo n' r))
  end.
Definition Between (n m : nat) (r : regex) : regex := Cat (Times n r) (UpTo (m - n) r).
(** A literal word; [Lit_i] is the same under the [i] flag. *)
Definition Lit (w : string) : regex := Seq (map (fun c => Chr (N.eqb c)) (str w)).
Definition Lit_i (w : string) : regex :=
  Seq (map (fun c => Chr (fun x => lower_char x =? lower_char c)) (str w)).
Definition Words_i (ws : list string) : regex := Any (map Lit_i ws).

(** ** Numbers *)

Inductive number : Type :=
| NaN
| Infinity (negative : bool)
| Finite (q : Q).

Definition Qneg_bool (q : Q) : bool := negb (Qle_bool 0 q).
Definition Qzero_bool (q : Q) : bool := Qeq_bool q 0.

Definition num (z : Z) : number := Finite (inject_Z z).
Definition dec (n : Z) (d : positive) : number := Finite (n # d).

Definition num_neg (x : number) : number :=
  match x with
  | NaN => NaN
  | Infinity s => Infinity (negb s)
  | Finite q => Finite (- q)
  end.

Definition num_add (x y : number) : number :=
  match x, y with
  | NaN, _ | _, NaN => NaN
  | Infinity s, Infinity s' => if Bool.eqb s s' then Infinity s else NaN
  | Infinity s, Finite _ | Finite _, Infinity s => Infinity s
  | Finite a, Finite b => Finite (a + b)
  end.

Definition num_sub (x y : number) : number := num_add x (num_neg y).

Definition num_mul (x y : number) : number :=
  match x, y with
  | NaN, _ | _, NaN => NaN
  | Infinity s, Infinity s' => Infinity (xorb s s')
  | Infinity s, Finite q | Finite q, Infinity s =>
      if Qzero_bool q then NaN else Infinity (xorb s (Qneg_bool q))
  | Finite a, Finite b => Finite (a * b)
  end.

Definition num_div (x y : number) : number :=
  match x, y with
  | NaN, _ | _, NaN => NaN
  | Infinity _, Infinity _ => NaN
  | Infinity s, Finite q => Infinity (xorb s (Qneg_bool q))
  | Finite _, Infinity _ => Finite 0
  | Finite a, Finite b =>
      if Qzero_bool b then
        if Qzero_bool a then NaN else Infinity (Qneg_bool a)
      else Finite (a / b)
  end.

Definition num_abs (x : number) : number :=
  match x with
  | NaN => NaN
  | Infinity _ => Infinity false
  | Finite q => Finite (Qabs q)
  end.

(** [x < y], [x <= y] and [x === y]; every comparison with NaN is false. *)
Definition num_ltb (x y : number) : bool :=
  match x, y with
  | NaN, _ | _, NaN => false
  | Infinity s, Infinity s' => s && negb s'
  | Infinity s, Finite _ => s
  | Finite _, Infinity s => negb s
  | Finite a, Finite b => negb (Qle_bool b a)
  end.
Definition num_leb (x y : number) : bool :=
  match x, y with
  | NaN, _ | _, NaN => false
  | Infinity s, Infinity s' => s || negb s'
  | Infinity s, Finite _ => s
  | Finite _, Infinity s => negb s
  | Finite a, Finite b => Qle_bool a b
  end.
Definition num_eqb (x y : number) : bool :=
  match x, y with
  | NaN, _ | _, NaN => false
  | Infinity s, Infinity s' => Bool.eqb s s'
  | Finite a, Finite b => Qeq_bool a b
  | _, _ => false
  end.
Definition num_gtb (x y : number) : bool := num_ltb y x.
Definition num_geb (x y : number) : bool := num_leb y x.

Definition isNaN (x : number) : bool :=
  match x with NaN => true | _ => false end.

(** Truthiness of a number: NaN and zero are falsy. *)
Definition truthy (x : number) : bool :=
  match x with
  | NaN => false
  | Infinity _ => true
  | Finite q => negb (Qzero_bool q)
  end.
(** [x || y] on numbers. *)
Definition num_or (x y : number) : number := if truthy x then x else y.

(** [Math.round]: the nearest integer, ties towards plus infinity. *)
Definition Math_round (x : number) : number :=
  match x with
  | Finite q => Finite (inject_Z (Qfloor (q + (1 # 2))))
  | _ => x
  end.

(** [Math.max] of two arguments, and of a spread list (minus infinity when
    the list is empty). *)
Definition Math_max2 (x y : number) : number :=
  match x, y with
  | NaN, _ | _, NaN => NaN
  | _, _ => if num_ltb x y then y else x
  end.
Definition Math_max (xs : list number) : number :=
  fold_left Math_max2 xs (Infinity true).

(** Equality of numbers as values (finite ones as rationals). *)
Definition num_equiv (x y : number) : Prop :=
  match x, y with
  | NaN, NaN => True
  | Infinity s, Infinity s' => s = s'
  | Finite a, Finite b => (a == b)%Q
  | _, _ => False
  end.

(** *** Reading numbers *)

Definition digit_value (c : N) : Z := Z.of_N (c - 48).
Definition digits_value (ds : jsstring) : Z :=
  fold_left (fun acc c => (acc * 10 + digit_value c)%Z) ds 0%Z.

Fixpoint span (p : N -> bool) (s : jsstring) : jsstring * jsstring :=
  match s with
  | c :: s' => if p c then let '(a, b) := span p s' in (c :: a, b) else ([], s)
  | [] => ([], [])
  end.

(** Optional sign in front of a numeral: [(negative, rest)]. *)
Definition read_sign (s : jsstring) : bool * jsstring :=
  match s with
  | 43 :: s' => (false, s')
  | 45 :: s' => (true, s')
  | _ => (false, s)
  end.

(** Exponent part [e±ddd] of a decimal literal, 0 when there is none. *)
Definition read_exponent (s : jsstring) : Z :=
  match s with
  | c :: s' =>
      if one_of [101; 69] c then
        let '(neg, s'') := read_sign s' in
        let '(ds, _) := span is_digit s'' in
        match ds with
        | [] => 0%Z
        | _ => if neg then (- digits_value ds)%Z else digits_value ds
        end
      else 0%Z
  | [] => 0%Z
  end.

Definition scale10 (m e : Z) : Q := Qred (inject_Z m * Qpower (10 # 1) e).

(** [parseFloat]: the longest prefix that is a decimal literal
    ([StrDecimalLiteral]), after leading white space. *)
Definition parseFloat (s : jsstring) : number :=
  let '(neg, s1) := read_sign (trimStart s) in
  if starts_with (str "Infinity") s1 then Infinity neg
  else
    let '(ip, s2) := span is_digit s1 in
    let '(fp, s3) :=
      match s2 with
      | 46 :: s2' => span is_digit s2'
      | _ => ([], s2)
      end in
    match ip ++ fp with
    | [] => NaN
    | ds =>
        let m := digits_value ds in
        let e := (read_exponent s3 - Z.of_nat (length fp))%Z in
        Finite (scale10 (if neg then - m else m) e)
    end.

(** [parseInt(s, 10)]; an undefined argument reads as NaN. *)
Definition parseInt (s : option jsstring) : number :=
  match s with
  | None => NaN
  | Some s =>
      let '(neg, s1) := read_sign (trimStart s) in
      let '(ds, _) := span is_digit s1 in
      match ds with
      | [] => NaN
      | _ => num (if neg then - digits_value ds else digits_value ds)
      end
  end.

(** [a || b] on possibly undefined strings: undefined and the empty string
    are falsy. *)
Definition str_or (a b : option jsstring) : option jsstring :=
  match a with
  | Some (_ :: _) => a
  | _ => b
  end.

(** ** The pattern table of [ReceiptParser]

    Each pattern is preceded by its source literal; where the literal has a
    star right before a closing parenthesis, a blank separates the two. *)

Definition digit : regex := Chr is_digit.
Definition space : regex := Chr is_space.
Definition spaces : regex := Star true space.

(** [[$€£]] *)
Definition currency_sym : N -> bool := cls [ch "$"; N.eqb 8364; N.eqb 163].
(** [[@x×\*]] under the [i] flag *)
Definition qty_mark : N -> bool := cls [ch "@"; ch_i "x"; N.eqb 215; ch "*"].
(** [(\d[\d,\.]+)] as group [i] *)
Definition amount (i : nat) : regex :=
  Grp i (Cat digit (Plus true (Chr (cls [is_digit; ch ",."])))).
(** [[\/\-\.]] *)
Definition date_sep : regex := Chr (ch "/-.").

Module Patterns.

(** [/[$€£]?\s*(\d{1,3}(?:[,\.]\d{3})*|\d+)(?:[\.,](\d{2}))?/] *)
Definition price : regex :=
  Seq [Opt (Chr currency_sym); spaces;
       Grp 1 (Alt (Cat (Between 1 3 digit)
                       (Star true (Cat (Chr (ch ",.")) (Times 3 digit))))
                  (Plus true digit));
       Opt (Cat (Chr (ch ".,")) (Grp 2 (Times 2 digit)))].

(** [/^(\d+)\s*[@x×\*]\s*|^@?\s*(\d+)\s*[:\-]?\s*|^qty[:\s]*(\d+)/i] *)
Definition quantity : regex :=
  Any [Seq [Bol; Grp 1 (Plus true digit); spaces; Chr qty_mark; spaces];
       Seq [Bol; Opt (Chr (ch "@")); spaces; Grp 2 (Plus true digit); spaces;
            Opt (Chr (ch ":-")); spaces];
       Seq [Bol; Lit_i "qty"; Star true (Chr (cls [ch ":"; is_space]));
            Grp 3 (Plus true digit)]].

(** [/^(.+?)[\.\s\-_]{3,}\s*[$€£]?(\d[\d,\.]+)/i] *)
Definition dottedItem : regex :=
  Seq [Bol; Grp 1 (Plus false (Chr any_char));
       AtLeast 3 (Chr (cls [ch ".-_"; is_space])); spaces;
       Opt (Chr currency_sym); amount 2].

(** [/^(?:(\d+)\s*[@x×\*]\s* )?(.+?)(?:\s+[$€£]?(\d[\d,\.]+)\s*$)/i] *)
Definition itemLine : regex :=
  Seq [Bol;
       Opt (Seq [Grp 1 (Plus true digit); spaces; Chr qty_mark; spaces]);
       Grp 2 (Plus false (Chr any_char));
       Plus true space; Opt (Chr currency_sym); amount 3; spaces; Eol].

(** [[:\s]*[$€£]?(\d[\d,\.]+)], the tail shared by the summary patterns *)
Definition summary_tail : regex :=
  Seq [Star true (Chr (cls [ch ":"; is_space])); Opt (Chr currency_sym); amount 1].

(** [/^(?:sub[-\s]?total|subttl|before\s*tax|net|pre[-\s]?tax)[:\s]*[$€£]?(\d[\d,\.]+)/i] *)
Definition subtotal : regex :=
  Seq [Bol;
       Any [Seq [Lit_i "sub"; Opt (Chr (cls [ch "-"; is_space])); Lit_i "total"];
            Lit_i "subttl";
            Seq [Lit_i "before"; spaces; Lit_i "tax"];
            Lit_i "net";
            Seq [Lit_i "pre"; Opt (Chr (cls [ch "-"; is_space])); Lit_i "tax"]];
       summary_tail].

(** [/^(?:tax|vat|gst|hst|sales\s*tax)(?:\s*\(?\d*[%\s)]* )?[:\s]*[$€£]?(\d[\d,\.]+)/i] *)
Definition tax : regex :=
  Seq [Bol;
       Any [Lit_i "tax"; Lit_i "vat"; Lit_i "gst"; Lit_i "hst";
            Seq [Lit_i "sales"; spaces; Lit_i "tax"]];
       Opt (Seq [spaces; Opt (Chr (ch "(")); Star true digit;
                 Star true (Chr (cls [ch "%)"; is_space]))]);
       summary_tail].

(** [/^(?:tip|gratuity|service\s*charge)[:\s]*[$€£]?(\d[\d,\.]+)/i] *)
Definition tip : regex :=
  Seq [Bol;
       Any [Lit_i "tip"; Lit_i "gratuity";
            Seq [Lit_i "service"; spaces; Lit_i "charge"]];
       summary_tail].

(** [/^(?:total|amount\s*due|balance\s*due|grand\s*total)[:\s]*[$€£]?(\d[\d,\.]+)/i] *)
Definition total : regex :=
  Seq [Bol;
       Any [Lit_i "total";
            Seq [Lit_i "amount"; spaces; Lit_i "due"];
            Seq [Lit_i "balance"; spaces; Lit_i "due"];
            Seq [Lit_i "grand"; spaces; Lit_i "total"]];
       summary_tail].

(** [/(\d{1,2}[\/\-\.]\d{1,2}[\/\-\.]\d{2,4}|\d{4}[\/\-\.]\d{1,2}[\/\-\.]\d{1,2}|(?:Jan|...|Dec)[a-z]*\.?\s*\d{1,2},?\s*\d{4})/i] *)
Definition date : regex :=
  Grp 1 (Any [
    Seq [Between 1 2 digit; date_sep; Between 1 2 digit; date_sep; Between 2 4 digit];
    Seq [Times 4 digit; date_sep; Between 1 2 digit; date_sep; Between 1 2 digit];
    Seq [Words_i ["Jan"; "Feb"; "Mar"; "Apr"; "May"; "Jun";
                  "Jul"; "Aug"; "Sep"; "Oct"; "Nov"; "Dec"];
         Star true (Chr (fun c => is_lower (lower_char c)));
         Opt (Chr (ch ".")); spaces; Between 1 2 digit; Opt (Chr (ch ","));
         spaces; Times 4 digit]]).

(** [/^[A-Z][A-Za-z0-9\s&'\-]+(?:LLC|Inc|Ltd|Corp|Restaurant|Cafe|Store|Shop|Market)?$/] *)
Definition merchant : regex :=
  Seq [Bol; Chr is_upper;
       Plus true (Chr (cls [is_upper; is_lower; is_digit; is_space; ch "&'-"]));
       Opt (Any [Lit "LLC"; Lit "Inc"; Lit "Ltd"; Lit "Corp"; Lit "Restaurant";
                 Lit "Cafe"; Lit "Store"; Lit "Shop"; Lit "Market"]);
       Eol].

(** [/^(?:receipt|invoice|order|ticket|cashier|server|table|guest|thank|call|visit|www\.|http|tel|phone|fax|email|date\s*:)/i] *)
Definition skip : regex :=
  Seq [Bol;
       Any [Lit_i "receipt"; Lit_i "invoice"; Lit_i "order"; Lit_i "ticket";
            Lit_i "cashier"; Lit_i "server"; Lit_i "table"; Lit_i "guest";
            Lit_i "thank"; Lit_i "call"; Lit_i "visit"; Lit_i "www.";
            Lit_i "http"; Lit_i "tel"; Lit_i "phone"; Lit_i "fax"; Lit_i "email";
            Seq [Lit_i "date"; spaces; Lit ":"]]].

End Patterns.


(** ** Price normalisation *)

(** [s.split(/[.,]/)] *)
Fixpoint split_on (p : N -> bool) (s : jsstring) : list jsstring :=
  match s with
  | [] => [[]]
  | c :: s' =>
      if p c then [] :: split_on p s'
      else
        match split_on p s' with
        | part :: parts => (c :: part) :: parts
        | [] => [[c]]
        end
  end.

Definition is_separator : N -> bool := ch ".,".
Definition dot : jsstring := str ".".

(** [priceStr.replace(/[$€£\s]/g, '')]: every currency symbol and white
    space is dropped. *)
Definition strip_currency (s : jsstring) : jsstring :=
  filter (fun c => negb (cls [currency_sym; is_space] c) = true) s.

(** The string that [parsePrice] hands to [parseFloat]. *)
Definition normalize_separators (clean : jsstring) : jsstring :=
  let parts := split_on is_separator clean in
  if (2 <? length parts)%nat then
    (* parts.pop(); parts.join('') + '.' + decimal *)
    let decimal := List.last parts [] in
    concat (removelast parts) ++ dot ++ decimal
  else
    match parts with
    | [firstPart; secondPart] =>
        if (length secondPart =? 2)%nat then firstPart ++ dot ++ secondPart
        else if (length secondPart =? 1)%nat then firstPart ++ dot ++ secondPart ++ str "0"
        else if (2 <? length secondPart)%nat then firstPart ++ secondPart
        else firstPart ++ dot ++ secondPart
    | _ => clean
    end.

Definition parsePrice (priceStr : jsstring) : number :=
  match priceStr with
  | [] => num 0
  | _ =>
      let clean := normalize_separators (strip_currency priceStr) in
      let value := parseFloat clean in
      if isNaN value then num 0 else value
  end.

(** ** Quantities and names *)

Definition extractQuantity (text : jsstring) : number :=
  match text with
  | [] => num 1
  | _ =>
      match exec Patterns.quantity text with
      | Some qtyMatch =>
          parseInt (str_or (group 1 qtyMatch) (str_or (group 2 qtyMatch) (group 3 qtyMatch)))
      | None => num 1
      end
  end.

Definition removeQuantityFromName (name : jsstring) (quantity : number) : jsstring :=
  (* /^@\s*/ *)
  let name := replace (Seq [Bol; Chr (ch "@"); spaces]) [] name in
  let name :=
    if num_gtb quantity (num 1) then
      (* /^\d+\s*[@x×\*:]\s*/i *)
      let name := replace (Seq [Bol; Plus true digit; spaces;
                                Chr (cls [qty_mark; ch ":"]); spaces]) [] name in
      (* /^qty[:\s]*\d+\s*/i *)
      let name := replace (Seq [Bol; Lit_i "qty"; Star true (Chr (cls [ch ":"; is_space]));
                                Plus true digit; spaces]) [] name in
      (* /^\d+\s+/ *)
      replace (Seq [Bol; Plus true digit; Plus true space]) [] name
    else name in
  trim name.

Definition cleanItemName (name : jsstring) : jsstring :=
  let dash_or_space := Chr (cls [is_space; ch "-"]) in
  (* /\s+/g *)
  let name := replace_all (Plus true space) (fun _ => str " ") name in
  (* /^[\s\-]+|[\s\-]+$/g *)
  let name := replace_all (Alt (Cat Bol (Plus true dash_or_space))
                               (Cat (Plus true dash_or_space) Eol))
                          (fun _ => []) name in
  (* /\b\w/g *)
  replace_all (Cat WordB (Chr is_word)) toUpperCase (toLowerCase (trim name)).

Definition street_words : list string :=
  ["main"; "street"; "st"; "ave"; "avenue"; "blvd"; "boulevard"; "road"; "rd";
   "drive"; "dr"; "lane"; "ln"; "way"; "court"; "ct"].

Definition invalid_words : list string :=
  ["total"; "subtotal"; "tax"; "tip"; "change"; "cash"; "credit"; "debit";
   "card"; "payment"; "balance"; "amount"; "due"; "check"; "bill"; "date"].

Definition isValidItemName (name : jsstring) : bool :=
  if (length name <? 2)%nat then false
  (* /^[\d\W]+$/ *)
  else if test (Seq [Bol; Plus true (Chr (cls [is_digit; ncls is_word])); Eol]) name then false
  (* /^(?:total|...|date)$/i on the trimmed name *)
  else if test (Seq [Bol; Words_i invalid_words; Eol]) (trim name) then false
  (* /^\d+\s+(main|...|ct)/i *)
  else if test (Seq [Bol; Plus true digit; Plus true space; Grp 1 (Words_i street_words)]) name then false
  (* /^(main|...|ct)\s+\d+$/i *)
  else if test (Seq [Bol; Grp 1 (Words_i street_words); Plus true space; Plus true digit; Eol]) name then false
  (* /^(order|ticket|table|check|receipt)\s*#?\s*\d+/i *)
  else if test (Seq [Bol; Grp 1 (Words_i ["order"; "ticket"; "table"; "check"; "receipt"]);
                     spaces; Opt (Chr (ch "#")); spaces; Plus true digit]) name then false
  else true.

(** ** Line classification *)

Inductive classified : Type :=
| Unknown
| ItemLine (name : jsstring) (price quantity confidence : number)
| TaxLine (amount : number)
| TipLine (amount : number)
| TotalLine (amount : number)
| SubtotalLine (amount : number).

Definition capture_text (i : nat) (m : match_result) : jsstring :=
  default [] (group i m).

(** [categorizeLine] is a sequence of four blocks, each of which either
    returns a result or falls through to the next one.  Each block is a
    function here, [None] standing for falling through.

    First block, "Try dotted item format first". *)
Definition dotted_rule (line : jsstring) : option classified :=
  match exec Patterns.dottedItem line with
  | Some dottedMatch =>
      let name := trim (capture_text 1 dottedMatch) in
      let price := parsePrice (capture_text 2 dottedMatch) in
      let quantity := extractQuantity name in
      if num_gtb price (num 0) && isValidItemName name
      then Some (ItemLine (removeQuantityFromName name quantity) price quantity (dec 92 100))
      else None
  | None => None
  end.

(** Second block, "Try summary patterns": tax, tip, total, subtotal. *)
Definition summary_rule (line : jsstring) : option classified :=
  match exec Patterns.tax line with
  | Some taxMatch => Some (TaxLine (parsePrice (capture_text 1 taxMatch)))
  | None =>
  match exec Patterns.tip line with
  | Some tipMatch => Some (TipLine (parsePrice (capture_text 1 tipMatch)))
  | None =>
  match exec Patterns.total line with
  | Some totalMatch => Some (TotalLine (parsePrice (capture_text 1 totalMatch)))
  | None =>
  match exec Patterns.subtotal line with
  | Some subtotalMatch => Some (SubtotalLine (parsePrice (capture_text 1 subtotalMatch)))
  | None => None
  end end end end.

(** Third block, "Try item line patterns".  [qty] is [null] when the
    quantity group did not take part in the match. *)
Definition item_rule (line : jsstring) : option classified :=
  match exec Patterns.itemLine line with
  | Some itemMatch =>
      let qty :=
        match group 1 itemMatch with
        | Some (_ :: _) => Some (parseInt (group 1 itemMatch))
        | _ => None
        end in
      let qty_given := match qty with Some q => truthy q | None => false end in
      let name := trim (capture_text 2 itemMatch) in
      let price := parsePrice (capture_text 3 itemMatch) in
      let extractedQty :=
        match qty with
        | Some q => num_or q (extractQuantity name)
        | None => extractQuantity name
        end in
      let name := removeQuantityFromName name extractedQty in
      if num_gtb price (num 0) && isValidItemName name then
        let confidence := dec 85 100 in
        let confidence := if qty_given then dec 95 100 else confidence in
        let confidence :=
          if includes line (str "...") || includes line (str "---")
          then dec 90 100 else confidence in
        Some (ItemLine name price extractedQty confidence)
      else None
  | None => None
  end.

(** Fourth block, "Try to extract any line with price that looks like an
    item", with its guard against street addresses. *)
Definition price_rule (line : jsstring) : option classified :=
  match exec Patterns.price line with
  | Some priceMatch =>
      let price := parsePrice (m_text priceMatch) in
      let name := trim (replace Patterns.price [] line) in
      let quantity := extractQuantity name in
      if num_gtb price (num 0) && isValidItemName name && (2 <? length name)%nat then
        if num_geb price (num 100) && num_leb price (num 99999) &&
           test (Seq [Bol; Grp 1 (Words_i street_words); WordB]) name
        then None
        else Some (ItemLine (removeQuantityFromName name quantity) price quantity (dec 70 100))
      else None
  | None => None
  end.

Definition categorizeLine (line : jsstring) : classified :=
  match dotted_rule line with
  | Some result => result
  | None =>
  match summary_rule line with
  | Some result => result
  | None =>
  match item_rule line with
  | Some result => result
  | None =>
  match price_rule line with
  | Some result => result
  | None => Unknown
  end end end end.

(** ** Items, summary and confidence *)

Record Item : Type := mkItem {
  name : jsstring;
  price : number;
  quantity : number;
  raw : jsstring;
  confidence : number
}.

Record Summary : Type := mkSummary {
  tax : number;
  tip : number;
  total : number;
  subtotal : number
}.

Definition extractItems (lines : list jsstring) : list Item :=
  fold_left
    (fun items line =>
       match categorizeLine line with
       | ItemLine n p q c => items ++ [mkItem (cleanItemName n) p (num_or q (num 1)) line c]
       | _ => items
       end)
    lines [].

(** One turn of the loop of [extractSummary]. *)
Definition record_line (summary : Summary) (line : jsstring) : Summary :=
  match categorizeLine line with
  | TaxLine a => mkSummary a (tip summary) (total summary) (subtotal summary)
  | TipLine a => mkSummary (tax summary) a (total summary) (subtotal summary)
  | TotalLine a => mkSummary (tax summary) (tip summary) a (subtotal summary)
  | SubtotalLine a => mkSummary (tax summary) (tip summary) (total summary) a
  | _ => summary
  end.

Definition infer_subtotal (summary : Summary) : Summary :=
  if num_eqb (subtotal summary) (num 0) && num_gtb (total summary) (num 0)
     && num_gtb (tax summary) (num 0)
  then mkSummary (tax summary) (tip summary) (total summary)
                 (num_sub (num_sub (total summary) (tax summary)) (tip summary))
  else summary.

Definition extractSummary (lines : list jsstring) : Summary :=
  infer_subtotal (fold_left record_line lines (mkSummary (num 0) (num 0) (num 0) (num 0))).

Definition calculateConfidence (items : list Item) (summary : Summary) : number :=
  match items with
  | [] => num 0
  | _ =>
      let count := num (Z.of_nat (length items)) in
      let itemConfidence :=
        num_div (fold_left (fun sum item => num_add sum (num_or (confidence item) (dec 5 10)))
                           items (num 0))
                count in
      let itemsTotal :=
        fold_left (fun sum item => num_add sum (num_mul (price item) (quantity item)))
                  items (num 0) in
      let totalConfidence :=
        if num_gtb (total summary) (num 0) then
          let calculatedTotal := num_add (num_add itemsTotal (tax summary)) (tip summary) in
          let diff := num_abs (num_sub calculatedTotal (total summary)) in
          let tolerance := num_mul (total summary) (dec 5 100) in
          if num_leb diff tolerance then num 1
          else if num_leb diff (num_mul tolerance (num 2)) then dec 8 10
          else dec 5 10
        else num 1 in
      num_div
        (Math_round
           (num_mul (num_add (num_mul itemConfidence (dec 6 10))
                             (num_mul totalConfidence (dec 4 10)))
                    (num 100)))
        (num 100)
  end.

(** ** Preprocessing and metadata *)

(** [text.replace(/\r\n/g, '\n').replace(/\r/g, '\n')] *)
Fixpoint normalize_newlines (s : jsstring) : jsstring :=
  match s with
  | 13 :: ((10 :: _) as s') => normalize_newlines s'
  | 13 :: s' => 10 :: normalize_newlines s'
  | c :: s' => c :: normalize_newlines s'
  | [] => []
  end.

Definition nonempty (s : jsstring) : bool := (0 <? length s)%nat.

Definition preprocessText (text : jsstring) : list jsstring :=
  filter (fun line => nonempty line && negb (test Patterns.skip line) = true)
         (map trim (split_on (N.eqb 10) (normalize_newlines text))).

Definition padStart2 (s : jsstring) : jsstring :=
  replicate (2 - length s) 48 ++ s.

Record Metadata : Type := mkMetadata {
  meta_merchant : jsstring;
  meta_date : jsstring
}.

Record Receipt : Type := mkReceipt {
  r_merchant : jsstring;
  r_date : jsstring;
  r_items : list Item;
  r_tax : number;
  r_tip : number;
  r_total : number;
  r_subtotal : number;
  r_confidence : number
}.

Definition createEmptyReceipt : Receipt :=
  mkReceipt [] [] [] (num 0) (num 0) (num 0) (num 0) (num 0).

Section Host.

(** [new Date(dateStr)] followed by [toISOString().split('T')[0]]: the
    calendar date the host reads from the string, or [None] when the host
    cannot read it.  Date parsing is left to the JavaScript host, so it is
    a parameter here. *)
Variable host_date : jsstring -> option jsstring.

Definition normalizeDate (dateStr : jsstring) : jsstring :=
  match dateStr with
  | [] => []
  | _ =>
      match host_date dateStr with
      | Some iso => iso
      | None =>
          let dash := str "-" in
          (* /(\d{1,2})[\/\-\.](\d{1,2})[\/\-\.](\d{4})/ with order [1, 2, 3] *)
          match exec (Seq [Grp 1 (Between 1 2 digit); date_sep;
                           Grp 2 (Between 1 2 digit); date_sep;
                           Grp 3 (Times 4 digit)]) dateStr with
          | Some m =>
              capture_text 3 m ++ dash ++ padStart2 (capture_text 1 m)
                ++ dash ++ padStart2 (capture_text 2 m)
          | None =>
              (* /(\d{4})[\/\-\.](\d{1,2})[\/\-\.](\d{1,2})/ with order [3, 2, 1] *)
              match exec (Seq [Grp 1 (Times 4 digit); date_sep;
                               Grp 2 (Between 1 2 digit); date_sep;
                               Grp 3 (Between 1 2 digit)]) dateStr with
              | Some m =>
                  capture_text 1 m ++ dash ++ padStart2 (capture_text 3 m)
                    ++ dash ++ padStart2 (capture_text 2 m)
              | None => dateStr
              end
          end
      end
  end.

(** The merchant loop of [extractMetadata], over the lines it may inspect. *)
Fixpoint find_merchant (lines : list jsstring) : jsstring :=
  match lines with
  | [] => []
  | line :: rest =>
      if test Patterns.merchant line && (2 <? length line)%nat && (length line <? 50)%nat
         && (negb (test Patterns.date line) && negb (test Patterns.price line))
      then trim line
      else find_merchant rest
  end.

(** The date loop of [extractMetadata]. *)
Fixpoint find_date (lines : list jsstring) : jsstring :=
  match lines with
  | [] => []
  | line :: rest =>
      (* /^date\s*:\s*/i *)
      let cleanLine := replace (Seq [Bol; Lit_i "date"; spaces; Lit ":"; spaces]) [] line in
      match exec Patterns.date cleanLine with
      | Some dateMatch => normalizeDate (capture_text 1 dateMatch)
      | None => find_date rest
      end
  end.

Definition extractMetadata (lines : list jsstring) : Metadata :=
  mkMetadata (find_merchant (take (Nat.min 5 (length lines)) lines)) (find_date lines).

Definition parseReceiptText (text : jsstring) : Receipt :=
  match text with
  | [] => createEmptyReceipt
  | _ =>
      let lines := preprocessText text in
      let items := extractItems lines in
      let summary := extractSummary lines in
      let metadata := extractMetadata lines in
      mkReceipt (meta_merchant metadata) (meta_date metadata) items
                (tax summary) (tip summary) (total summary) (subtotal summary)
                (calculateConfidence items summary)
  end.

End Host.

(** ** Fuzzy matching *)

(** The table [dp] of [levenshteinDistance], a list of rows. *)
Definition dp_get (dp : list (list nat)) (i j : nat) : nat :=
  default 0%nat (dp !! i ≫= (.!! j)).
Definition dp_set (dp : list (list nat)) (i j v : nat) : list (list nat) :=
  alter (<[j:=v]>) i dp.

Definition min3 (a b c : nat) : nat := Nat.min (Nat.min a b) c.

Definition fill_cell (str1 str2 : jsstring) (i : nat) (dp : list (list nat)) (j : nat)
  : list (list nat) :=
  if bool_decide (str1 !! (i - 1)%nat = str2 !! (j - 1)%nat)
  then dp_set dp i j (dp_get dp (i - 1) (j - 1))
  else dp_set dp i j (min3 (dp_get dp (i - 1) j + 1)
                           (dp_get dp i (j - 1) + 1)
                           (dp_get dp (i - 1) (j - 1) + 1)).

Definition levenshteinDistance (str1 str2 : jsstring) : nat :=
  let m := length str1 in
  let n := length str2 in
  let dp := replicate (m + 1) (replicate (n + 1) 0%nat) in
  let dp := fold_left (fun dp i => dp_set dp i 0 i) (seq 0 (m + 1)) dp in
  let dp := fold_left (fun dp j => dp_set dp 0 j j) (seq 0 (n + 1)) dp in
  let dp :=
    fold_left (fun dp i => fold_left (fill_cell str1 str2 i) (seq 1 n) dp)
              (seq 1 m) dp in
  dp_get dp m n.

Definition of_nat (n : nat) : number := num (Z.of_nat n).

Definition calculateSimilarity (str1 str2 : jsstring) : number :=
  let s1 := trim (toLowerCase str1) in
  let s2 := trim (toLowerCase str2) in
  if str_eqb s1 s2 then num 1
  else
    let maxLength := Nat.max (length s1) (length s2) in
    if (maxLength =? 0)%nat then num 1
    else
      let distance := levenshteinDistance s1 s2 in
      num_sub (num 1) (num_div (of_nat distance) (of_nat maxLength)).

Record MergedItem : Type := mkMerged {
  merged_name : jsstring;
  merged_price : number;
  merged_quantity : number;
  merged_confidence : number;
  mergedFrom : option (list jsstring)
}.

(** The object literal [mergedItem] built from a group. *)
Definition merge_group (group : list Item) : MergedItem :=
  mkMerged
    (match group with g0 :: _ => name g0 | [] => [] end)
    (num_div (fold_left (fun sum item => num_add sum (price item)) group (num 0))
             (of_nat (length group)))
    (fold_left (fun sum item => num_add sum (quantity item)) group (num 0))
    (num_mul (Math_max (map confidence group)) (dec 95 100))
    (if (1 <? length group)%nat then Some (map raw group) else None).

(** The inner loop: item [j] joins the group of [current] when it is not
    used yet and similar enough. *)
Definition try_join (items : list Item) (similarityThreshold : number) (current : Item)
  (acc : list Item * gset nat) (j : nat) : list Item * gset nat :=
  let '(group, used) := acc in
  if bool_decide (j ∈ used) then acc
  else
    match items !! j with
    | Some other =>
        let similarity := calculateSimilarity (name current) (name other) in
        if num_geb similarity similarityThreshold
        then (group ++ [other], {[j]} ∪ used)
        else acc
    | None => acc
    end.

(** The outer loop. *)
Definition merge_step (items : list Item) (similarityThreshold : number)
  (acc : list MergedItem * gset nat) (i : nat) : list MergedItem * gset nat :=
  let '(merged, used) := acc in
  if bool_decide (i ∈ used) then acc
  else
    match items !! i with
    | Some current =>
        let '(group, used) :=
          fold_left (try_join items similarityThreshold current)
                    (seq (i + 1) (length items - (i + 1)))
                    ([current], {[i]} ∪ used) in
        (merged ++ [merge_group group], used)
    | None => acc
    end.

Definition mergeSimilarItems (items : list Item) (similarityThreshold : number)
  : list MergedItem :=
  fst (fold_left (merge_step items similarityThreshold) (seq 0 (length items)) ([], ∅)).

(** ** The best match in a catalog *)

Record BestMatch : Type := mkBestMatch {
  bm_match : option jsstring;
  bm_score : number;
  isFuzzy : bool
}.

(** [this.fuzzyConfig.threshold] *)
Definition fuzzy_threshold : number := dec 8 10.

(** The body of the loop of [findBestMatch]. *)
Definition best_step (itemName : jsstring) (acc : option jsstring * number)
  (catalogItem : jsstring) : option jsstring * number :=
  let '(bestMatch, bestScore) := acc in
  let score := calculateSimilarity itemName catalogItem in
  if num_gtb score bestScore && num_geb score fuzzy_threshold
  then (Some catalogItem, score)
  else (bestMatch, bestScore).

Definition findBestMatch (itemName : jsstring) (catalog : list jsstring) : BestMatch :=
  let '(bestMatch, bestScore) := fold_left (best_step itemName) catalog (None, num 0) in
  mkBestMatch bestMatch bestScore (num_ltb bestScore (num 1)).

(** ** The smaller parser of [part_001]

    The second copy of the parser classifies lines with the same patterns
    but in another order: summary rules, dotted rule, standard item rule.
    Its price reader deletes commas, its summary infers nothing and its
    score has weights and thresholds of its own. *)

Module Lite.

(** [str.replace(/[$€£\s]/g, '').replace(/,/g, '')], then [parseFloat] *)
Definition parsePrice (s : jsstring) : number :=
  match s with
  | [] => num 0
  | _ =>
      let clean := filter (fun c => negb (N.eqb c 44) = true) (strip_currency s) in
      let val := parseFloat clean in
      if isNaN val then num 0 else val
  end.

Definition extractQuantity (text : jsstring) : number :=
  match exec Patterns.quantity text with
  | Some m => parseInt (str_or (group 1 m) (str_or (group 2 m) (group 3 m)))
  | None => num 1
  end.

Definition isValidItemName (name : jsstring) : bool :=
  if (length name <? 2)%nat then false
  else if test (Seq [Bol; Plus true (Chr (cls [is_digit; ncls is_word])); Eol]) name then false
  (* /^(total|subtotal|tax|tip|cash|card|payment|date|address)$/i *)
  else if test (Seq [Bol;
                     Grp 1 (Words_i ["total"; "subtotal"; "tax"; "tip"; "cash"; "card";
                                     "payment"; "date"; "address"]);
                     Eol]) (trim name) then false
  (* /^\d+\s+(main|street|st|ave|road|rd|drive|dr)/i *)
  else if test (Seq [Bol; Plus true digit; Plus true space;
                     Grp 1 (Words_i ["main"; "street"; "st"; "ave"; "road"; "rd";
                                     "drive"; "dr"])]) name then false
  else true.

Definition summary_rule (line : jsstring) : option classified :=
  match exec Patterns.tax line with
  | Some taxMatch => Some (TaxLine (parsePrice (capture_text 1 taxMatch)))
  | None =>
  match exec Patterns.tip line with
  | Some tipMatch => Some (TipLine (parsePrice (capture_text 1 tipMatch)))
  | None =>
  match exec Patterns.total line with
  | Some totalMatch => Some (TotalLine (parsePrice (capture_text 1 totalMatch)))
  | None =>
  match exec Patterns.subtotal line with
  | Some subtotalMatch => Some (SubtotalLine (parsePrice (capture_text 1 subtotalMatch)))
  | None => None
  end end end end.

Definition dotted_rule (line : jsstring) : option classified :=
  match exec Patterns.dottedItem line with
  | Some dottedMatch =>
      let name := trim (capture_text 1 dottedMatch) in
      let price := parsePrice (capture_text 2 dottedMatch) in
      if isValidItemName name
      then Some (ItemLine (removeQuantityFromName name (num 1)) price
                          (extractQuantity name) (dec 92 100))
      else None
  | None => None
  end.

Definition item_rule (line : jsstring) : option classified :=
  match exec Patterns.itemLine line with
  | Some itemMatch =>
      let qtyStr := group 1 itemMatch in
      let qty_given := match qtyStr with Some (_ :: _) => true | _ => false end in
      let rawName := trim (capture_text 2 itemMatch) in
      let price := parsePrice (capture_text 3 itemMatch) in
      let qty := if qty_given then parseInt qtyStr else extractQuantity rawName in
      let name := removeQuantityFromName rawName qty in
      if isValidItemName name
      then Some (ItemLine name price qty (if qty_given then dec 95 100 else dec 85 100))
      else None
  | None => None
  end.

Definition categorizeLine (line : jsstring) : classified :=
  match summary_rule line with
  | Some result => result
  | None =>
  match dotted_rule line with
  | Some result => result
  | None =>
  match item_rule line with
  | Some result => result
  | None => Unknown
  end end end.

(** *** [extractSummary]

    The loop is the one of the full parser, written with an index into the
    record: [summary[cat.type] !== undefined] holds for the four summary
    kinds and for no other type.  Nothing follows the loop: a subtotal is
    never inferred here. *)
Definition record_line (summary : Summary) (line : jsstring) : Summary :=
  match categorizeLine line with
  | TaxLine a => mkSummary a (tip summary) (total summary) (subtotal summary)
  | TipLine a => mkSummary (tax summary) a (total summary) (subtotal summary)
  | TotalLine a => mkSummary (tax summary) (tip summary) a (subtotal summary)
  | SubtotalLine a => mkSummary (tax summary) (tip summary) (total summary) a
  | _ => summary
  end.

Definition extractSummary (lines : list jsstring) : Summary :=
  fold_left record_line lines (mkSummary (num 0) (num 0) (num 0) (num 0)).

(** *** [calculateConfidence]

    The weights are 0.7 and 0.3, the discrepancy is compared with the
    fixed amounts 0.05 and 1.00, and a confidence of zero is not replaced.
    The items of this parser have no field [raw]; it is not read. *)
Definition calculateConfidence (items : list Item) (summary : Summary) : number :=
  match items with
  | [] => num 0
  | _ =>
      let itemConf :=
        num_div (fold_left (fun s i => num_add s (confidence i)) items (num 0))
                (num (Z.of_nat (length items))) in
      let itemsSum :=
        fold_left (fun s i => num_add s (num_mul (price i) (quantity i))) items (num 0) in
      let totalConf :=
        if num_gtb (total summary) (num 0) then
          let calculated := num_add (num_add itemsSum (tax summary)) (tip summary) in
          let diff := num_abs (num_sub calculated (total summary)) in
          let totalConf := if num_gtb diff (dec 5 100) then dec 7 10 else num 1 in
          if num_gtb diff (num 1) then dec 5 10 else totalConf
        else num 1 in
      num_div
        (Math_round
           (num_mul (num_add (num_mul itemConf (dec 7 10)) (num_mul totalConf (dec 3 10)))
                    (num 100)))
        (num 100)
  end.

(** *** [levenshtein]

    The table [tmp] starts as an empty array and grows by assignment, so
    the arrays are modelled with what an assignment past the end does: the
    array is extended, with holes in between.  A cell holds [undefined] (a
    hole), [NaN] or a count; a row of [tmp] that is a hole is [None], and
    indexing into it throws, which makes the result [None]. *)
Inductive jsval : Type :=
| Undefined
| NotANumber
| Num (n : nat).

(** [l[i] = v] *)
Definition js_assign {A} (hole : A) (l : list A) (i : nat) (v : A) : list A :=
  if (i <? length l)%nat then <[i := v]> l
  else l ++ replicate (i - length l)%nat hole ++ [v].
(** [l[i]] *)
Definition js_index {A} (hole : A) (l : list A) (i : nat) : A := default hole (l !! i).

(** [v + k] and [Math.min] of three arguments. *)
Definition js_add (v : jsval) (k : nat) : jsval :=
  match v with
  | Num n => Num (n + k)
  | _ => NotANumber
  end.
Definition Math_min3 (x y z : jsval) : jsval :=
  match x, y, z with
  | Num a, Num b, Num c => Num (min3 a b c)
  | _, _, _ => NotANumber
  end.

Abbreviation table := (list (option (list jsval))).

(** [tmp[i]], on which an index access follows. *)
Definition row_of (tmp : table) (i : nat) : option (list jsval) := js_index None tmp i.

(** [tmp[i][j] = v]: the row is changed in place. *)
Definition set_cell (tmp : table) (i j : nat) (v : jsval) : option table :=
  row ← row_of tmp i;
  Some (<[i := Some (js_assign Undefined row j v)]> tmp).

(** The body of the inner loop. *)
Definition cell_step (a b : jsstring) (i : nat) (tmp : table) (j : nat) : option table :=
  prev ← row_of tmp (i - 1);
  cur ← row_of tmp i;
  set_cell tmp i j
    (Math_min3 (js_add (js_index Undefined prev j) 1)
               (js_add (js_index Undefined cur (j - 1)) 1)
               (js_add (js_index Undefined prev (j - 1))
                       (if bool_decide (a !! (i - 1)%nat = b !! (j - 1)%nat) then 0 else 1))).

Definition levenshtein (a b : jsstring) : option jsval :=
  let tmp := fold_left (fun tmp i => js_assign None tmp i (Some [Num i]))
                       (seq 0 (length a + 1)) [] in
  tmp ← fold_left (fun acc j => tmp ← acc; set_cell tmp 0 j (Num j))
                  (seq 0 (length b + 1)) (Some tmp);
  tmp ← fold_left (fun acc i =>
                     fold_left (fun acc j => tmp ← acc; cell_step a b i tmp j)
                               (seq 1 (length b)) acc)
                  (seq 1 (length a)) (Some tmp);
  row ← row_of tmp (length a);
  Some (js_index Undefined row (length b)).

End Lite.

(** * The session engine

    The first part of [combined.js] (and [part_000], the same code) keeps
    bill-splitting sessions in [localStorage] under one key, as the JSON
    text of an object from room codes to sessions.  Every function reads
    the object, changes a session and writes the object back.

    The model keeps the state the functions work on in a [World]: the
    stored object as a finite map, the readings of [Date.now] and
    [Math.random] as two sequences of which the world counts how many were
    taken, and the messages posted on the broadcast channel.  A function
    of the engine is a function from worlds to an outcome and a world; an
    outcome is a returned value or a thrown [Error] with its message.

    Storage is taken to work: [localStorage.getItem] and [setItem] do not
    throw and the text read is the text written.  Arguments have the types
    the code expects of them (strings, and a number or [null] for a
    selection's value).  The functions [setReceipt], [addReceiptItem] and
    [generateId] convert numbers to text and back ([parseInt] of a number,
    [toString(36)]) and are not modelled, nor is what works with
    callbacks and timers ([syncSession], [startSync], [stopSync],
    [setupBroadcastListener], [initSplitt]). *)

Module Splitt.

(** [SESSION_TTL] *)
Definition SESSION_TTL : Z := 24 * 60 * 60 * 1000.

Record Participant : Type := mkParticipant {
  p_id : jsstring;
  p_name : jsstring;
  p_emoji : jsstring;
  joinedAt : Z;
  lastSeenAt : Z
}.

(** The argument [user] of [joinSession]; [u_emoji] is [None] when the
    object has no property [emoji]. *)
Record User : Type := mkUser {
  u_id : jsstring;
  u_name : jsstring;
  u_emoji : option jsstring
}.

(** A selection; [value] is [None] for [null]. *)
Record Selection : Type := mkSelection {
  participantId : jsstring;
  itemId : jsstring;
  splitType : jsstring;
  value : option number;
  selectedAt : Z
}.

Record ReceiptItem : Type := mkReceiptItem {
  item_id : jsstring;
  item_name : jsstring;
  item_price : number;
  item_quantity : number;
  category : jsstring
}.

Record SessionReceipt : Type := mkSessionReceipt {
  imageUrl : option jsstring;
  items : list ReceiptItem;
  tax : number;
  tip : number;
  total : number
}.

Record Session : Type := mkSession {
  sessionId : jsstring;
  hostId : jsstring;
  status : jsstring;
  createdAt : Z;
  expiresAt : Z;
  lastModified : Z;
  receipt : SessionReceipt;
  participants : list Participant;
  selections : list Selection
}.

(** Assignments to the properties of a session. *)
Definition set_hostId (h : jsstring) (s : Session) : Session :=
  mkSession (sessionId s) h (status s) (createdAt s) (expiresAt s) (lastModified s)
            (receipt s) (participants s) (selections s).
Definition set_status (st : jsstring) (s : Session) : Session :=
  mkSession (sessionId s) (hostId s) st (createdAt s) (expiresAt s) (lastModified s)
            (receipt s) (participants s) (selections s).
Definition set_lastModified (t : Z) (s : Session) : Session :=
  mkSession (sessionId s) (hostId s) (status s) (createdAt s) (expiresAt s) t
            (receipt s) (participants s) (selections s).
Definition set_participants (ps : list Participant) (s : Session) : Session :=
  mkSession (sessionId s) (hostId s) (status s) (createdAt s) (expiresAt s) (lastModified s)
            (receipt s) ps (selections s).
Definition set_selections (sels : list Selection) (s : Session) : Session :=
  mkSession (sessionId s) (hostId s) (status s) (createdAt s) (expiresAt s) (lastModified s)
            (receipt s) (participants s) sels.

(** What [JSON.parse (JSON.stringify session)] gives.  A number that is
    [NaN] or infinite is written as [null]; in a session that the modelled
    functions save only the value of a selection can be one (the receipt
    comes from storage, the times from [Date.now]). *)
Definition json_value (v : option number) : option number :=
  match v with
  | Some (Finite q) => Some (Finite q)
  | _ => None
  end.
Definition json_selection (s : Selection) : Selection :=
  mkSelection (participantId s) (itemId s) (splitType s) (json_value (value s))
              (selectedAt s).
Definition json_session (s : Session) : Session :=
  set_selections (map json_selection (selections s)) s.

(** A message posted by [broadcastSync]. *)
Record SyncMessage : Type := mkSyncMessage {
  sync_sessionId : jsstring;
  timestamp : Z
}.

Record World : Type := mkWorld {
  storage : gmap jsstring Session;
  ticks : nat;
  draws : nat;
  posted : list SyncMessage
}.

(** What the code does not decide: the readings of [Date.now] and of
    [Math.random], and whether [BroadcastChannel] is defined. *)
Record Host : Type := mkHost {
  clock : nat -> Z;
  random : nat -> Q;
  channel : bool
}.

Inductive outcome (A : Type) : Type :=
| Return (a : A)
| Throw (message : jsstring).
Arguments Return {A} a.
Arguments Throw {A} message.

Definition M (A : Type) : Type := World -> outcome A * World.

Definition ret {A} (a : A) : M A := fun w => (Return a, w).
Definition throw {A} (message : jsstring) : M A := fun w => (Throw message, w).
Definition bind {A B} (m : M A) (f : A -> M B) : M B :=
  fun w =>
    match m w with
    | (Return a, w') => f a w'
    | (Throw message, w') => (Throw message, w')
    end.

Notation "'let*' x ':=' m 'in' k" := (bind m (fun x => k))
  (at level 10, x name, m at level 100, k at level 200).
Notation "m ';;' k" := (bind m (fun _ => k))
  (at level 100, k at level 200, right associativity).

Section Engine.

Variable host : Host.

(** [now()] *)
Definition now : M Z :=
  fun w => (Return (clock host (ticks w)),
            mkWorld (storage w) (S (ticks w)) (draws w) (posted w)).

(** [Math.random()] *)
Definition Math_random : M Q :=
  fun w => (Return (random host (draws w)),
            mkWorld (storage w) (ticks w) (S (draws w)) (posted w)).

(** [s.charAt(i)] *)
Definition charAt (s : jsstring) (i : Z) : jsstring :=
  if (i <? 0)%Z then []
  else match s !! Z.to_nat i with
       | Some c => [c]
       | None => []
       end.

Definition room_chars : jsstring := str "ABCDEFGHJKLMNPQRSTUVWXYZ23456789".

(** [generateRoomCode()] *)
Definition generateRoomCode : M jsstring :=
  fold_left
    (fun code (_ : nat) =>
       let* code := code in
       let* r := Math_random in
       ret (code ++ charAt room_chars
                           (Qfloor (r * inject_Z (Z.of_nat (length room_chars))))))
    (seq 0 6) (ret []).

(** [getAllSessions()] and [saveAllSessions(sessions)] *)
Definition getAllSessions : M (gmap jsstring Session) :=
  fun w => (Return (storage w), w).
Definition saveAllSessions (sessions : gmap jsstring Session) : M bool :=
  fun w => (Return true,
            mkWorld (json_session <$> sessions) (ticks w) (draws w) (posted w)).

(** [getSession(code)]; [None] is [null]. *)
Definition getSession (code : jsstring) : M (option Session) :=
  let* sessions := getAllSessions in
  ret (sessions !! toUpperCase code).

(** [broadcastSync(sessionId)] *)
Definition broadcastSync (sid : jsstring) : M unit :=
  if channel host
  then let* t := now in
       fun w => (Return tt,
                 mkWorld (storage w) (ticks w) (draws w)
                         (posted w ++ [mkSyncMessage sid t]))
  else ret tt.

(** [saveSession(session)]: the session object is stored, then stamped;
    the stamp is part of what is written. *)
Definition saveSession (session : Session) : M Session :=
  let* sessions := getAllSessions in
  let* t := now in
  let session := set_lastModified t session in
  saveAllSessions (<[sessionId session := session]> sessions);;
  broadcastSync (sessionId session);;
  ret session.

(** The emoji of the host and of a participant who brings none, as
    [combined.js] has them (U+1F3E0 and U+1F464, two code units each). *)
Definition host_emoji : jsstring := [55356; 57312].
Definition default_emoji : jsstring := [55357; 56420].

(** [joinSession(code, user)] *)
Definition joinSession (code : jsstring) (user : User) : M Session :=
  let* found := getSession code in
  match found with
  | None => throw (str "Session not found")
  | Some session =>
      let* t := now in
      if (expiresAt session <? t)%Z then throw (str "Session has expired")
      else if str_eqb (status session) (str "closed") then throw (str "Session is closed")
      else
        match list_find (fun p => p_id p = u_id user) (participants session) with
        | Some (existingIndex, existing) =>
            let* seen := now in
            saveSession
              (set_participants
                 (<[existingIndex :=
                      mkParticipant (u_id user) (u_name user)
                                    (default (p_emoji existing) (u_emoji user))
                                    (joinedAt existing) seen]>
                    (participants session))
                 session)
        | None =>
            let* joined := now in
            let* seen := now in
            saveSession
              (set_participants
                 (participants session ++
                    [mkParticipant (u_id user) (u_name user)
                                   (match u_emoji user with
                                    | Some (c :: e) => c :: e
                                    | _ => default_emoji
                                    end)
                                   joined seen])
                 session)
        end
  end.

(** [leaveSession(sessionId, userId)] *)
Definition leaveSession (sid userId : jsstring) : M (option Session) :=
  let* found := getSession sid in
  match found with
  | None => ret None
  | Some session =>
      let session :=
        set_participants (filter (fun p => p_id p <> userId) (participants session)) session in
      let session :=
        set_selections (filter (fun s => participantId s <> userId) (selections session))
                       session in
      let session :=
        if str_eqb (hostId session) userId && (0 <? length (participants session))%nat
        then match participants session with
             | first :: _ => set_hostId (p_id first) session
             | [] => session
             end
        else if (length (participants session) =? 0)%nat
             then set_status (str "closed") session
             else session in
      let* session := saveSession session in
      ret (Some session)
  end.

Definition validTypes : list jsstring :=
  [str "solo"; str "even"; str "percentage"; str "units"].

(** [value === null || value < 0 || value > 100] and
    [value === null || value < 0] *)
Definition bad_percentage (v : option number) : bool :=
  match v with
  | None => true
  | Some x => num_ltb x (num 0) || num_gtb x (num 100)
  end.
Definition bad_units (v : option number) : bool :=
  match v with
  | None => true
  | Some x => num_ltb x (num 0)
  end.

(** [selectItem(sessionId, userId, itemId, splitType, value)] *)
Definition selectItem (sid userId item splitType : jsstring) (value : option number)
  : M Session :=
  let* found := getSession sid in
  match found with
  | None => throw (str "Session not found")
  | Some session =>
      if negb (existsb (fun p => str_eqb (p_id p) userId) (participants session))
      then throw (str "Participant not found in session")
      else if negb (existsb (fun i => str_eqb (item_id i) item) (items (receipt session)))
      then throw (str "Item not found in receipt")
      else if negb (existsb (str_eqb splitType) validTypes)
      then throw (str "Invalid split type: " ++ splitType)
      else if str_eqb splitType (str "percentage") && bad_percentage value
      then throw (str "Percentage must be between 0 and 100")
      else if str_eqb splitType (str "units") && bad_units value
      then throw (str "Units must be non-negative")
      else
        let session :=
          set_selections
            (filter (fun s => ~ (participantId s = userId /\ itemId s = item))
                    (selections session))
            session in
        let* session :=
          if str_eqb splitType (str "solo")
          then
            let session :=
              set_selections (filter (fun s => itemId s <> item) (selections session))
                             session in
            let* t := now in
            ret (set_selections
                   (selections session ++ [mkSelection userId item (str "solo") None t])
                   session)
          else
            let* t := now in
            ret (set_selections
                   (selections session ++ [mkSelection userId item splitType value t])
                   session) in
        let session :=
          if str_eqb (status session) (str "lobby")
          then set_status (str "selecting") session
          else session in
        saveSession session
  end.

(** [deselectItem(sessionId, userId, itemId)] *)
Definition deselectItem (sid userId item : jsstring) : M Session :=
  let* found := getSession sid in
  match found with
  | None => throw (str "Session not found")
  | Some session =>
      saveSession
        (set_selections
           (filter (fun s => ~ (participantId s = userId /\ itemId s = item))
                   (selections session))
           session)
  end.

Definition validStatuses : list jsstring :=
  [str "lobby"; str "selecting"; str "reviewing"; str "closed"].

(** [setSessionStatus(sessionId, newStatus)] *)
Definition setSessionStatus (sid newStatus : jsstring) : M Session :=
  if negb (existsb (str_eqb newStatus) validStatuses)
  then throw (str "Invalid status: " ++ newStatus)
  else
    let* found := getSession sid in
    match found with
    | None => throw (str "Session not found")
    | Some session => saveSession (set_status newStatus session)
    end.

Definition finalizeSelections (sid : jsstring) : M Session :=
  setSessionStatus sid (str "reviewing").
Definition closeSession (sid : jsstring) : M Session :=
  setSessionStatus sid (str "closed").

(** The three tests of [expireOldSessions] on one session. *)
Definition stale (currentTime : Z) (session : Session) : bool :=
  (expiresAt session <? currentTime)%Z
  || (str_eqb (status session) (str "closed")
      && (lastModified session <? currentTime - 60 * 60 * 1000)%Z)
  || ((length (participants session) =? 0)%nat
      && (lastModified session <? currentTime - 60 * 60 * 1000)%Z).

(** [expireOldSessions()]: the stale sessions are deleted one by one and
    counted; the object is written back when one was deleted. *)
Definition expireOldSessions : M nat :=
  let* sessions := getAllSessions in
  let* currentTime := now in
  let kept := filter (fun entry => stale currentTime (snd entry) = false) sessions in
  let removed := size (filter (fun entry => stale currentTime (snd entry) = true) sessions) in
  if (0 <? removed)%nat
  then saveAllSessions kept;; ret removed
  else ret removed.

(** [deleteSession(sessionId, userId)] *)
Definition deleteSession (sid userId : jsstring) : M bool :=
  let* found := getSession sid in
  match found with
  | None => ret false
  | Some session =>
      if negb (str_eqb (hostId session) userId)
      then throw (str "Only host can delete session")
      else
        let* sessions := getAllSessions in
        saveAllSessions (delete sid sessions);;
        ret true
  end.

(** [createSession(hostId)].  The function calls itself when the room
    code is taken; [fuel] bounds the number of attempts, and the result
    is [None] when they are used up. *)
Fixpoint createSession (fuel : nat) (host_id : jsstring) : M (option Session) :=
  match fuel with
  | O => ret None
  | S fuel' =>
      expireOldSessions;;
      let* sid := generateRoomCode in
      let* currentTime := now in
      let* existing := getSession sid in
      match existing with
      | Some _ => createSession fuel' host_id
      | None =>
          let session :=
            mkSession sid host_id (str "lobby") currentTime (currentTime + SESSION_TTL)
                      currentTime
                      (mkSessionReceipt None [] (num 0) (num 0) (num 0)) [] [] in
          let* session := saveSession session in
          joinSession sid (mkUser host_id (str "Host") (Some host_emoji));;
          ret (Some session)
      end
  end.

End Engine.

(** [getParticipantSelections(session, participantId)] and
    [getItemClaimants(session, itemId)] *)
Definition getParticipantSelections (session : Session) (pid : jsstring) : list Selection :=
  filter (fun s => participantId s = pid) (selections session).
Definition getItemClaimants (session : Session) (item : jsstring) : list jsstring :=
  map participantId (filter (fun s => itemId s = item) (selections session)).

(** *** The calculation engine

    The objects that [calculateTotals] indexes by participant id and by
    item id are finite maps.  An id is taken to differ from [__proto__],
    the one key that an object does not keep as a property of its own.
    Reading an id that is not there gives [undefined]: in a sum this is
    [NaN], and reading a property of it throws a [TypeError], for which
    the result is [None]. *)

Record ItemShare : Type := mkItemShare {
  share_itemId : jsstring;
  share_name : jsstring;
  share_price : number;
  share_splitType : jsstring;
  share_splitValue : option number;
  share_amount : number
}.

Record PersonDetails : Type := mkPersonDetails {
  d_name : jsstring;
  d_emoji : jsstring;
  d_items : list ItemShare
}.

Record ItemBreakdown : Type := mkItemBreakdown {
  b_itemId : jsstring;
  b_name : jsstring;
  b_total : number;
  b_shares : gmap jsstring number
}.

Record TotalsSummary : Type := mkTotalsSummary {
  foodSubtotal : number;
  summary_tax : number;
  summary_tip : number;
  summary_grandTotal : number;
  participantCount : nat;
  unclaimedCount : nat
}.

Record Totals : Type := mkTotals {
  t_items : gmap jsstring ItemBreakdown;
  subtotals : gmap jsstring number;
  taxShares : gmap jsstring number;
  tipShares : gmap jsstring number;
  totals : gmap jsstring number;
  unclaimed : list ReceiptItem;
  details : gmap jsstring PersonDetails;
  grandTotal : number;
  summary : TotalsSummary
}.

(** [Math.round(x * 100) / 100] *)
Definition round_cents (x : number) : number :=
  num_div (Math_round (num_mul x (num 100))) (num 100).

(** [selection.value || 0] *)
Definition value_or_0 (v : option number) : number :=
  match v with
  | Some x => num_or x (num 0)
  | None => num 0
  end.

(** The [switch] on the split type: the share before rounding. *)
Definition share_of (itemTotal : number) (itemSelections : list Selection)
  (selection : Selection) : number :=
  if str_eqb (splitType selection) (str "solo") then itemTotal
  else if str_eqb (splitType selection) (str "even")
  then num_div itemTotal (of_nat (length itemSelections))
  else if str_eqb (splitType selection) (str "percentage")
  then num_div (num_mul itemTotal (value_or_0 (value selection))) (num 100)
  else if str_eqb (splitType selection) (str "units")
  then
    let totalUnits :=
      fold_left (fun sum s => num_add sum (value_or_0 (value s)))
                (filter (fun s => splitType s = str "units") itemSelections) (num 0) in
    if num_gtb totalUnits (num 0)
    then num_mul (num_div (value_or_0 (value selection)) totalUnits) itemTotal
    else num 0
  else num 0.

(** What the two loops over the items and their selections work on. *)
Record Tally : Type := mkTally {
  tally_items : gmap jsstring ItemBreakdown;
  tally_subtotals : gmap jsstring number;
  tally_unclaimed : list ReceiptItem;
  tally_details : gmap jsstring PersonDetails;
  totalFoodSubtotal : number
}.

(** The body of the loop over the selections of an item. *)
Definition claim_step (item : ReceiptItem) (itemTotal : number)
  (itemSelections : list Selection) (acc : option (gmap jsstring number * Tally))
  (selection : Selection) : option (gmap jsstring number * Tally) :=
  match acc with
  | None => None
  | Some (shares, tally) =>
      let pid := participantId selection in
      let share := round_cents (share_of itemTotal itemSelections selection) in
      let shares := <[pid := share]> shares in
      let subtotal :=
        round_cents (num_add (default NaN (tally_subtotals tally !! pid)) share) in
      let subtotals := <[pid := subtotal]> (tally_subtotals tally) in
      match tally_details tally !! pid with
      | None => None
      | Some person =>
          let person :=
            mkPersonDetails (d_name person) (d_emoji person)
              (d_items person ++
                 [mkItemShare (item_id item) (item_name item) (item_price item)
                              (splitType selection) (value selection) share]) in
          Some (shares,
                mkTally (tally_items tally) subtotals (tally_unclaimed tally)
                        (<[pid := person]> (tally_details tally))
                        (totalFoodSubtotal tally))
      end
  end.

(** The body of the loop over the items of the receipt. *)
Definition item_step (session : Session) (acc : option Tally) (item : ReceiptItem)
  : option Tally :=
  match acc with
  | None => None
  | Some tally =>
      let itemSelections :=
        filter (fun s => itemId s = item_id item) (selections session) in
      if (length itemSelections =? 0)%nat
      then Some (mkTally (tally_items tally) (tally_subtotals tally)
                         (tally_unclaimed tally ++ [item]) (tally_details tally)
                         (totalFoodSubtotal tally))
      else
        let itemTotal := num_mul (item_price item) (num_or (item_quantity item) (num 1)) in
        let tally :=
          mkTally (tally_items tally) (tally_subtotals tally) (tally_unclaimed tally)
                  (tally_details tally) (num_add (totalFoodSubtotal tally) itemTotal) in
        match fold_left (claim_step item itemTotal itemSelections) itemSelections
                        (Some (∅, tally)) with
        | None => None
        | Some (shares, tally) =>
            Some (mkTally
                    (<[item_id item :=
                         mkItemBreakdown (item_id item) (item_name item) itemTotal shares]>
                       (tally_items tally))
                    (tally_subtotals tally) (tally_unclaimed tally) (tally_details tally)
                    (totalFoodSubtotal tally))
        end
  end.

(** The shares of tax and tip and the total of one participant. *)
Definition person_step (subtotals : gmap jsstring number) (food tax_ tip_ : number)
  (acc : gmap jsstring number * gmap jsstring number * gmap jsstring number)
  (p : Participant)
  : gmap jsstring number * gmap jsstring number * gmap jsstring number :=
  let '(taxes, tips, sums) := acc in
  let personSubtotal := num_or (default NaN (subtotals !! p_id p)) (num 0) in
  let proportion := num_div personSubtotal food in
  let taxShare := round_cents (num_mul tax_ proportion) in
  let tipShare := round_cents (num_mul tip_ proportion) in
  (<[p_id p := taxShare]> taxes,
   <[p_id p := tipShare]> tips,
   <[p_id p := round_cents (num_add (num_add personSubtotal taxShare) tipShare)]> sums).

(** [calculateTotals(session)] for a session object; [None] when a
    [TypeError] is thrown. *)
Definition calculateTotals (session : Session) : option Totals :=
  let zeros :=
    fold_left (fun m p => <[p_id p := num 0]> m) (participants session) ∅ in
  let persons :=
    fold_left (fun m p => <[p_id p := mkPersonDetails (p_name p) (p_emoji p) []]> m)
              (participants session) ∅ in
  match fold_left (item_step session) (items (receipt session))
                  (Some (mkTally ∅ zeros [] persons (num 0))) with
  | None => None
  | Some tally =>
      let tax_ := num_or (tax (receipt session)) (num 0) in
      let tip_ := num_or (tip (receipt session)) (num 0) in
      let '(taxes, tips, sums) :=
        if num_gtb (totalFoodSubtotal tally) (num 0)
        then fold_left (person_step (tally_subtotals tally) (totalFoodSubtotal tally)
                                    tax_ tip_)
                       (participants session) (zeros, zeros, zeros)
        else (zeros, zeros, zeros) in
      let grand :=
        round_cents (map_fold (fun _ t sum => num_add sum t) (num 0) sums) in
      Some (mkTotals (tally_items tally) (tally_subtotals tally) taxes tips sums
                     (tally_unclaimed tally) (tally_details tally) grand
                     (mkTotalsSummary (totalFoodSubtotal tally) tax_ tip_ grand
                                      (length (participants session))
                                      (length (tally_unclaimed tally))))
  end.

End Splitt.

(** * Properties *)

Close Scope N_scope.

(** ** The matcher *)

(** The iteration of a repetition, with the number of iterations still
    allowed made explicit. *)
Definition star_loop (greedy : bool) (r : regex) (k : mstate -> option mstate)
  : nat -> mstate -> option mstate :=
  fix loop (fuel : nat) (st0 : mstate) {struct fuel} : option mstate :=
    match fuel with
    | O => k st0
    | S fuel' =>
        let again :=
          run r st0 (fun st1 =>
            if (length (remaining st1) <? length (remaining st0))%nat
            then loop fuel' st1 else None) in
        if greedy then or_else again (k st0) else or_else (k st0) again
    end.

Lemma run_Star_loop greedy r st k :
  run (Star greedy r) st k = star_loop greedy r k (length (remaining st)) st.
Proof. reflexivity. Qed.







(** ** The classifier *)

Definition is_item (c : classified) : bool :=
  match c with ItemLine _ _ _ _ => true | _ => false end.

Definition item_price_positive (c : classified) : Prop :=
  match c with
  | ItemLine _ p _ _ => num_gtb p (num 0) = true
  | _ => True
  end.

Lemma dotted_rule_positive line c :
  dotted_rule line = Some c -> item_price_positive c.
Proof.
  unfold dotted_rule. destruct (exec Patterns.dottedItem line) as [m|]; [|discriminate].
  cbv zeta. destruct (num_gtb _ _) eqn:Hp; simpl; [|discriminate].
  destruct (isValidItemName _); [|discriminate].
  intros [= <-]. exact Hp.
Qed.

Lemma summary_rule_not_item line c :
  summary_rule line = Some c -> is_item c = false.
Proof.
  unfold summary_rule.
  repeat match goal with
         | |- context [exec ?p line] => destruct (exec p line)
         end; intros [= <-] || discriminate; reflexivity.
Qed.

Lemma item_rule_positive line c :
  item_rule line = Some c -> item_price_positive c.
Proof.
  unfold item_rule. destruct (exec Patterns.itemLine line) as [m|]; [|discriminate].
  cbv zeta. destruct (num_gtb _ _) eqn:Hp; simpl; [|discriminate].
  destruct (isValidItemName _); [|discriminate].
  intros [= <-]. exact Hp.
Qed.

Lemma price_rule_positive line c :
  price_rule line = Some c -> item_price_positive c.
Proof.
  unfold price_rule. destruct (exec Patterns.price line) as [m|]; [|discriminate].
  cbv zeta. destruct (num_gtb _ _) eqn:Hp; simpl; [|discriminate].
  destruct (isValidItemName _); simpl; [|discriminate].
  destruct (_ <? _)%nat; [|discriminate].
  destruct (_ && _); [discriminate|].
  intros [= <-]. exact Hp.
Qed.

Lemma categorizeLine_positive line : item_price_positive (categorizeLine line).
Proof.
  unfold categorizeLine.
  destruct (dotted_rule line) eqn:Hd; [eauto using dotted_rule_positive|].
  destruct (summary_rule line) eqn:Hs.
  { apply summary_rule_not_item in Hs. destruct c; try exact I. discriminate. }
  destruct (item_rule line) eqn:Hi; [eauto using item_rule_positive|].
  destruct (price_rule line) eqn:Hp; [eauto using price_rule_positive|].
  exact I.
Qed.

Definition positive_price (item : Item) : Prop := num_gtb (price item) (num 0) = true.

Lemma extractItems_positive lines : Forall positive_price (extractItems lines).
Proof.
  unfold extractItems.
  assert (H : forall acc, Forall positive_price acc ->
            Forall positive_price
              (fold_left
                 (fun items line =>
                    match categorizeLine line with
                    | ItemLine n p q c =>
                        items ++ [mkItem (cleanItemName n) p (num_or q (num 1)) line c]
                    | _ => items
                    end) lines acc)).
  { induction lines as [|line lines IH]; intros acc Hacc; simpl; [exact Hacc|].
    apply IH. pose proof (categorizeLine_positive line) as Hc.
    destruct (categorizeLine line); try exact Hacc.
    apply Forall_app. split; [exact Hacc|]. constructor; [exact Hc|constructor]. }
  apply H. constructor.
Qed.

(** C10: whatever the input text, every item of the receipt returned by
    [parseReceiptText] has a price strictly greater than 0. *)
Theorem parseReceiptText_items_positive (host_date : jsstring -> option jsstring)
  (text : jsstring) :
  Forall positive_price (r_items (parseReceiptText host_date text)).
Proof.
  unfold parseReceiptText. destruct text as [|c text]; simpl.
  - constructor.
  - apply extractItems_positive.
Qed.

(** In the smaller parser the summary rules come first: a line that
    matches a summary pattern is never classified as an item there. *)
Lemma Lite_summary_first line c :
  Lite.summary_rule line = Some c ->
  Lite.categorizeLine line = c /\ is_item c = false.
Proof.
  intros Hs. unfold Lite.categorizeLine. rewrite Hs. split; [reflexivity|].
  revert Hs. unfold Lite.summary_rule.
  repeat match goal with
         | |- context [exec ?p line] => destruct (exec p line)
         end; intros [= <-] || discriminate; reflexivity.
Qed.

Example Lite_total_line :
  Lite.categorizeLine (str "Total:   $50.66") = TotalLine (dec 2533 50).
Proof. vm_compute. reflexivity. Qed.

(** C1: in [combined.js] the summary rules are not the first to be tried,
    and a summary line can come out as an item.  The line [Total:   $50.66]
    (three blanks after the colon) matches the total pattern and the
    fallback price pattern, so it is a summary line with a trailing amount;
    the dotted-item rule, which runs first, takes [Total:] for a name, the
    name check that keeps [total] out lets [Total:] pass, and the line is
    returned as an item named [Total:] with confidence 0.92.  The
    classifier of [part_001] returns the total 50.66 for the same line. *)
Theorem categorizeLine_summary_line_taken_as_item :
  let line := str "Total:   $50.66" in
  summary_rule line = Some (TotalLine (dec 2533 50)) /\
  is_Some (exec Patterns.price line) /\
  isValidItemName (str "total") = false /\
  isValidItemName (str "Total:") = true /\
  categorizeLine line = ItemLine (str "Total:") (dec 2533 50) (num 1) (dec 92 100) /\
  Lite.categorizeLine line = TotalLine (dec 2533 50).
Proof.
  cbv zeta. repeat split; try (vm_compute; reflexivity).
  vm_compute. eexists. reflexivity.
Qed.

(** When the dotted-item rule does not fire, the summary rules decide, in
    the order Tax, Tip, Total, Subtotal, before the standard item rule and
    the fallback price rule: a line that matches a summary pattern is then
    classified as that summary kind with the parsed amount, never as an
    item, whatever the two later rules would make of it. *)
Lemma categorizeLine_summary_priority (line : jsstring) :
  dotted_rule line = None ->
  (forall m, exec Patterns.tax line = Some m ->
     categorizeLine line = TaxLine (parsePrice (capture_text 1 m))) /\
  (forall m, exec Patterns.tax line = None -> exec Patterns.tip line = Some m ->
     categorizeLine line = TipLine (parsePrice (capture_text 1 m))) /\
  (forall m, exec Patterns.tax line = None -> exec Patterns.tip line = None ->
     exec Patterns.total line = Some m ->
     categorizeLine line = TotalLine (parsePrice (capture_text 1 m))) /\
  (forall m, exec Patterns.tax line = None -> exec Patterns.tip line = None ->
     exec Patterns.total line = None -> exec Patterns.subtotal line = Some m ->
     categorizeLine line = SubtotalLine (parsePrice (capture_text 1 m))) /\
  (forall c, summary_rule line = Some c -> categorizeLine line = c /\ is_item c = false).
Proof.
  intros Hdotted.
  assert (Hfirst : forall c, summary_rule line = Some c ->
                     categorizeLine line = c /\ is_item c = false).
  { intros c Hs. unfold categorizeLine. rewrite Hdotted, Hs.
    split; [reflexivity|]. eapply summary_rule_not_item, Hs. }
  split; [|split; [|split; [|split]]].
  - intros m Htax. apply Hfirst. unfold summary_rule. rewrite Htax. reflexivity.
  - intros m Htax Htip. apply Hfirst. unfold summary_rule. rewrite Htax, Htip. reflexivity.
  - intros m Htax Htip Htotal. apply Hfirst. unfold summary_rule.
    rewrite Htax, Htip, Htotal. reflexivity.
  - intros m Htax Htip Htotal Hsub. apply Hfirst. unfold summary_rule.
    rewrite Htax, Htip, Htotal, Hsub. reflexivity.
  - exact Hfirst.
Qed.

(** On [Total: $50.66] the standard item rule would give an item named
    [Total:]; the total rule, which comes before it, decides. *)
Lemma categorizeLine_summary_priority_witness :
  let line := str "Total: $50.66" in
  dotted_rule line = None /\
  item_rule line = Some (ItemLine (str "Total:") (dec 2533 50) (num 1) (dec 85 100)) /\
  categorizeLine line = TotalLine (dec 2533 50).
Proof.
  cbv zeta.
  assert (Hdotted : dotted_rule (str "Total: $50.66") = None) by (vm_compute; reflexivity).
  split; [exact Hdotted|]. split; [vm_compute; reflexivity|].
  destruct (exec Patterns.total (str "Total: $50.66")) as [m|] eqn:Hm;
    [|vm_compute in Hm; discriminate].
  rewrite (proj1 (proj2 (proj2 (categorizeLine_summary_priority (str "Total: $50.66") Hdotted)))
             m ltac:(vm_compute; reflexivity) ltac:(vm_compute; reflexivity) Hm).
  vm_compute in Hm. injection Hm as <-. vm_compute. reflexivity.
Defined.

(** ** The summary aggregator *)

Definition amount_tax (c : classified) : option number :=
  match c with TaxLine a => Some a | _ => None end.
Definition amount_tip (c : classified) : option number :=
  match c with TipLine a => Some a | _ => None end.
Definition amount_total (c : classified) : option number :=
  match c with TotalLine a => Some a | _ => None end.
Definition amount_subtotal (c : classified) : option number :=
  match c with SubtotalLine a => Some a | _ => None end.

(** The amount of the last line of the given kind, 0 when there is none. *)
Definition last_amount (kind : classified -> option number) (lines : list jsstring) : number :=
  default (num 0) (last (omap kind (map categorizeLine lines))).

Definition last_or (kind : classified -> option number) (lines : list jsstring)
  (start : number) : number :=
  default start (last (omap kind (map categorizeLine lines))).

Lemma default_last_cons {A} (a start : A) (l : list A) :
  default start (last (a :: l)) = default a (last l).
Proof.
  rewrite last_cons. destruct (last l); reflexivity.
Qed.

Lemma last_or_cons kind line lines start :
  last_or kind (line :: lines) start =
  last_or kind lines (default start (kind (categorizeLine line))).
Proof.
  unfold last_or. cbn [map omap list_omap].
  destruct (kind (categorizeLine line)) as [a|]; [|reflexivity].
  apply default_last_cons.
Qed.

Lemma fold_record_line lines s :
  fold_left record_line lines s =
  mkSummary (last_or amount_tax lines (tax s)) (last_or amount_tip lines (tip s))
            (last_or amount_total lines (total s))
            (last_or amount_subtotal lines (subtotal s)).
Proof.
  revert s. induction lines as [|line lines IH]; intros s.
  - destruct s; reflexivity.
  - simpl fold_left. rewrite IH, !last_or_cons. unfold record_line.
    destruct (categorizeLine line); reflexivity.
Qed.

(** [extractSummary] of [combined.js] keeps, for each summary kind, the
    amount of the last line classified as that kind (0 when there is none);
    when the folded subtotal is 0 and the folded total and tax are positive,
    the subtotal becomes total - tax - tip, and otherwise the folded values
    are returned as they are. *)
Lemma extractSummary_last_wins (lines : list jsstring) :
  let folded :=
    mkSummary (last_amount amount_tax lines) (last_amount amount_tip lines)
              (last_amount amount_total lines) (last_amount amount_subtotal lines) in
  extractSummary lines =
    if num_eqb (subtotal folded) (num 0) && num_gtb (total folded) (num 0)
       && num_gtb (tax folded) (num 0)
    then mkSummary (tax folded) (tip folded) (total folded)
                   (num_sub (num_sub (total folded) (tax folded)) (tip folded))
    else folded.
Proof.
  cbv zeta. unfold extractSummary. rewrite fold_record_line. reflexivity.
Qed.

(** The inferred subtotal may be negative: a total of 5 with a tax of 6. *)
Example extractSummary_negative_subtotal :
  extractSummary [str "Total: 5.00"; str "Tax: 6.00"; str "Tax: 7.00"; str "Tip: 1.00"]
  = mkSummary (num 7) (num 1) (num 5) (dec (-3) 1).
Proof. vm_compute. reflexivity. Qed.

(** C3: [extractSummary] of [part_001] infers no subtotal: it has the loop
    that keeps the last amount of each kind and nothing after it.  On the
    lines [Total: 10.00] and [Tax: 1.00] the folded subtotal is 0 and the
    total and the tax are positive, so the subtotal is to be
    10 - 1 - 0 = 9; [extractSummary] of [combined.js] returns that, the one
    of [part_001] returns the subtotal 0. *)
Theorem Lite_extractSummary_no_inference :
  let lines := [str "Total: 10.00"; str "Tax: 1.00"] in
  Lite.extractSummary lines = mkSummary (num 1) (num 0) (num 10) (num 0) /\
  extractSummary lines = mkSummary (num 1) (num 0) (num 10) (num 9).
Proof. cbv zeta. split; vm_compute; reflexivity. Qed.

(** What [extractSummary] of [part_001] does return: for each kind the
    amount of the last line of that kind, 0 when there is none. *)
Definition Lite_last_or (kind : classified -> option number) (lines : list jsstring)
  (start : number) : number :=
  default start (last (omap kind (map Lite.categorizeLine lines))).

Lemma Lite_last_or_cons kind line lines start :
  Lite_last_or kind (line :: lines) start =
  Lite_last_or kind lines (default start (kind (Lite.categorizeLine line))).
Proof.
  unfold Lite_last_or. cbn [map omap list_omap].
  destruct (kind (Lite.categorizeLine line)) as [a|]; [|reflexivity].
  apply default_last_cons.
Qed.

Lemma Lite_fold_record_line lines s :
  fold_left Lite.record_line lines s =
  mkSummary (Lite_last_or amount_tax lines (tax s)) (Lite_last_or amount_tip lines (tip s))
            (Lite_last_or amount_total lines (total s))
            (Lite_last_or amount_subtotal lines (subtotal s)).
Proof.
  revert s. induction lines as [|line lines IH]; intros s.
  - destruct s; reflexivity.
  - simpl fold_left. rewrite IH, !Lite_last_or_cons. unfold Lite.record_line.
    destruct (Lite.categorizeLine line); reflexivity.
Qed.

Lemma Lite_extractSummary_last_wins lines :
  Lite.extractSummary lines =
  mkSummary (Lite_last_or amount_tax lines (num 0)) (Lite_last_or amount_tip lines (num 0))
            (Lite_last_or amount_total lines (num 0))
            (Lite_last_or amount_subtotal lines (num 0)).
Proof. unfold Lite.extractSummary. apply Lite_fold_record_line. Qed.

(** ** Edit distance *)

(** The recurrence that the table [dp] tabulates: [lev_cell a b i j] is the
    content of [dp[i][j]]. *)
Fixpoint lev_cell (a b : jsstring) (i : nat) {struct i} : nat -> nat :=
  match i with
  | O => fun j => j
  | S i' =>
      fix row (j : nat) : nat :=
        match j with
        | O => S i'
        | S j' =>
            if bool_decide (a !! i' = b !! j') then lev_cell a b i' j'
            else min3 (lev_cell a b i' (S j') + 1) (row j' + 1) (lev_cell a b i' j' + 1)
        end
  end.

Lemma lev_cell_0_r a b i : lev_cell a b i 0 = i.
Proof. destruct i; reflexivity. Qed.

Lemma lev_cell_S a b i j :
  lev_cell a b (S i) (S j) =
  if bool_decide (a !! i = b !! j) then lev_cell a b i j
  else min3 (lev_cell a b i (S j) + 1) (lev_cell a b (S i) j + 1) (lev_cell a b i j + 1).
Proof. reflexivity. Qed.

Lemma lev_cell_sym a b i j : lev_cell a b i j = lev_cell b a j i.
Proof.
  revert j. induction i as [|i IHi]; intros j.
  - rewrite lev_cell_0_r. reflexivity.
  - induction j as [|j IHj].
    + reflexivity.
    + rewrite !lev_cell_S, IHj, !IHi.
      rewrite (bool_decide_ext (a !! i = b !! j) (b !! j = a !! i)) by (split; congruence).
      destruct (bool_decide _); [reflexivity|]. unfold min3. lia.
Qed.

Lemma lev_cell_le_max a b i j : lev_cell a b i j <= Nat.max i j.
Proof.
  revert j. induction i as [|i IHi]; intros j.
  - simpl. lia.
  - induction j as [|j IHj].
    + simpl. lia.
    + rewrite lev_cell_S. pose proof (IHi j). pose proof (IHi (S j)).
      destruct (bool_decide _); unfold min3; lia.
Qed.

Section Table.

Variables (str1 str2 : jsstring).
Let m := length str1.
Let n := length str2.

(** The table keeps [m + 1] rows of [n + 1] cells. *)
Definition shaped (dp : list (list nat)) : Prop :=
  length dp = S m /\ forall i row, dp !! i = Some row -> length row = S n.

Lemma dp_set_shaped dp i j v : shaped dp -> shaped (dp_set dp i j v).
Proof.
  intros [Hlen Hrows]. split.
  - unfold dp_set. rewrite length_alter. exact Hlen.
  - intros i' row. unfold dp_set. destruct (decide (i = i')) as [<-|Hne].
    + rewrite list_lookup_alter_eq. destruct (dp !! i) as [r|] eqn:E; [|discriminate].
      intros [= <-]. rewrite length_insert. eauto.
    + rewrite list_lookup_alter_ne by exact Hne. eauto.
Qed.

Lemma dp_get_set_eq dp i j v :
  shaped dp -> i <= m -> j <= n -> dp_get (dp_set dp i j v) i j = v.
Proof.
  intros [Hlen Hrows] Hi Hj. unfold dp_get, dp_set.
  rewrite list_lookup_alter_eq.
  destruct (lookup_lt_is_Some_2 dp i) as [row Hrow]; [lia|].
  rewrite Hrow. simpl. rewrite list_lookup_insert_eq; [reflexivity|].
  rewrite (Hrows _ _ Hrow). lia.
Qed.

Lemma dp_get_set_ne dp i j v i' j' :
  i <> i' \/ j <> j' -> dp_get (dp_set dp i j v) i' j' = dp_get dp i' j'.
Proof.
  intros Hne. unfold dp_get, dp_set. destruct (decide (i = i')) as [<-|Hi].
  - rewrite list_lookup_alter_eq. destruct (dp !! i) as [row|]; [|reflexivity].
    simpl. rewrite list_lookup_insert_ne; [reflexivity|]. destruct Hne; congruence.
  - rewrite list_lookup_alter_ne by exact Hi. reflexivity.
Qed.

(** A loop over [seq start len] maintains an invariant indexed by the next
    value of the loop variable. *)
Lemma fold_seq_invariant {A} (f : A -> nat -> A) (P : nat -> A -> Prop) len :
  forall start x,
    P start x ->
    (forall k y, start <= k < start + len -> P k y -> P (S k) (f y k)) ->
    P (start + len) (fold_left f (seq start len) x).
Proof.
  induction len as [|len IH]; intros start x Hx Hstep; simpl.
  - rewrite Nat.add_0_r. exact Hx.
  - replace (start + S len) with (S start + len) by lia. apply IH.
    + apply Hstep; [lia|exact Hx].
    + intros k y Hk. apply Hstep. lia.
Qed.

(** What is known of the table when row [i] is being filled and column
    [j] is next: the first row and column, the rows above, and the cells
    of row [i] to the left. *)
Definition filled (i j : nat) (dp : list (list nat)) : Prop :=
  shaped dp /\
  forall i' j', i' <= m -> j' <= n ->
    i' < i \/ j' = 0 \/ (i' = i /\ j' < j) ->
    dp_get dp i' j' = lev_cell str1 str2 i' j'.

Lemma fill_cell_filled i j dp :
  1 <= i <= m -> 1 <= j <= n ->
  filled i j dp -> filled i (S j) (fill_cell str1 str2 i dp j).
Proof.
  intros Hi Hj [Hshape Hcells].
  destruct i as [|i0]; [lia|]. destruct j as [|j0]; [lia|].
  assert (Hnew : forall v, v = lev_cell str1 str2 (S i0) (S j0) ->
            filled (S i0) (S (S j0)) (dp_set dp (S i0) (S j0) v)).
  { intros v ->. split; [apply dp_set_shaped, Hshape|].
    intros i' j' Hi' Hj' Hwhere.
    destruct (decide (S i0 = i' /\ S j0 = j')) as [[<- <-]|Hother].
    - apply dp_get_set_eq; [exact Hshape|lia|lia].
    - rewrite dp_get_set_ne by lia. apply Hcells; lia. }
  unfold fill_cell. simpl. rewrite !Nat.sub_0_r.
  rewrite (Hcells i0 j0), (Hcells i0 (S j0)), (Hcells (S i0) j0) by lia.
  destruct (bool_decide (str1 !! i0 = str2 !! j0)) eqn:E;
    apply Hnew; rewrite lev_cell_S, E; reflexivity.
Qed.

Lemma fill_row_filled i dp :
  1 <= i <= m -> filled i 1 dp ->
  filled (S i) 1 (fold_left (fill_cell str1 str2 i) (seq 1 n) dp).
Proof.
  intros Hi Hdp.
  pose proof (fold_seq_invariant (fill_cell str1 str2 i) (filled i) n 1 dp Hdp) as H.
  destruct H as [Hshape Hcells].
  { intros k y Hk Hy. apply fill_cell_filled; [lia|lia|exact Hy]. }
  split; [exact Hshape|]. intros i' j' Hi' Hj' Hwhere. apply Hcells; lia.
Qed.

Lemma init_filled :
  let dp := replicate (m + 1) (replicate (n + 1) 0) in
  let dp := fold_left (fun dp i => dp_set dp i 0 i) (seq 0 (m + 1)) dp in
  let dp := fold_left (fun dp j => dp_set dp 0 j j) (seq 0 (n + 1)) dp in
  filled 1 1 dp.
Proof.
  cbv zeta.
  set (dp0 := replicate (m + 1) (replicate (n + 1) 0)).
  assert (H0 : shaped dp0).
  { split; [unfold dp0; rewrite length_replicate; lia|].
    intros i row Hrow. apply lookup_replicate in Hrow as [-> _].
    rewrite length_replicate. lia. }
  set (dp1 := fold_left (fun dp i => dp_set dp i 0 i) (seq 0 (m + 1)) dp0).
  assert (H1 : shaped dp1 /\ forall i, i < 0 + (m + 1) -> dp_get dp1 i 0 = i).
  { apply (fold_seq_invariant (fun dp i => dp_set dp i 0 i)
             (fun k dp => shaped dp /\ forall i, i < k -> dp_get dp i 0 = i)).
    - split; [exact H0|]. intros i Hi. lia.
    - intros k y Hk [Hy Hcol]. split; [apply dp_set_shaped, Hy|].
      intros i Hi. destruct (decide (k = i)) as [<-|Hne].
      + apply dp_get_set_eq; [exact Hy|lia|lia].
      + rewrite dp_get_set_ne by lia. apply Hcol. lia. }
  destruct H1 as [H1 Hcol].
  pose proof (fold_seq_invariant (fun dp j => dp_set dp 0 j j)
             (fun k dp => shaped dp /\ (forall i, i <= m -> dp_get dp i 0 = i)
                          /\ forall j, j < k -> dp_get dp 0 j = j) (n + 1) 0 dp1) as H2.
  destruct H2 as (H2 & Hcol2 & Hrow2).
  { split; [exact H1|]. split; [intros i Hi; apply Hcol; lia|]. intros j Hj. lia. }
  { intros k y Hk (Hy & Hc & Hr). split; [apply dp_set_shaped, Hy|]. split.
    - intros i Hi. destruct (decide (0 = i /\ k = 0)) as [[<- ->]|Hne].
      + apply dp_get_set_eq; [exact Hy|lia|lia].
      + rewrite dp_get_set_ne by lia. apply Hc, Hi.
    - intros j Hj. destruct (decide (k = j)) as [<-|Hne].
      + apply dp_get_set_eq; [exact Hy|lia|lia].
      + rewrite dp_get_set_ne by lia. apply Hr. lia. }
  split; [exact H2|]. intros i' j' Hi' Hj' [Hw|[Hw|Hw]].
  - assert (i' = 0) as -> by lia. rewrite Hrow2 by lia. reflexivity.
  - subst j'. rewrite Hcol2 by lia. rewrite lev_cell_0_r. reflexivity.
  - assert (j' = 0) as -> by lia. rewrite Hcol2 by lia.
    rewrite lev_cell_0_r. reflexivity.
Qed.

(** The table-filling loops of [levenshteinDistance] compute the
    recurrence at the two lengths. *)
Lemma levenshteinDistance_cell :
  levenshteinDistance str1 str2 = lev_cell str1 str2 m n.
Proof.
  unfold levenshteinDistance. fold m n. cbv zeta.
  pose proof init_filled as Hinit. cbv zeta in Hinit.
  pose proof (fold_seq_invariant
                (fun dp i => fold_left (fill_cell str1 str2 i) (seq 1 n) dp)
                (fun i dp => filled i 1 dp) m 1 _ Hinit) as H.
  destruct H as [_ Hcells].
  { intros k y Hk Hy. apply fill_row_filled; [lia|exact Hy]. }
  apply Hcells; lia.
Qed.

End Table.

Lemma levenshteinDistance_sym a b : levenshteinDistance a b = levenshteinDistance b a.
Proof. rewrite !levenshteinDistance_cell. apply lev_cell_sym. Qed.

Lemma levenshteinDistance_le_max a b :
  levenshteinDistance a b <= Nat.max (length a) (length b).
Proof. rewrite levenshteinDistance_cell. apply lev_cell_le_max. Qed.

(** ** Similarity *)

Lemma Qzero_bool_inject_Z z : Qzero_bool (inject_Z z) = (z =? 0)%Z.
Proof.
  unfold Qzero_bool, Qeq_bool, inject_Z. simpl. rewrite Z.mul_1_r. reflexivity.
Qed.

Lemma ratio_bounds (d k : nat) :
  d <= k -> 0 < k ->
  (0 <= 1 + - (inject_Z (Z.of_nat d) / inject_Z (Z.of_nat k)) <= 1)%Q.
Proof.
  intros Hd Hk.
  assert (H : (0 <= inject_Z (Z.of_nat d) / inject_Z (Z.of_nat k) <= 1)%Q).
  { assert (Hpos : (0 < inject_Z (Z.of_nat k))%Q).
    { rewrite <- (Zlt_Qlt 0). lia. }
    split.
    - apply Qle_shift_div_l; [exact Hpos|]. rewrite Qmult_0_l.
      rewrite <- (Zle_Qle 0). lia.
    - apply Qle_shift_div_r; [exact Hpos|]. rewrite Qmult_1_l.
      rewrite <- Zle_Qle. lia. }
  revert H. generalize (inject_Z (Z.of_nat d) / inject_Z (Z.of_nat k))%Q.
  intros x [H0 H1]. split; lra.
Qed.

Lemma str_eqb_sym a b : str_eqb a b = str_eqb b a.
Proof. unfold str_eqb. apply bool_decide_ext. split; congruence. Qed.

(** C9: [calculateSimilarity] is symmetric, gives 1 on equal arguments, and
    always returns a finite value between 0 and 1. *)
Theorem calculateSimilarity_symmetric_reflexive_bounded :
  (forall a b, calculateSimilarity a b = calculateSimilarity b a) /\
  (forall a, calculateSimilarity a a = num 1) /\
  (forall a b, exists q, calculateSimilarity a b = Finite q /\ (0 <= q <= 1)%Q).
Proof.
  split; [|split].
  - intros a b. unfold calculateSimilarity. cbv zeta.
    rewrite (str_eqb_sym (trim (toLowerCase b))).
    rewrite (Nat.max_comm (length (trim (toLowerCase b)))).
    rewrite (levenshteinDistance_sym (trim (toLowerCase b))). reflexivity.
  - intros a. unfold calculateSimilarity, str_eqb. cbv zeta.
    rewrite bool_decide_eq_true_2 by reflexivity. reflexivity.
  - intros a b. unfold calculateSimilarity. cbv zeta.
    set (s1 := trim (toLowerCase a)). set (s2 := trim (toLowerCase b)).
    destruct (str_eqb s1 s2).
    { exists 1%Q. split; [reflexivity|]. split; lra. }
    destruct (Nat.max (length s1) (length s2) =? 0) eqn:Hmax.
    { exists 1%Q. split; [reflexivity|]. split; lra. }
    apply Nat.eqb_neq in Hmax.
    pose proof (levenshteinDistance_le_max s1 s2) as Hle.
    unfold num_sub, num_div, num_neg, num_add, of_nat, num.
    rewrite Qzero_bool_inject_Z.
    destruct (Z.eqb_spec (Z.of_nat (Nat.max (length s1) (length s2))) 0) as [E|_]; [lia|].
    eexists. split; [reflexivity|].
    apply ratio_bounds; lia.
Qed.

(** The distance of the pair of the end-to-end scenario of the
    deduplicator: one deletion over five characters. *)
Example calculateSimilarity_wings :
  calculateSimilarity (str "Wings") (str "Wing") = dec 4 5.
Proof. vm_compute. reflexivity. Qed.

(** ** Price normalisation *)

(** A property of code units below a bound can be checked by running it on
    each of them. *)
Lemma check_below (bound : nat) (P : N -> bool) :
  forallb (fun k => P (N.of_nat k)) (seq 0 bound) = true ->
  forall c, (c < N.of_nat bound)%N -> P c = true.
Proof.
  intros Hall c Hc. rewrite forallb_forall in Hall.
  rewrite <- (N2Nat.id c). apply Hall. apply in_seq. lia.
Qed.

Definition digits (s : jsstring) : Prop := Forall (fun c => is_digit c = true) s.
Definition plain_char (c : N) : bool := is_digit c || is_separator c.
(** A token made of digits and the separators [.] and [,] only. *)
Definition plain (s : jsstring) : Prop := Forall (fun c => plain_char c = true) s.

Lemma is_digit_bound c : is_digit c = true -> (48 <= c <= 57)%N.
Proof.
  unfold is_digit, in_range. rewrite andb_true_iff, !N.leb_le. tauto.
Qed.

Lemma plain_char_below c : plain_char c = true -> (c < 58)%N.
Proof.
  unfold plain_char, is_separator, ch. simpl.
  rewrite !orb_true_iff, !N.eqb_eq. intros [H|[H|[H|H]]]; try discriminate; try lia.
  apply is_digit_bound in H. lia.
Qed.

Lemma plain_char_kept c :
  plain_char c = true -> negb (cls [currency_sym; is_space] c) = true.
Proof.
  intros H. pose proof (plain_char_below c H) as Hc. revert H.
  apply (check_below 58 (fun c => implb (plain_char c) (negb (cls [currency_sym; is_space] c))))
    in Hc; [|vm_compute; reflexivity].
  destruct (plain_char c); [intros _; exact Hc|discriminate].
Qed.

Lemma strip_currency_plain s : plain s -> strip_currency s = s.
Proof.
  unfold strip_currency. induction 1 as [|c s Hc Hs IH]; [reflexivity|].
  rewrite filter_cons_True by (apply plain_char_kept, Hc). rewrite IH. reflexivity.
Qed.

(** Every part of a split is free of separators and made of code units of
    the string that was split. *)
Lemma split_on_parts (p : N -> bool) (P : N -> Prop) s :
  Forall P s -> Forall (Forall (fun c => P c /\ p c = false)) (split_on p s).
Proof.
  induction 1 as [|c s Hc Hs IH]; simpl.
  - repeat constructor.
  - destruct (p c) eqn:Hp.
    + constructor; [constructor|exact IH].
    + destruct (split_on p s) as [|part parts]; [repeat constructor; assumption|].
      inversion IH; subst. constructor; [|assumption].
      constructor; [split; assumption|assumption].
Qed.

Lemma split_on_nonempty p s : split_on p s <> [].
Proof.
  destruct s as [|c s]; simpl; [discriminate|].
  destruct (p c); [discriminate|]. destruct (split_on p s); discriminate.
Qed.

Lemma plain_parts_digits s :
  plain s -> Forall digits (split_on is_separator s).
Proof.
  intros Hs. eapply Forall_impl; [apply (split_on_parts is_separator _ s Hs)|].
  intros part Hpart. eapply Forall_impl; [exact Hpart|].
  intros c [Hc Hsep]. unfold plain_char in Hc. rewrite Hsep, orb_false_r in Hc. exact Hc.
Qed.

Lemma digits_app a b : digits a -> digits b -> digits (a ++ b).
Proof. apply Forall_app_2. Qed.

Lemma digits_concat parts : Forall digits parts -> digits (concat parts).
Proof.
  induction 1 as [|part parts Hp Hps IH]; simpl; [constructor|].
  apply digits_app; assumption.
Qed.

(** *** Reading a plain decimal numeral *)

Lemma span_digits ds rest :
  digits ds -> match rest with c :: _ => is_digit c = false | [] => True end ->
  span is_digit (ds ++ rest) = (ds, rest).
Proof.
  intros Hds Hrest. induction Hds as [|c ds Hc Hds IH]; simpl.
  - destruct rest as [|c rest]; [reflexivity|]. simpl. rewrite Hrest. reflexivity.
  - rewrite Hc, IH. reflexivity.
Qed.

(** A code unit that may begin a plain numeral: a digit or the dot. *)
Definition numeral_start (s : jsstring) : Prop :=
  match s with
  | c :: _ => is_digit c = true \/ c = 46%N
  | [] => True
  end.

Lemma read_sign_other c s :
  c <> 43%N -> c <> 45%N -> read_sign (c :: s) = (false, c :: s).
Proof.
  intros Hplus Hminus. unfold read_sign. destruct c as [|p]; [reflexivity|].
  repeat (match goal with q : positive |- _ => destruct q end;
          try reflexivity; try lia).
Qed.

Lemma numeral_start_prefix s :
  numeral_start s ->
  trimStart s = s /\ read_sign s = (false, s) /\ starts_with (str "Infinity") s = false.
Proof.
  destruct s as [|c s]; [intros _; repeat split; reflexivity|].
  cbn [numeral_start]. intros Hc.
  assert (H : andb (negb (is_space c))
                (andb (negb (N.eqb c 43)) (andb (negb (N.eqb c 45)) (negb (N.eqb 73 c)))) = true).
  { destruct Hc as [Hc| ->]; [|reflexivity].
    assert (Hb : (c < 58)%N) by (apply is_digit_bound in Hc; lia).
    pose proof (check_below 58
      (fun c => orb (negb (is_digit c))
                  (andb (negb (is_space c))
                     (andb (negb (N.eqb c 43)) (andb (negb (N.eqb c 45)) (negb (N.eqb 73 c))))))
      ltac:(vm_compute; reflexivity) c Hb) as Hchk.
    cbv beta in Hchk. rewrite Hc in Hchk. exact Hchk. }
  rewrite !andb_true_iff, !negb_true_iff in H. destruct H as (Hsp & Hplus & Hminus & HI).
  apply N.eqb_neq in Hplus, Hminus.
  cbn [trimStart]. rewrite Hsp. repeat split.
  - apply read_sign_other; assumption.
  - change (str "Infinity") with (73%N :: str "nfinity").
    cbn [starts_with]. rewrite HI. reflexivity.
Qed.

Lemma digits_numeral_start ip rest :
  digits ip -> numeral_start rest -> numeral_start (ip ++ rest).
Proof.
  intros Hip Hrest. destruct Hip as [|c ip Hc _]; [exact Hrest|]. left. exact Hc.
Qed.

(** [ip.fp], both parts digits: the value is the numeral [ip fp] scaled down
    by the number of fraction digits; without any digit it is NaN. *)
Lemma parseFloat_decimal ip fp :
  digits ip -> digits fp ->
  parseFloat (ip ++ dot ++ fp) =
  match ip ++ fp with
  | [] => NaN
  | ds => Finite (scale10 (digits_value ds) (0 - Z.of_nat (length fp)))
  end.
Proof.
  intros Hip Hfp. unfold parseFloat.
  assert (Hstart : numeral_start (ip ++ dot ++ fp)).
  { apply digits_numeral_start; [exact Hip|]. right. reflexivity. }
  destruct (numeral_start_prefix _ Hstart) as (-> & -> & ->).
  rewrite (span_digits ip (dot ++ fp) Hip) by reflexivity.
  change (dot ++ fp) with (46%N :: fp).
  rewrite <- (app_nil_r fp) at 1. rewrite (span_digits fp [] Hfp I).
  reflexivity.
Qed.

(** A numeral without separator. *)
Lemma parseFloat_integer ds :
  digits ds ->
  parseFloat ds =
  match ds with
  | [] => NaN
  | _ => Finite (scale10 (digits_value ds) 0)
  end.
Proof.
  intros Hds. unfold parseFloat.
  assert (Hstart : numeral_start ds).
  { rewrite <- (app_nil_r ds). apply digits_numeral_start; [exact Hds|exact I]. }
  destruct (numeral_start_prefix _ Hstart) as (-> & -> & ->).
  rewrite <- (app_nil_r ds) at 1. rewrite (span_digits ds [] Hds I).
  rewrite app_nil_r. destruct ds; reflexivity.
Qed.

(** *** The value of a numeral *)

Lemma digits_value_from ds acc :
  fold_left (fun acc c => (acc * 10 + digit_value c)%Z) ds acc =
  (acc * 10 ^ Z.of_nat (length ds) + digits_value ds)%Z.
Proof.
  unfold digits_value. revert acc. induction ds as [|c ds IH]; intros acc.
  - simpl. lia.
  - cbn [fold_left length]. rewrite IH, (IH (0 * 10 + digit_value c)%Z).
    rewrite Nat2Z.inj_succ, Z.pow_succ_r by lia. lia.
Qed.

Lemma digits_value_app a b :
  digits_value (a ++ b) = (digits_value a * 10 ^ Z.of_nat (length b) + digits_value b)%Z.
Proof.
  unfold digits_value at 1. rewrite fold_left_app. fold (digits_value a).
  apply digits_value_from.
Qed.

Lemma digits_value_nonneg ds : (0 <= digits_value ds)%Z.
Proof.
  unfold digits_value.
  assert (H : forall acc, (0 <= acc)%Z ->
            (0 <= fold_left (fun acc c => (acc * 10 + digit_value c)%Z) ds acc)%Z).
  { induction ds as [|c ds IH]; intros acc Hacc; simpl; [exact Hacc|].
    apply IH. unfold digit_value. lia. }
  apply H. lia.
Qed.

Lemma scale10_value m e : (scale10 m e == inject_Z m * Qpower (10 # 1) e)%Q.
Proof. unfold scale10. apply Qred_correct. Qed.

(** The decimal reading of an integer part and a fraction part. *)
Definition reading (ip fp : jsstring) : number :=
  Finite (inject_Z (digits_value ip)
          + inject_Z (digits_value fp) / inject_Z (10 ^ Z.of_nat (length fp))).

Lemma pow10_pos k : (0 < inject_Z (10 ^ Z.of_nat k))%Q.
Proof. rewrite <- (Zlt_Qlt 0). apply Z.pow_pos_nonneg; lia. Qed.

Lemma scale10_decimal ip fp :
  (scale10 (digits_value (ip ++ fp)) (0 - Z.of_nat (length fp)) ==
   inject_Z (digits_value ip)
   + inject_Z (digits_value fp) / inject_Z (10 ^ Z.of_nat (length fp)))%Q.
Proof.
  rewrite scale10_value, digits_value_app.
  replace (0 - Z.of_nat (length fp))%Z with (- Z.of_nat (length fp))%Z by lia.
  rewrite Qpower_opp. change (10 # 1) with (inject_Z 10).
  rewrite <- Zpower_Qpower by lia.
  rewrite inject_Z_plus, inject_Z_mult.
  pose proof (pow10_pos (length fp)) as Hpos.
  revert Hpos. generalize (inject_Z (10 ^ Z.of_nat (length fp))). intros t Ht.
  field. intros E. rewrite E in Ht. apply (Qlt_irrefl 0), Ht.
Qed.

Definition nan_to_zero (x : number) : number := if isNaN x then num 0 else x.

Lemma read_decimal ip fp :
  digits ip -> digits fp ->
  num_equiv (nan_to_zero (parseFloat (ip ++ dot ++ fp))) (reading ip fp).
Proof.
  intros Hip Hfp. rewrite (parseFloat_decimal ip fp Hip Hfp).
  destruct (ip ++ fp) as [|c ds] eqn:E.
  - apply app_eq_nil in E as [-> ->]. vm_compute. split; reflexivity.
  - rewrite <- E. unfold nan_to_zero, isNaN, reading, num_equiv.
    apply scale10_decimal.
Qed.

Lemma read_integer ds :
  digits ds -> num_equiv (nan_to_zero (parseFloat ds)) (reading ds []).
Proof.
  intros Hds. rewrite (parseFloat_integer ds Hds). destruct ds as [|c ds].
  - vm_compute. split; reflexivity.
  - unfold nan_to_zero, isNaN, reading, num_equiv.
    rewrite <- (app_nil_r (c :: ds)) at 1. apply (scale10_decimal (c :: ds) []).
Qed.

Lemma parsePrice_unfold s :
  s <> [] ->
  parsePrice s = nan_to_zero (parseFloat (normalize_separators (strip_currency s))).
Proof. destruct s; [congruence|reflexivity]. Qed.

Lemma Forall_removelast {A} (P : A -> Prop) l : Forall P l -> Forall P (removelast l).
Proof.
  induction 1 as [|x l Hx Hl IH]; simpl; [constructor|].
  destruct l; [constructor|]. constructor; assumption.
Qed.

Lemma Forall_list_last {A} (P : A -> Prop) l d : Forall P l -> P d -> P (List.last l d).
Proof.
  intros Hl Hd. induction Hl as [|x l Hx Hl IH]; simpl; [exact Hd|].
  destruct l; [exact Hx|exact IH].
Qed.

(** X30: once currency symbols and white space are removed, on a token made
    of digits and separators [parsePrice] of [combined.js] reads the
    separators as follows.
    With more than two parts the last part is the fraction and the parts
    before it are joined into the integer part.  With exactly two parts, a
    second part of two digits is the fraction, a second part of one digit is
    a fraction padded with one zero, and a longer second part is joined to
    the first with no fraction.  In particular [24.00] and [24,00] read as
    24, and [1.234,56] and [1,234.56] as 1234.56.  The token is taken to
    have 15 code units at most: a decimal of that size is one that binary64
    tells apart from every other. *)
Theorem parsePrice_separator_rules (priceStr : jsstring) :
  let clean := strip_currency priceStr in
  plain clean ->
  length clean <= 15 ->
  let parts := split_on is_separator clean in
  (2 < length parts ->
     num_equiv (parsePrice priceStr)
               (reading (concat (removelast parts)) (List.last parts []))) /\
  (forall firstPart secondPart, parts = [firstPart; secondPart] ->
     (length secondPart = 2 ->
        num_equiv (parsePrice priceStr) (reading firstPart secondPart)) /\
     (length secondPart = 1 ->
        num_equiv (parsePrice priceStr) (reading firstPart (secondPart ++ str "0"))) /\
     (2 < length secondPart ->
        num_equiv (parsePrice priceStr) (reading (firstPart ++ secondPart) []))) /\
  (num_equiv (parsePrice (str "24.00")) (dec 2400 100) /\
   num_equiv (parsePrice (str "24,00")) (dec 2400 100) /\
   num_equiv (parsePrice (str "1.234,56")) (dec 123456 100) /\
   num_equiv (parsePrice (str "1,234.56")) (dec 123456 100)).
Proof.
  intros clean Hplain _ parts.
  pose proof (plain_parts_digits clean Hplain) as Hdigits. fold parts in Hdigits.
  assert (Hne : 1 < length parts -> priceStr <> []).
  { intros Hlen ->. unfold parts, clean in Hlen. simpl in Hlen. lia. }
  split; [|split].
  - intros Hlen. rewrite parsePrice_unfold by (apply Hne; lia).
    fold clean. unfold normalize_separators.
    fold parts. apply Nat.ltb_lt in Hlen as Hlt. rewrite Hlt.
    apply read_decimal.
    + apply digits_concat, Forall_removelast, Hdigits.
    + apply Forall_list_last; [exact Hdigits|constructor].
  - intros firstPart secondPart Hparts.
    rewrite parsePrice_unfold by (apply Hne; rewrite Hparts; simpl; lia).
    fold clean. unfold normalize_separators.
    fold parts. rewrite Hparts in *.
    change (2 <? length [firstPart; secondPart]) with false. cbv iota.
    inversion Hdigits as [|? ? Hfirst Hrest]; subst.
    inversion Hrest as [|? ? Hsecond _]; subst.
    split; [|split]; intros Hlen.
    + rewrite Hlen. cbn [Nat.eqb]. apply read_decimal; assumption.
    + rewrite Hlen. cbn [Nat.eqb]. rewrite (app_assoc dot).
      rewrite <- (app_assoc dot secondPart). apply read_decimal; [assumption|].
      apply digits_app; [assumption|]. repeat constructor.
    + destruct (length secondPart =? 2) eqn:E2; [apply Nat.eqb_eq in E2; lia|].
      destruct (length secondPart =? 1) eqn:E1; [apply Nat.eqb_eq in E1; lia|].
      apply Nat.ltb_lt in Hlen as Hlt. rewrite Hlt.
      apply read_integer, digits_app; assumption.
  - vm_compute. repeat split; reflexivity.
Qed.

Lemma parsePrice_separator_rules_witness :
  plain (strip_currency (str "$ 1.234,56")) /\
  length (strip_currency (str "$ 1.234,56")) <= 15 /\
  num_equiv (parsePrice (str "$ 1.234,56")) (reading (str "1" ++ str "234") (str "56")) /\
  num_equiv (parsePrice (str "12,5")) (reading (str "12") (str "5" ++ str "0")) /\
  num_equiv (parsePrice (str "1,234")) (reading (str "1" ++ str "234") []).
Proof.
  assert (Hplain : forall s, forallb plain_char (strip_currency s) = true ->
                             plain (strip_currency s)).
  { intros s H. apply Forall_forall. intros c Hc.
    rewrite forallb_forall in H. apply H. apply list_elem_of_In, Hc. }
  assert (Hlen : forall s, (length (strip_currency s) <=? 15) = true ->
                           length (strip_currency s) <= 15).
  { intros s H. apply Nat.leb_le, H. }
  split; [apply Hplain; vm_compute; reflexivity|].
  split; [apply Hlen; vm_compute; reflexivity|].
  split; [|split].
  - refine (proj1 (parsePrice_separator_rules (str "$ 1.234,56") (Hplain _ _) (Hlen _ _)) _).
    + vm_compute. reflexivity.
    + vm_compute. reflexivity.
    + vm_compute. lia.
  - refine (proj1 (proj2 (proj1 (proj2
              (parsePrice_separator_rules (str "12,5") (Hplain _ _) (Hlen _ _)))
              (str "12") (str "5") _)) _).
    + vm_compute. reflexivity.
    + vm_compute. reflexivity.
    + vm_compute. reflexivity.
    + vm_compute. reflexivity.
  - refine (proj2 (proj2 (proj1 (proj2
              (parsePrice_separator_rules (str "1,234") (Hplain _ _) (Hlen _ _)))
              (str "1") (str "234") _)) _).
    + vm_compute. reflexivity.
    + vm_compute. reflexivity.
    + vm_compute. reflexivity.
    + vm_compute. lia.
Defined.

(** C2: [parsePrice] of [part_001] does not resolve the separators.  Its
    comment takes the last dot or comma for the decimal mark, but its code
    deletes every comma and leaves the dots to [parseFloat].  So [24,00]
    reads as 2400 and [1.234,56] as 1.23456, where [parsePrice] of
    [combined.js] gives 24 and 1234.56 as specified; the line
    [Coffee 24,00] is an item of price 2400 there and of price 24 in
    [combined.js]. *)
Theorem Lite_parsePrice_commas_deleted :
  Lite.parsePrice (str "24,00") = num 2400 /\
  num_equiv (Lite.parsePrice (str "1.234,56")) (dec 123456 100000) /\
  parsePrice (str "24,00") = num 24 /\
  num_equiv (parsePrice (str "1.234,56")) (dec 123456 100) /\
  Lite.categorizeLine (str "Coffee 24,00")
  = ItemLine (str "Coffee") (num 2400) (num 1) (dec 85 100) /\
  categorizeLine (str "Coffee 24,00")
  = ItemLine (str "Coffee") (num 24) (num 1) (dec 85 100).
Proof. repeat split; vm_compute; reflexivity. Qed.

(** *** Sign of the result *)

Definition unsigned (s : jsstring) : Prop := Forall (fun c => c <> 45%N) s.

Definition nonnegative (x : number) : Prop :=
  match x with
  | NaN => False
  | Infinity negative => negative = false
  | Finite q => (0 <= q)%Q
  end.

Lemma nonnegative_leb x : nonnegative x -> num_leb (num 0) x = true.
Proof.
  destruct x as [|neg|q]; simpl; [tauto|intros ->; reflexivity|].
  intros Hq. apply Qle_bool_iff. exact Hq.
Qed.

Lemma trimStart_unsigned s : unsigned s -> unsigned (trimStart s).
Proof.
  induction 1 as [|c s Hc Hs IH]; simpl; [constructor|].
  destruct (is_space c); [exact IH|]. constructor; assumption.
Qed.

Lemma read_sign_unsigned s : unsigned s -> fst (read_sign s) = false.
Proof.
  intros Hs. destruct Hs as [|c s Hc _]; [reflexivity|].
  unfold read_sign. destruct c as [|p]; [reflexivity|].
  repeat (match goal with q : positive |- _ => destruct q end;
          try reflexivity; try congruence).
Qed.

Lemma scale10_nonneg m e : (0 <= m)%Z -> (0 <= scale10 m e)%Q.
Proof.
  intros Hm. rewrite scale10_value. apply Qmult_le_0_compat.
  - rewrite <- (Zle_Qle 0). exact Hm.
  - apply Qpower_0_le. discriminate.
Qed.

Lemma parseFloat_unsigned s :
  unsigned s -> isNaN (parseFloat s) = true \/ nonnegative (parseFloat s).
Proof.
  intros Hs. unfold parseFloat.
  pose proof (read_sign_unsigned _ (trimStart_unsigned s Hs)) as Hsign.
  destruct (read_sign (trimStart s)) as [neg s1]. simpl in Hsign. subst neg.
  destruct (starts_with (str "Infinity") s1); [right; reflexivity|].
  destruct (span is_digit s1) as [ip s2].
  destruct (match s2 with
            | 46%N :: s2' => span is_digit s2'
            | _ => ([], s2)
            end) as [fp s3].
  destruct (ip ++ fp) as [|c ds]; [left; reflexivity|].
  right. apply scale10_nonneg, digits_value_nonneg.
Qed.

Lemma strip_currency_unsigned s : unsigned s -> unsigned (strip_currency s).
Proof.
  unfold unsigned, strip_currency. rewrite !Forall_forall.
  intros H c Hc. apply H. apply list_elem_of_filter in Hc. tauto.
Qed.

Lemma normalize_separators_unsigned s : unsigned s -> unsigned (normalize_separators s).
Proof.
  intros Hs. unfold normalize_separators.
  pose proof (split_on_parts is_separator _ s Hs) as Hparts.
  assert (Hun : Forall unsigned (split_on is_separator s)).
  { eapply Forall_impl; [exact Hparts|]. intros part Hp.
    eapply Forall_impl; [exact Hp|]. intros c [Hc _]. exact Hc. }
  clear Hparts.
  assert (Hdot : unsigned dot) by (repeat constructor; discriminate).
  destruct (2 <? length (split_on is_separator s)).
  - apply Forall_app_2; [|apply Forall_app_2; [exact Hdot|]].
    + apply Forall_concat, Forall_removelast, Hun.
    + apply Forall_list_last; [exact Hun|constructor].
  - destruct (split_on is_separator s) as [|firstPart [|secondPart [|third rest]]];
      try exact Hs.
    inversion Hun as [|? ? H1 Hrest]; subst. inversion Hrest as [|? ? H2 _]; subst.
    assert (Hzero : unsigned (str "0")) by (repeat constructor; discriminate).
    repeat match goal with
           | |- context [if ?b then _ else _] => destruct b
           end;
      repeat (apply Forall_app_2; try assumption).
Qed.

(** [-5] is read as minus five. *)
Lemma parsePrice_minus_sign :
  parsePrice (str "-5") = num (-5) /\ num_ltb (parsePrice (str "-5")) (num 0) = true.
Proof. split; vm_compute; reflexivity. Qed.

(** C5 (amended): for every input string [parsePrice] returns a number that
    is not NaN, and returns 0 whenever [parseFloat] finds no numeral in the
    normalised string; the result is non-negative for every string without
    a minus sign, in particular for every token the classifier extracts. *)
Theorem parsePrice_total (s : jsstring) :
  isNaN (parsePrice s) = false /\
  (isNaN (parseFloat (normalize_separators (strip_currency s))) = true ->
   parsePrice s = num 0) /\
  (unsigned s -> num_leb (num 0) (parsePrice s) = true).
Proof.
  destruct s as [|c s]; [repeat split; reflexivity|].
  rewrite parsePrice_unfold by discriminate. unfold nan_to_zero.
  set (clean := normalize_separators (strip_currency (c :: s))).
  split; [|split].
  - destruct (parseFloat clean); reflexivity.
  - intros ->. reflexivity.
  - intros Hs.
    destruct (parseFloat_unsigned clean) as [Hnan|Hpos].
    { apply normalize_separators_unsigned, strip_currency_unsigned, Hs. }
    + rewrite Hnan. reflexivity.
    + destruct (parseFloat clean); [destruct Hpos|..];
        apply nonnegative_leb; exact Hpos.
Qed.

Lemma parsePrice_total_witness :
  isNaN (parseFloat (normalize_separators (strip_currency (str "n/a")))) = true /\
  parsePrice (str "n/a") = num 0 /\
  unsigned (str "$1,234.56") /\
  num_leb (num 0) (parsePrice (str "$1,234.56")) = true.
Proof.
  assert (Hun : unsigned (str "$1,234.56")).
  { unfold unsigned. apply Forall_forall. intros c Hc. apply list_elem_of_In in Hc.
    vm_compute in Hc. intuition (subst; discriminate). }
  split; [reflexivity|]. split.
  - apply (proj1 (proj2 (parsePrice_total (str "n/a")))). reflexivity.
  - split; [exact Hun|].
    apply (proj2 (proj2 (parsePrice_total (str "$1,234.56")))). exact Hun.
Defined.

(** ** Item names *)






(** *** Names that an address pattern rejects *)

















(** ** Confidence *)

(** The totals-consistency term as the scorer computes it: the bands are
    used only when a positive total was found. *)
Definition consistency (items : list Item) (summary : Summary) : Q :=
  let itemsTotal :=
    fold_left (fun sum item => num_add sum (num_mul (price item) (quantity item)))
              items (num 0) in
  let diff :=
    num_abs (num_sub (num_add (num_add itemsTotal (tax summary)) (tip summary))
                     (total summary)) in
  let tolerance := num_mul (total summary) (dec 5 100) in
  if num_gtb (total summary) (num 0) then
    if num_leb diff tolerance then 1
    else if num_leb diff (num_mul tolerance (num 2)) then 8 # 10
    else 5 # 10
  else 1.

(** The same term read without the guard on the total: 1.0 within the
    tolerance, 0.8 within twice the tolerance, 0.5 beyond. *)
Definition consistency_unguarded (items : list Item) (summary : Summary) : Q :=
  let itemsTotal :=
    fold_left (fun sum item => num_add sum (num_mul (price item) (quantity item)))
              items (num 0) in
  let diff :=
    num_abs (num_sub (num_add (num_add itemsTotal (tax summary)) (tip summary))
                     (total summary)) in
  let tolerance := num_mul (total summary) (dec 5 100) in
  if num_leb diff tolerance then 1
  else if num_leb diff (num_mul tolerance (num 2)) then 8 # 10
  else 5 # 10.

(** The confidence an item contributes: a missing or zero confidence counts
    as 0.5. *)
Definition confidence_value (item : Item) : Q :=
  match num_or (confidence item) (dec 5 10) with
  | Finite q => q
  | _ => 0
  end.

Definition confidence_sum (items : list Item) (start : Q) : Q :=
  fold_left (fun sum item => sum + confidence_value item)%Q items start.

Definition mean_confidence (items : list Item) : Q :=
  (confidence_sum items 0 / inject_Z (Z.of_nat (length items)))%Q.

(** Rounding to two decimals, [Math.round(x * 100) / 100]. *)
Definition round2 (x : Q) : Q :=
  (inject_Z (Qfloor (x * inject_Z 100 + (1 # 2))) / inject_Z 100)%Q.

Definition blend (mean term : Q) : Q := (mean * (6 # 10) + term * (4 # 10))%Q.

Definition valid_confidence (item : Item) : Prop :=
  exists c, confidence item = Finite c /\ (0 <= c <= 1)%Q.

Lemma confidence_value_bounds item :
  valid_confidence item ->
  num_or (confidence item) (dec 5 10) = Finite (confidence_value item) /\
  (0 <= confidence_value item <= 1)%Q.
Proof.
  intros (c & Hc & Hc0 & Hc1). unfold confidence_value, num_or. rewrite Hc.
  unfold truthy. destruct (Qzero_bool c) eqn:Hz; simpl.
  - split; [reflexivity|]. split; lra.
  - split; [reflexivity|]. split; assumption.
Qed.

Lemma confidence_fold items start :
  Forall valid_confidence items ->
  fold_left (fun sum item => num_add sum (num_or (confidence item) (dec 5 10)))
            items (Finite start)
  = Finite (confidence_sum items start) /\
  (start <= confidence_sum items start
   <= start + inject_Z (Z.of_nat (length items)))%Q.
Proof.
  intros Hvalid. revert start. induction Hvalid as [|item items Hitem _ IH]; intros start.
  - split; [reflexivity|]. unfold confidence_sum. cbn [fold_left length Z.of_nat].
    change (inject_Z (Z.of_nat 0)) with 0%Q. split; lra.
  - destruct (confidence_value_bounds item Hitem) as (Hor & H0 & H1).
    cbn [fold_left]. rewrite Hor. cbn [num_add].
    destruct (IH (start + confidence_value item)%Q) as (Hfold & Hlo & Hhi).
    split; [exact Hfold|].
    unfold confidence_sum in *. cbn [fold_left length].
    rewrite Nat2Z.inj_succ, <- Z.add_1_r, inject_Z_plus.
    change (inject_Z 1) with 1%Q. split; lra.
Qed.

Lemma mean_confidence_bounds items :
  items <> [] -> Forall valid_confidence items ->
  (0 <= mean_confidence items <= 1)%Q.
Proof.
  intros Hne Hvalid. destruct (confidence_fold items 0 Hvalid) as (_ & Hlo & Hhi).
  unfold mean_confidence.
  assert (Hpos : (0 < inject_Z (Z.of_nat (length items)))%Q).
  { rewrite <- (Zlt_Qlt 0). destruct items; [congruence|simpl; lia]. }
  split.
  - apply Qle_shift_div_l; [exact Hpos|]. lra.
  - apply Qle_shift_div_r; [exact Hpos|]. lra.
Qed.

Lemma consistency_values items summary :
  let t := consistency items summary in t = 1%Q \/ t = (8 # 10)%Q \/ t = (5 # 10)%Q.
Proof.
  cbv zeta. unfold consistency.
  repeat match goal with
         | |- context [if ?b then _ else _] => destruct b
         end; tauto.
Qed.

Lemma round2_bounds x : (0 <= x <= 1)%Q -> (0 <= round2 x <= 1)%Q.
Proof.
  intros [H0 H1]. unfold round2.
  assert (Hlo : (0 <= Qfloor (x * inject_Z 100 + (1 # 2)))%Z).
  { apply (Qfloor_resp_le 0). change (inject_Z 100) with (100 # 1)%Q. lra. }
  assert (Hhi : (Qfloor (x * inject_Z 100 + (1 # 2)) <= 100)%Z).
  { apply (Qfloor_resp_le _ (201 # 2)). change (inject_Z 100) with (100 # 1)%Q. lra. }
  revert Hlo Hhi. generalize (Qfloor (x * inject_Z 100 + (1 # 2))). intros z Hlo Hhi.
  rewrite Zle_Qle in Hlo, Hhi. change (inject_Z 100) with (100 # 1)%Q in *.
  change (inject_Z 0) with 0%Q in Hlo.
  split.
  - apply Qle_shift_div_l; [reflexivity|]. lra.
  - apply Qle_shift_div_r; [reflexivity|]. lra.
Qed.

(** Without a total on the receipt the scorer takes the totals as
    consistent, whatever the items add up to. *)
Lemma calculateConfidence_without_total :
  let items := [mkItem (str "Soda") (num 10) (num 1) (str "Soda $10") (dec 9 10)] in
  let summary := mkSummary (num 0) (num 0) (num 0) (num 0) in
  calculateConfidence items summary = Finite (round2 (blend (mean_confidence items) 1)) /\
  num_equiv (calculateConfidence items summary) (dec 94 100) /\
  ~ num_equiv (calculateConfidence items summary)
      (Finite (round2 (blend (mean_confidence items) (consistency_unguarded items summary)))).
Proof.
  cbv zeta. split; [vm_compute; reflexivity|]. split; vm_compute; congruence.
Qed.

(** In the exact arithmetic of the embedding, [calculateConfidence] on a
    non-empty list whose confidences lie in [0,1] is the mean item
    confidence (a zero confidence counting as 0.5) weighted 0.6 plus the
    consistency term weighted 0.4, rounded to two decimals, and lies in
    [0,1].  In binary64 the comparisons with the tolerance and the final
    rounding can fall the other way when a value sits on an edge. *)
Lemma calculateConfidence_blend (items : list Item) (summary : Summary) :
  items <> [] -> Forall valid_confidence items ->
  calculateConfidence [] summary = num 0 /\
  calculateConfidence items summary
    = Finite (round2 (blend (mean_confidence items) (consistency items summary))) /\
  (0 <= round2 (blend (mean_confidence items) (consistency items summary)) <= 1)%Q.
Proof.
  intros Hne Hvalid. split; [reflexivity|].
  pose proof (mean_confidence_bounds items Hne Hvalid) as [Hm0 Hm1].
  split.
  - unfold calculateConfidence. destruct items as [|item items]; [congruence|].
    cbv zeta. set (l := item :: items) in *.
    destruct (confidence_fold l 0 Hvalid) as (Hfold & _).
    change (num 0) with (Finite 0) at 1. rewrite Hfold.
    assert (Hcount : num_div (Finite (confidence_sum l 0)) (num (Z.of_nat (length l)))
                     = Finite (mean_confidence l)).
    { unfold num_div, num. rewrite Qzero_bool_inject_Z.
      destruct (Z.eqb_spec (Z.of_nat (length l)) 0) as [E|_]; [simpl in E; lia|].
      reflexivity. }
    rewrite Hcount.
    assert (Hterm :
      (if num_gtb (total summary) (num 0)
       then
         if num_leb
              (num_abs (num_sub (num_add (num_add
                 (fold_left (fun sum item => num_add sum (num_mul (price item) (quantity item)))
                            l (num 0)) (tax summary)) (tip summary)) (total summary)))
              (num_mul (total summary) (dec 5 100))
         then num 1
         else if num_leb
              (num_abs (num_sub (num_add (num_add
                 (fold_left (fun sum item => num_add sum (num_mul (price item) (quantity item)))
                            l (num 0)) (tax summary)) (tip summary)) (total summary)))
              (num_mul (num_mul (total summary) (dec 5 100)) (num 2))
         then dec 8 10 else dec 5 10
       else num 1) = Finite (consistency l summary)).
    { unfold consistency.
      repeat match goal with
             | |- context [if ?b then _ else _] => destruct b
             end; reflexivity. }
    rewrite Hterm. reflexivity.
  - apply round2_bounds. unfold blend.
    destruct (consistency_values items summary) as [-> | [-> | ->]]; split; lra.
Qed.

(** Rounding to two decimals moves a value by half a hundredth at most. *)
Lemma round2_close x : (Qabs (round2 x - x) <= 1 # 200)%Q.
Proof.
  unfold round2.
  pose proof (Qfloor_le (x * inject_Z 100 + (1 # 2))) as Hlo.
  pose proof (Qlt_floor (x * inject_Z 100 + (1 # 2))) as Hhi.
  revert Hlo Hhi. generalize (Qfloor (x * inject_Z 100 + (1 # 2))). intros z Hlo Hhi.
  rewrite inject_Z_plus in Hhi. change (inject_Z 1) with 1%Q in Hhi.
  change (inject_Z 100) with (100 # 1)%Q in *.
  revert Hlo Hhi. generalize (inject_Z z). intros q Hlo Hhi.
  apply Qabs_Qle_condition. split.
  - apply (Qplus_le_l _ _ x). ring_simplify.
    apply Qle_shift_div_l; [reflexivity|]. lra.
  - apply (Qplus_le_l _ _ x). ring_simplify.
    apply Qle_shift_div_r; [reflexivity|]. lra.
Qed.

(** The discrepancy between the items, tax and tip on one side and the
    total on the other, as the scorer computes it. *)
Definition discrepancy (items : list Item) (summary : Summary) : number :=
  num_abs (num_sub (num_add (num_add
     (fold_left (fun sum item => num_add sum (num_mul (price item) (quantity item)))
                items (num 0))
     (tax summary)) (tip summary)) (total summary)).

(** An amount that is finite and not negative. *)
Definition plain_amount (x : number) : Prop := exists q, x = Finite q /\ (0 <= q)%Q.

(** Amounts for which the sums of the scorer neither cancel nor overflow:
    prices, quantities, tax and tip are finite and not negative, and the
    total lies between 0.01 and 10^15. *)
Definition plain_amounts (items : list Item) (summary : Summary) : Prop :=
  Forall (fun item => plain_amount (price item) /\ plain_amount (quantity item)) items /\
  plain_amount (tax summary) /\ plain_amount (tip summary) /\
  exists t, total summary = Finite t /\ (1 # 100 <= t <= inject_Z (10 ^ 15))%Q.

Lemma items_total_finite items : forall start,
  Forall (fun item => plain_amount (price item) /\ plain_amount (quantity item)) items ->
  exists q, fold_left (fun sum item => num_add sum (num_mul (price item) (quantity item)))
                      items (Finite start) = Finite q.
Proof.
  induction items as [|item items IH]; intros start Hall; cbn [fold_left].
  - exists start. reflexivity.
  - apply Forall_cons in Hall as [[(p & Hp & _) (q & Hq & _)] Hall].
    rewrite Hp, Hq. cbn [num_mul num_add]. apply IH, Hall.
Qed.

Lemma discrepancy_finite items summary :
  plain_amounts items summary ->
  exists d t, discrepancy items summary = Finite d /\ total summary = Finite t /\
              (1 # 100 <= t)%Q.
Proof.
  intros (Hitems & (x & Hx & _) & (y & Hy & _) & t & Ht & Ht1 & _).
  destruct (items_total_finite items 0 Hitems) as (s & Hs).
  unfold discrepancy. change (num 0) with (Finite 0). rewrite Hs, Hx, Hy, Ht.
  cbn [num_add num_sub num_neg num_abs]. eexists _, t.
  split; [reflexivity|]. split; [reflexivity|exact Ht1].
Qed.

Lemma consistency_bands items summary :
  plain_amounts items summary ->
  let d := discrepancy items summary in
  let total := total summary in
  (num_leb d (num_mul total (dec 49 1000)) = true -> consistency items summary = 1%Q) /\
  (num_leb (num_mul total (dec 51 1000)) d = true ->
   num_leb d (num_mul total (dec 99 1000)) = true ->
   consistency items summary = (8 # 10)%Q) /\
  (num_leb (num_mul total (dec 101 1000)) d = true ->
   consistency items summary = (5 # 10)%Q).
Proof.
  intros Hplain. cbv zeta.
  destruct (discrepancy_finite items summary Hplain) as (d & t & Hd & Ht & Ht1).
  unfold consistency. cbv zeta. fold (discrepancy items summary).
  rewrite Hd, Ht. unfold dec, num, num_gtb, num_ltb, num_leb, num_mul.
  assert (Hpos : negb (Qle_bool t (inject_Z 0)) = true).
  { apply negb_true_iff. destruct (Qle_bool t (inject_Z 0)) eqn:E; [|reflexivity].
    apply Qle_bool_iff in E. change (inject_Z 0) with 0%Q in E. lra. }
  rewrite Hpos.
  split; [|split].
  - intros H. apply Qle_bool_iff in H.
    destruct (Qle_bool d (t * (5 # 100))) eqn:E; [reflexivity|].
    apply not_true_iff_false in E. exfalso. apply E. apply Qle_bool_iff. lra.
  - intros H1 H2. apply Qle_bool_iff in H1, H2.
    destruct (Qle_bool d (t * (5 # 100))) eqn:E1.
    { apply Qle_bool_iff in E1. lra. }
    destruct (Qle_bool d (t * (5 # 100) * inject_Z 2)) eqn:E2; [reflexivity|].
    apply not_true_iff_false in E2. exfalso. apply E2. apply Qle_bool_iff.
    change (inject_Z 2) with 2%Q. lra.
  - intros H. apply Qle_bool_iff in H.
    destruct (Qle_bool d (t * (5 # 100))) eqn:E1.
    { apply Qle_bool_iff in E1. lra. }
    destruct (Qle_bool d (t * (5 # 100) * inject_Z 2)) eqn:E2; [|reflexivity].
    apply Qle_bool_iff in E2. change (inject_Z 2) with 2%Q in E2. lra.
Qed.

(** C7 (amended): [calculateConfidence] of [combined.js] is exactly 0 on
    an empty item list.  On a non-empty list whose confidences lie in
    [0,1] the result lies in [0,1], whatever the prices, quantities, tax,
    tip and total are, and is within 0.01 of 0.6 times the mean item
    confidence (a zero confidence counting as 0.5) plus 0.4 times a
    consistency term.  The term is one of 1.0, 0.8 and 0.5, and it is 1.0
    whenever the total is not positive.  When prices, quantities, tax and
    tip are finite and not negative and the total lies between 0.01 and
    10^15, the term is 1.0 for a discrepancy of at most 4.9% of the total,
    0.8 for one between 5.1% and 9.9%, and 0.5 for one of at least 10.1%.
    The margins around 5% and 10%, and the margin of 0.01, are those within
    which the rounding of binary64 decides. *)
Theorem calculateConfidence_within (items : list Item) (summary : Summary) :
  items <> [] -> Forall valid_confidence items ->
  calculateConfidence [] summary = num 0 /\
  exists result term : Q,
    calculateConfidence items summary = Finite result /\
    (0 <= result <= 1)%Q /\
    (term = 1%Q \/ term = (8 # 10)%Q \/ term = (5 # 10)%Q) /\
    (num_gtb (total summary) (num 0) = false -> term = 1%Q) /\
    (Qabs (result - blend (mean_confidence items) term) <= 1 # 100)%Q /\
    (plain_amounts items summary ->
     let d := discrepancy items summary in
     (num_leb d (num_mul (total summary) (dec 49 1000)) = true -> term = 1%Q) /\
     (num_leb (num_mul (total summary) (dec 51 1000)) d = true ->
      num_leb d (num_mul (total summary) (dec 99 1000)) = true -> term = (8 # 10)%Q) /\
     (num_leb (num_mul (total summary) (dec 101 1000)) d = true -> term = (5 # 10)%Q)).
Proof.
  intros Hne Hvalid.
  destruct (calculateConfidence_blend items summary Hne Hvalid) as (Hempty & Hval & Hrange).
  split; [exact Hempty|].
  exists (round2 (blend (mean_confidence items) (consistency items summary))),
         (consistency items summary).
  split; [exact Hval|]. split; [exact Hrange|].
  split; [apply consistency_values|]. split; [|split].
  - intros Htotal. unfold consistency. rewrite Htotal. reflexivity.
  - eapply Qle_trans; [apply round2_close|]. discriminate.
  - intros Hplain. exact (consistency_bands items summary Hplain).
Qed.

(** Two items that add up, with the tax, to the total: the term is 1.0. *)
Lemma calculateConfidence_within_witness :
  let items := [mkItem (str "Soda") (num 3) (num 1) (str "Soda $3.00") (dec 85 100);
                mkItem (str "Wings") (num 24) (num 2) (str "2x Wings $24.00") (dec 95 100)] in
  let summary := mkSummary (num 4) (num 0) (num 55) (num 51) in
  items <> [] /\ Forall valid_confidence items /\ plain_amounts items summary /\
  num_leb (discrepancy items summary) (num_mul (total summary) (dec 49 1000)) = true /\
  exists result : Q,
    calculateConfidence items summary = Finite result /\
    (0 <= result <= 1)%Q /\
    (Qabs (result - blend (mean_confidence items) 1) <= 1 # 100)%Q.
Proof.
  cbv zeta.
  assert (Hne : [mkItem (str "Soda") (num 3) (num 1) (str "Soda $3.00") (dec 85 100);
                 mkItem (str "Wings") (num 24) (num 2) (str "2x Wings $24.00") (dec 95 100)]
                <> []) by discriminate.
  assert (Hvalid : Forall valid_confidence
            [mkItem (str "Soda") (num 3) (num 1) (str "Soda $3.00") (dec 85 100);
             mkItem (str "Wings") (num 24) (num 2) (str "2x Wings $24.00") (dec 95 100)]).
  { repeat constructor; eexists; (split; [reflexivity|]); split; discriminate. }
  assert (Hplain : plain_amounts
            [mkItem (str "Soda") (num 3) (num 1) (str "Soda $3.00") (dec 85 100);
             mkItem (str "Wings") (num 24) (num 2) (str "2x Wings $24.00") (dec 95 100)]
            (mkSummary (num 4) (num 0) (num 55) (num 51))).
  { split; [|split; [|split]].
    - repeat constructor; eexists; (split; [reflexivity|discriminate]).
    - eexists. split; [reflexivity|discriminate].
    - eexists. split; [reflexivity|discriminate].
    - eexists. split; [reflexivity|]. split; discriminate. }
  assert (Hd : num_leb (discrepancy
            [mkItem (str "Soda") (num 3) (num 1) (str "Soda $3.00") (dec 85 100);
             mkItem (str "Wings") (num 24) (num 2) (str "2x Wings $24.00") (dec 95 100)]
            (mkSummary (num 4) (num 0) (num 55) (num 51)))
            (num_mul (total (mkSummary (num 4) (num 0) (num 55) (num 51))) (dec 49 1000))
          = true) by (vm_compute; reflexivity).
  split; [exact Hne|]. split; [exact Hvalid|]. split; [exact Hplain|]. split; [exact Hd|].
  destruct (proj2 (calculateConfidence_within _ (mkSummary (num 4) (num 0) (num 55) (num 51))
                     Hne Hvalid))
    as (result & term & Hval & Hrange & _ & _ & Hclose & Hbands).
  destruct (Hbands Hplain) as (Hone & _). rewrite (Hone Hd) in Hclose.
  exists result. split; [exact Hval|]. split; [exact Hrange|exact Hclose].
Defined.

(** The score of [part_001] has other constants: the weights are 0.7 and
    0.3, and the discrepancy is compared with 0.05 and 1.00 instead of
    with a share of the total.  One item of 98.00 with confidence 0.9
    scores 0.93 there without a total and 0.78 against a total of 100;
    [calculateConfidence] of [combined.js] gives 0.94 in both cases. *)
Example Lite_calculateConfidence_constants :
  let items := [mkItem (str "Soda") (num 98) (num 1) (str "Soda $98.00") (dec 9 10)] in
  let none := mkSummary (num 0) (num 0) (num 0) (num 0) in
  let hundred := mkSummary (num 0) (num 0) (num 100) (num 0) in
  num_equiv (Lite.calculateConfidence items none) (dec 93 100) /\
  num_equiv (calculateConfidence items none) (dec 94 100) /\
  num_equiv (Lite.calculateConfidence items hundred) (dec 78 100) /\
  num_equiv (calculateConfidence items hundred) (dec 94 100).
Proof. cbv zeta. repeat split; vm_compute; reflexivity. Qed.

(** ** Metadata *)

(** The trimmed, non-empty lines of a text, before the skip list of
    [preprocessText] is applied. *)
Definition unfiltered_lines (text : jsstring) : list jsstring :=
  filter (fun line => nonempty line = true)
         (map trim (split_on (N.eqb 10) (normalize_newlines text))).

Lemma preprocessText_unfiltered text :
  preprocessText text =
  filter (fun line => negb (test Patterns.skip line) = true) (unfiltered_lines text).
Proof.
  unfold preprocessText, unfiltered_lines.
  induction (map trim (split_on (N.eqb 10) (normalize_newlines text))) as [|line lines IH];
    [reflexivity|].
  rewrite !filter_cons. destruct (nonempty line); simpl.
  - rewrite !filter_cons. destruct (negb (test Patterns.skip line)); simpl;
      rewrite IH; reflexivity.
  - exact IH.
Qed.

(** A text given line by line, the lines joined by line feeds. *)
Fixpoint unlines (lines : list string) : jsstring :=
  match lines with
  | [] => []
  | [l] => str l
  | l :: rest => str l ++ 10%N :: unlines rest
  end.

(** [testReceipts.simple] *)
Definition testReceipts_simple : jsstring :=
  unlines ["Joe's Restaurant"; "123 Main St"; "Date: 2024-01-15"; "";
           "2x Chicken Wings $24.00"; "Caesar Salad $12.50"; "Soda $3.00"; "";
           "Subtotal: $39.50"; "Tax (8%): $3.16"; "Tip: $8.00"; "Total: $50.66"]%string.

(** In [parseReceiptText] the metadata is read from the lines that
    [preprocessText] returns, that is after the skip list. *)
Lemma parseReceiptText_metadata host_date text :
  text <> [] ->
  r_merchant (parseReceiptText host_date text)
    = meta_merchant (extractMetadata host_date (preprocessText text)) /\
  r_date (parseReceiptText host_date text)
    = meta_date (extractMetadata host_date (preprocessText text)).
Proof. destruct text; [congruence|]. intros _. split; reflexivity. Qed.

(** C8: the metadata extractor is run on the filtered lines.  On the
    sample receipt of the source the line [Date: 2024-01-15] is removed by
    the skip list before the date is looked for, so the receipt has no
    date, while the unfiltered lines would give the date of that line; in
    the same way a merchant line that starts with a skip word is lost. *)
Theorem parseReceiptText_date_line_skipped (host_date : jsstring -> option jsstring) :
  r_date (parseReceiptText host_date testReceipts_simple) = [] /\
  meta_date (extractMetadata host_date (unfiltered_lines testReceipts_simple))
    = normalizeDate host_date (str "2024-01-15") /\
  r_merchant (parseReceiptText host_date (unlines ["Table Talk Diner"; "Burger $5.00"]%string))
    = [] /\
  meta_merchant
    (extractMetadata host_date (unfiltered_lines (unlines ["Table Talk Diner"; "Burger $5.00"]%string)))
    = str "Table Talk Diner".
Proof.
  repeat split; vm_compute; reflexivity.
Qed.

(** ** Merging similar items *)

Section Merge.

Variables (items : list Item) (similarityThreshold : number).

(** [other] is similar enough to the seed to join its group. *)
Definition similar (seed other : Item) : bool :=
  num_geb (calculateSimilarity (name seed) (name other)) similarityThreshold.

(** The items at the given indices that are not used yet. *)
Definition pending (used : gset nat) (indices : list nat) : list Item :=
  flat_map (fun k => if bool_decide (k ∈ used) then []
                     else match items !! k with Some item => [item] | None => [] end)
           indices.

Lemma pending_cons_used used k indices :
  k ∈ used -> pending used (k :: indices) = pending used indices.
Proof.
  intros Hk. unfold pending. cbn [flat_map].
  rewrite bool_decide_eq_true_2 by exact Hk. reflexivity.
Qed.

Lemma pending_cons_free used k indices item :
  k ∉ used -> items !! k = Some item ->
  pending used (k :: indices) = item :: pending used indices.
Proof.
  intros Hk Hitem. unfold pending. cbn [flat_map].
  rewrite bool_decide_eq_false_2 by exact Hk. rewrite Hitem. reflexivity.
Qed.

Lemma pending_cons_none used k indices :
  items !! k = None -> pending used (k :: indices) = pending used indices.
Proof.
  intros Hitem. unfold pending. cbn [flat_map]. rewrite Hitem.
  destruct (bool_decide _); reflexivity.
Qed.

Lemma pending_add_other used k indices :
  k ∉ indices -> pending ({[k]} ∪ used) indices = pending used indices.
Proof.
  intros Hk. unfold pending. induction indices as [|j indices IH]; [reflexivity|].
  cbn [flat_map]. rewrite IH by set_solver.
  assert (j <> k) by set_solver.
  rewrite (bool_decide_ext (j ∈ {[k]} ∪ used) (j ∈ used)) by set_solver.
  reflexivity.
Qed.

(** The inner loop over the indices after the seed: the similar pending
    items join the group in order, and exactly these become used. *)
Lemma try_join_loop current indices :
  NoDup indices ->
  forall group used,
    let result := fold_left (try_join items similarityThreshold current) indices (group, used) in
    fst result = group ++ filter (fun other => similar current other = true) (pending used indices) /\
    pending (snd result) indices
      = filter (fun other => similar current other = false) (pending used indices) /\
    used ⊆ snd result /\
    (forall k, k ∉ indices -> k ∈ snd result -> k ∈ used).
Proof.
  induction 1 as [|j indices Hj Hnodup IH]; intros group used; cbv zeta.
  - simpl. rewrite app_nil_r. repeat split; [set_solver|tauto].
  - cbn [fold_left].
    assert (Hstep :
      try_join items similarityThreshold current (group, used) j =
      if bool_decide (j ∈ used) then (group, used)
      else match items !! j with
           | Some other =>
               if similar current other then (group ++ [other], {[j]} ∪ used)
               else (group, used)
           | None => (group, used)
           end) by reflexivity.
    rewrite Hstep. clear Hstep.
    destruct (bool_decide (j ∈ used)) eqn:Hused.
    + apply bool_decide_eq_true in Hused.
      specialize (IH group used). cbv zeta in IH. revert IH.
      destruct (fold_left _ indices (group, used)) as [group' used'].
      cbn [fst snd]. intros IH. destruct IH as (Hg & Hp & Hsub & Hframe).
      rewrite (pending_cons_used used) by exact Hused.
      rewrite (pending_cons_used used') by (apply Hsub, Hused).
      repeat split; try assumption.
      intros k Hk. apply Hframe. intros Hin. apply Hk. right. exact Hin.
    + apply bool_decide_eq_false in Hused.
      destruct (items !! j) as [other|] eqn:Hother.
      * destruct (similar current other) eqn:Hsim.
        -- specialize (IH (group ++ [other]) ({[j]} ∪ used)). cbv zeta in IH. revert IH.
           destruct (fold_left _ indices (group ++ [other], {[j]} ∪ used))
             as [group' used'].
           cbn [fst snd]. intros IH. destruct IH as (Hg & Hp & Hsub & Hframe).
           rewrite (pending_add_other used j indices Hj) in Hg, Hp.
           rewrite (pending_cons_free used j indices other Hused Hother).
           rewrite (pending_cons_used used') by (apply Hsub; set_solver).
           rewrite filter_cons_True by exact Hsim.
           rewrite filter_cons_False by congruence.
           rewrite Hg, <- app_assoc. repeat split; try assumption.
           ++ intros k Hk. apply Hsub. set_solver.
           ++ intros k Hk Hin.
              assert (Hk' : k ∉ indices) by (intros Hin'; apply Hk; right; exact Hin').
              assert (k <> j) by (intros ->; apply Hk; left).
              specialize (Hframe k Hk' Hin). set_solver.
        -- specialize (IH group used). cbv zeta in IH. revert IH.
           destruct (fold_left _ indices (group, used)) as [group' used'].
           cbn [fst snd]. intros IH. destruct IH as (Hg & Hp & Hsub & Hframe).
           rewrite (pending_cons_free used j indices other Hused Hother).
           rewrite (pending_cons_free used' j indices other).
           ++ rewrite filter_cons_False by congruence.
              rewrite filter_cons_True by exact Hsim.
              rewrite Hp. repeat split; try assumption.
              intros k Hk. apply Hframe. intros Hin. apply Hk. right. exact Hin.
           ++ intros Hin. apply Hused, (Hframe j Hj Hin).
           ++ exact Hother.
      * specialize (IH group used). cbv zeta in IH. revert IH.
        destruct (fold_left _ indices (group, used)) as [group' used'].
        cbn [fst snd]. intros IH. destruct IH as (Hg & Hp & Hsub & Hframe).
        rewrite !pending_cons_none by exact Hother.
        repeat split; try assumption.
        intros k Hk. apply Hframe. intros Hin. apply Hk. right. exact Hin.
Qed.

(** The groups, by recursion on the list of items that are still free: the
    first one seeds a group and takes every later one that is similar to
    it. *)
Fixpoint greedy_groups (fuel : nat) (free : list Item) : list (list Item) :=
  match fuel, free with
  | S fuel', seed :: rest =>
      (seed :: filter (fun other => similar seed other = true) rest)
        :: greedy_groups fuel' (filter (fun other => similar seed other = false) rest)
  | _, _ => []
  end.

Lemma greedy_groups_fuel fuel :
  forall fuel' free,
    length free <= fuel -> length free <= fuel' ->
    greedy_groups fuel free = greedy_groups fuel' free.
Proof.
  induction fuel as [|fuel IH]; intros fuel' free Hlen Hlen'.
  - destruct free; [destruct fuel'; reflexivity|simpl in Hlen; lia].
  - destruct free as [|seed rest]; [destruct fuel'; reflexivity|].
    destruct fuel' as [|fuel']; [simpl in Hlen'; lia|].
    cbn [greedy_groups]. f_equal.
    pose proof (length_filter (fun other => similar seed other = false) rest) as Hf.
    simpl in Hlen, Hlen'. apply IH; lia.
Qed.

Definition groups_of (free : list Item) : list (list Item) :=
  greedy_groups (length free) free.

Lemma groups_of_cons seed rest :
  groups_of (seed :: rest) =
  (seed :: filter (fun other => similar seed other = true) rest)
    :: groups_of (filter (fun other => similar seed other = false) rest).
Proof.
  unfold groups_of. cbn [greedy_groups length].
  f_equal. apply greedy_groups_fuel; [apply length_filter|lia].
Qed.

(** The outer loop from index [i] on. *)
Lemma merge_step_loop count :
  forall i merged used,
    i + count = length items ->
    fst (fold_left (merge_step items similarityThreshold) (seq i count) (merged, used))
    = merged ++ map merge_group (groups_of (pending used (seq i count))).
Proof.
  induction count as [|count IH]; intros i merged used Hi.
  - simpl. rewrite app_nil_r. reflexivity.
  - cbn [seq fold_left]. unfold merge_step at 2.
    destruct (bool_decide (i ∈ used)) eqn:Hused.
    + apply bool_decide_eq_true in Hused. rewrite pending_cons_used by exact Hused.
      apply IH. lia.
    + apply bool_decide_eq_false in Hused.
      destruct (lookup_lt_is_Some_2 items i ltac:(lia)) as [current Hcurrent].
      rewrite Hcurrent.
      replace (length items - (i + 1)) with count by lia.
      replace (i + 1) with (S i) by lia.
      assert (Hfresh : i ∉ seq (S i) count).
      { rewrite elem_of_seq. lia. }
      pose proof (try_join_loop current (seq (S i) count) (NoDup_seq _ _)
                    [current] ({[i]} ∪ used)) as Hloop.
      cbv zeta in Hloop.
      destruct (fold_left (try_join items similarityThreshold current) (seq (S i) count)
                          ([current], {[i]} ∪ used)) as [group used'].
      cbn [fst snd] in Hloop. destruct Hloop as (Hgroup & Hpending & _ & _).
      rewrite (pending_add_other used i _ Hfresh) in Hgroup, Hpending.
      rewrite IH by lia. rewrite Hpending, Hgroup.
      rewrite (pending_cons_free used i _ current Hused Hcurrent).
      rewrite groups_of_cons. cbn [map app]. rewrite <- app_assoc. reflexivity.
Qed.

Lemma pending_all_from (before after : list Item) :
  items = before ++ after ->
  pending ∅ (seq (length before) (length after)) = after.
Proof.
  revert before. induction after as [|item after IH]; intros before Hitems; [reflexivity|].
  cbn [length seq]. rewrite (pending_cons_free ∅ _ _ item).
  - f_equal. specialize (IH (before ++ [item])).
    rewrite length_app, Nat.add_1_r in IH. apply IH.
    rewrite Hitems, <- app_assoc. reflexivity.
  - set_solver.
  - rewrite Hitems. rewrite lookup_app_r by lia. rewrite Nat.sub_diag. reflexivity.
Qed.

Lemma mergeSimilarItems_groups_of :
  mergeSimilarItems items similarityThreshold = map merge_group (groups_of items).
Proof.
  unfold mergeSimilarItems. rewrite (merge_step_loop (length items) 0 [] ∅) by lia.
  pose proof (pending_all_from [] items eq_refl) as Hall. cbn [length] in Hall.
  rewrite Hall. reflexivity.
Qed.

End Merge.








(** The groups of three items of which the first two are similar. *)
Example groups_of_three :
  let wings := mkItem (str "Chicken Wings") (num 12) (num 1) [] (dec 9 10) in
  let wing := mkItem (str "Chicken Wing") (num 11) (num 1) [] (dec 8 10) in
  let soda := mkItem (str "Soda") (num 3) (num 1) [] (num 1) in
  groups_of (dec 85 100) [wings; soda; wing] = [[wings; wing]; [soda]].
Proof. vm_compute. reflexivity. Qed.

(** ** The sample receipt *)

(** The items of [testReceipts.simple]: names, prices, quantities and
    confidences. *)
Example parseReceiptText_sample_items (host_date : jsstring -> option jsstring) :
  map (fun item => (name item, price item, quantity item, confidence item))
      (r_items (parseReceiptText host_date testReceipts_simple))
  = [(str "Chicken Wings", num 24, num 2, dec 95 100);
     (str "Caesar Salad", dec 25 2, num 1, dec 85 100);
     (str "Soda", num 3, num 1, dec 85 100)].
Proof. vm_compute. reflexivity. Qed.

(** * Further properties *)

(** ** What a successful match consists of *)

(** [matches r st st1]: the matcher may go from [st] to [st1] by matching
    [r]. *)
Fixpoint matches (r : regex) (st st1 : mstate) {struct r} : Prop :=
  match r with
  | Eps => st1 = st
  | Chr p =>
      exists c s', remaining st = c :: s' /\ p c = true /\
                   st1 = MState (c :: consumed st) s' (captures st)
  | Cat r1 r2 => exists mid, matches r1 st mid /\ matches r2 mid st1
  | Alt r1 r2 => matches r1 st st1 \/ matches r2 st st1
  | Star _ r1 => rtc (matches r1) st st1
  | Grp i r1 => exists mid, matches r1 st mid /\ st1 = capture i st mid
  | Bol => consumed st = [] /\ st1 = st
  | Eol => remaining st = [] /\ st1 = st
  | WordB => at_word_boundary st = true /\ st1 = st
  end.

Lemma or_else_Some {A} (x y : option A) (res : A) :
  or_else x y = Some res -> x = Some res \/ y = Some res.
Proof. destruct x; simpl; auto. Qed.

(** Every result of the matcher comes from a state that the pattern
    reaches and that the continuation accepts. *)
Lemma run_matches r : forall st k res,
  run r st k = Some res -> exists st1, matches r st st1 /\ k st1 = Some res.
Proof.
  induction r as [|p|r1 IH1 r2 IH2|r1 IH1 r2 IH2|greedy r1 IH1|i r1 IH1| | |];
    intros st k res Hrun.
  - exists st. split; [reflexivity|exact Hrun].
  - cbn [run] in Hrun. destruct (remaining st) as [|c s'] eqn:Hrem; [discriminate|].
    destruct (p c) eqn:Hp; [|discriminate].
    eexists. split; [|exact Hrun]. exists c, s'. auto.
  - cbn [run] in Hrun. apply IH1 in Hrun as (mid & Hmid & Hrun).
    apply IH2 in Hrun as (st1 & Hst1 & Hk).
    exists st1. split; [exists mid; auto|exact Hk].
  - cbn [run] in Hrun. apply or_else_Some in Hrun as [Hrun|Hrun].
    + apply IH1 in Hrun as (st1 & H1 & Hk). exists st1. split; [left; exact H1|exact Hk].
    + apply IH2 in Hrun as (st1 & H1 & Hk). exists st1. split; [right; exact H1|exact Hk].
  - rewrite run_Star_loop in Hrun. revert Hrun.
    generalize (length (remaining st)). intros fuel. revert st.
    induction fuel as [|fuel IHf]; intros st Hrun.
    + exists st. split; [apply rtc_refl|exact Hrun].
    + cbn [star_loop] in Hrun.
      assert (Hcases :
        run r1 st (fun st1 =>
          if (length (remaining st1) <? length (remaining st))%nat
          then star_loop greedy r1 k fuel st1 else None) = Some res
        \/ k st = Some res).
      { destruct greedy; apply or_else_Some in Hrun; tauto. }
      destruct Hcases as [Hagain|Hk].
      * apply IH1 in Hagain as (mid & Hmid & Hrest).
        cbv beta in Hrest.
        destruct (length (remaining mid) <? length (remaining st))%nat; [|discriminate].
        apply IHf in Hrest as (st1 & Hst1 & Hk).
        exists st1. split; [|exact Hk]. eapply rtc_l; eassumption.
      * exists st. split; [apply rtc_refl|exact Hk].
  - cbn [run] in Hrun. apply IH1 in Hrun as (mid & Hmid & Hk). cbv beta in Hk.
    exists (capture i st mid). split; [|exact Hk]. exists mid. split; [exact Hmid|reflexivity].
  - cbn [run] in Hrun. destruct (consumed st) eqn:E; [|discriminate].
    exists st. split; [split; [exact E|reflexivity]|exact Hrun].
  - cbn [run] in Hrun. destruct (remaining st) eqn:E; [|discriminate].
    exists st. split; [split; [exact E|reflexivity]|exact Hrun].
  - cbn [run] in Hrun. destruct (at_word_boundary st) eqn:E; [|discriminate].
    exists st. split; [split; [exact E|reflexivity]|exact Hrun].
Qed.

(** [only P r]: every code unit that [r] can consume satisfies [P]. *)
Fixpoint only (P : N -> bool) (r : regex) : Prop :=
  match r with
  | Chr p => forall c, p c = true -> P c = true
  | Cat r1 r2 | Alt r1 r2 => only P r1 /\ only P r2
  | Star _ r1 | Grp _ r1 => only P r1
  | _ => True
  end.

(** [groups_only G r]: group [i] of [r] can only capture code units that
    satisfy [G i]. *)
Fixpoint groups_only (G : nat -> N -> bool) (r : regex) : Prop :=
  match r with
  | Cat r1 r2 | Alt r1 r2 => groups_only G r1 /\ groups_only G r2
  | Star _ r1 => groups_only G r1
  | Grp i r1 => only (G i) r1 /\ groups_only G r1
  | _ => True
  end.

(** The text passed over between two states. *)
Definition passed (st st1 : mstate) (w : jsstring) : Prop :=
  remaining st = w ++ remaining st1 /\ consumed st1 = rev w ++ consumed st.

Lemma passed_refl st : passed st st [].
Proof. split; reflexivity. Qed.

Lemma passed_trans st mid st1 w1 w2 :
  passed st mid w1 -> passed mid st1 w2 -> passed st st1 (w1 ++ w2).
Proof.
  intros [H1 H2] [H3 H4]. split.
  - rewrite H1, H3, app_assoc. reflexivity.
  - rewrite H4, H2, rev_app_distr, app_assoc. reflexivity.
Qed.

Lemma matches_passed r : forall st st1,
  matches r st st1 ->
  exists w, passed st st1 w /\ forall P, only P r -> Forall (fun c => P c = true) w.
Proof.
  induction r as [|p|r1 IH1 r2 IH2|r1 IH1 r2 IH2|greedy r1 IH1|i r1 IH1| | |];
    intros st st1 Hm; cbn [matches] in Hm.
  - subst. exists []. split; [apply passed_refl|constructor].
  - destruct Hm as (c & s' & Hrem & Hp & ->). exists [c]. split.
    + split; [exact Hrem|reflexivity].
    + intros P HP. constructor; [apply HP, Hp|constructor].
  - destruct Hm as (mid & H1 & H2).
    apply IH1 in H1 as (w1 & Hw1 & HP1). apply IH2 in H2 as (w2 & Hw2 & HP2).
    exists (w1 ++ w2). split; [eapply passed_trans; eassumption|].
    intros P [HPa HPb]. apply Forall_app_2; auto.
  - destruct Hm as [H1|H2].
    + apply IH1 in H1 as (w & Hw & HP). exists w. split; [exact Hw|]. intros P [HPa _]. auto.
    + apply IH2 in H2 as (w & Hw & HP). exists w. split; [exact Hw|]. intros P [_ HPb]. auto.
  - induction Hm as [st|st mid st1 Hstep _ IH].
    + exists []. split; [apply passed_refl|constructor].
    + apply IH1 in Hstep as (w1 & Hw1 & HP1). destruct IH as (w2 & Hw2 & HP2).
      exists (w1 ++ w2). split; [eapply passed_trans; eassumption|].
      intros P HP. apply Forall_app_2; auto.
  - destruct Hm as (mid & H1 & ->). apply IH1 in H1 as (w & [Hw1 Hw2] & HP).
    exists w. split; [split; assumption|exact HP].
  - destruct Hm as [_ ->]. exists []. split; [apply passed_refl|constructor].
  - destruct Hm as [_ ->]. exists []. split; [apply passed_refl|constructor].
  - destruct Hm as [_ ->]. exists []. split; [apply passed_refl|constructor].
Qed.

Definition captures_only (G : nat -> N -> bool) (caps : list (nat * jsstring)) : Prop :=
  Forall (fun entry => Forall (fun c => G (fst entry) c = true) (snd entry)) caps.

Lemma capture_passed i st mid w :
  passed st mid w -> capture i st mid = MState (consumed mid) (remaining mid) ((i, w) :: captures mid).
Proof.
  intros [_ H]. unfold capture. rewrite H, length_app, length_rev.
  replace (length w + length (consumed st) - length (consumed st)) with (length (rev w)) by (rewrite length_rev; lia).
  rewrite take_app_length, rev_involutive. reflexivity.
Qed.

Lemma matches_captures G r : forall st st1,
  groups_only G r -> matches r st st1 ->
  captures_only G (captures st) -> captures_only G (captures st1).
Proof.
  induction r as [|p|r1 IH1 r2 IH2|r1 IH1 r2 IH2|greedy r1 IH1|i r1 IH1| | |];
    intros st st1 HG Hm Hcaps; cbn [matches groups_only] in *.
  - subst. exact Hcaps.
  - destruct Hm as (c & s' & _ & _ & ->). exact Hcaps.
  - destruct HG as [HG1 HG2]. destruct Hm as (mid & H1 & H2). eauto.
  - destruct HG as [HG1 HG2]. destruct Hm as [H1|H2]; eauto.
  - induction Hm as [st|st mid st1 Hstep _ IH]; [exact Hcaps|]. eauto.
  - destruct HG as [Honly HG1]. destruct Hm as (mid & H1 & ->).
    pose proof (IH1 _ _ HG1 H1 Hcaps) as Hmid.
    apply matches_passed in H1 as (w & Hw & HP).
    rewrite (capture_passed i st mid w Hw). cbn [captures].
    constructor; [apply HP, Honly|exact Hmid].
  - destruct Hm as [_ ->]. exact Hcaps.
  - destruct Hm as [_ ->]. exact Hcaps.
  - destruct Hm as [_ ->]. exact Hcaps.
Qed.

Lemma search_from_captures G r : forall s before_rev m,
  groups_only G r -> search_from r before_rev s = Some m -> captures_only G (m_groups m).
Proof.
  induction s as [|c s IH]; intros before_rev m HG Hs; cbn [search_from] in Hs.
  - unfold match_at in Hs. destruct (run r _ Some) as [st|] eqn:Hrun; [|discriminate].
    injection Hs as <-. cbn [m_groups].
    apply run_matches in Hrun as (st1 & Hm & [= ->]).
    eapply matches_captures; [exact HG|exact Hm|constructor].
  - unfold match_at in Hs at 1. destruct (run r _ Some) as [st|] eqn:Hrun.
    + injection Hs as <-. cbn [m_groups].
      apply run_matches in Hrun as (st1 & Hm & [= ->]).
      eapply matches_captures; [exact HG|exact Hm|constructor].
    + eapply IH; eassumption.
Qed.

(** The text of a group of a match found by [exec] is made of code units
    that the group admits; an unset group reads as the empty text. *)
Lemma exec_capture_text G r s m i :
  groups_only G r -> exec r s = Some m ->
  Forall (fun c => G i c = true) (capture_text i m).
Proof.
  intros HG Hexec. apply (search_from_captures G) in Hexec; [|exact HG].
  unfold capture_text, group.
  destruct (find _ (m_groups m)) as [[j t]|] eqn:Hfind; [|constructor].
  cbn. apply find_some in Hfind as [Hin Hj]. cbn in Hj. apply Nat.eqb_eq in Hj. subst j.
  unfold captures_only in Hexec. rewrite Forall_forall in Hexec.
  apply (Hexec (i, t)). apply list_elem_of_In, Hin.
Qed.

(** ** Amounts and quantities read from a line *)

(** What group [i] of a summary pattern, of the quantity pattern or of the
    item pattern may hold, as far as the amounts and quantities need it:
    group 1 of a summary pattern is a plain token. *)
Definition amount_group (i : nat) : N -> bool :=
  match i with 1 => plain_char | _ => fun _ => true end.

Lemma plain_char_class c :
  cls [is_digit; ch ",."] c = true -> plain_char c = true.
Proof.
  unfold plain_char, is_separator, cls, ch. cbn [existsb str].
  change (str ",.") with [44%N; 46%N]. change (str ".,") with [46%N; 44%N].
  cbn [one_of existsb]. destruct (is_digit c), (N.eqb c 44), (N.eqb c 46); cbn; intros H; try reflexivity; discriminate.
Qed.

Lemma plain_char_digit c : is_digit c = true -> plain_char c = true.
Proof. unfold plain_char. intros ->. reflexivity. Qed.

Ltac groups_only_tac G :=
  cbv -[G is_digit plain_char cls ch ch_i is_space currency_sym qty_mark any_char
        lower_char N.eqb is_upper is_lower is_word ncls];
  repeat match goal with
         | |- _ /\ _ => split
         | |- True => exact I
         end.

Ltac amount_groups_tac :=
  groups_only_tac amount_group;
  first [exact plain_char_digit | exact plain_char_class | intros c _; reflexivity].

Lemma tax_groups : groups_only amount_group Patterns.tax.
Proof. amount_groups_tac. Qed.
Lemma tip_groups : groups_only amount_group Patterns.tip.
Proof. amount_groups_tac. Qed.
Lemma total_groups : groups_only amount_group Patterns.total.
Proof. amount_groups_tac. Qed.
Lemma subtotal_groups : groups_only amount_group Patterns.subtotal.
Proof. amount_groups_tac. Qed.

Lemma plain_unsigned s : plain s -> unsigned s.
Proof.
  intros H. eapply Forall_impl; [exact H|]. intros c Hc ->. discriminate Hc.
Qed.

Lemma parsePrice_nonnegative s : unsigned s -> nonnegative (parsePrice s).
Proof.
  intros Hs. destruct s as [|c s]; [cbn; discriminate|].
  rewrite parsePrice_unfold by discriminate. unfold nan_to_zero.
  destruct (parseFloat_unsigned (normalize_separators (strip_currency (c :: s)))) as [H|H].
  - apply normalize_separators_unsigned, strip_currency_unsigned, Hs.
  - rewrite H. cbn. discriminate.
  - destruct (parseFloat _); [destruct H|exact H|exact H].
Qed.

(** The amount of a summary classification is never negative and never
    NaN. *)
Definition amount_nonnegative (c : classified) : Prop :=
  match c with
  | TaxLine a | TipLine a | TotalLine a | SubtotalLine a => nonnegative a
  | _ => True
  end.

Lemma summary_rule_nonnegative line c :
  summary_rule line = Some c -> amount_nonnegative c.
Proof.
  assert (H : forall r m, groups_only amount_group r -> exec r line = Some m ->
                nonnegative (parsePrice (capture_text 1 m))).
  { intros r m HG Hm. apply parsePrice_nonnegative, plain_unsigned.
    apply (exec_capture_text amount_group r line m 1 HG Hm). }
  unfold summary_rule.
  destruct (exec Patterns.tax line) eqn:E1;
    [intros [= <-]; exact (H _ _ tax_groups E1)|].
  destruct (exec Patterns.tip line) eqn:E2;
    [intros [= <-]; exact (H _ _ tip_groups E2)|].
  destruct (exec Patterns.total line) eqn:E3;
    [intros [= <-]; exact (H _ _ total_groups E3)|].
  destruct (exec Patterns.subtotal line) eqn:E4;
    [intros [= <-]; exact (H _ _ subtotal_groups E4)|discriminate].
Qed.

Lemma categorizeLine_amount_nonnegative line : amount_nonnegative (categorizeLine line).
Proof.
  unfold categorizeLine.
  destruct (dotted_rule line) as [c|] eqn:Hd.
  { unfold dotted_rule in Hd. destruct (exec Patterns.dottedItem line); [|discriminate].
    cbv zeta in Hd. destruct (_ && _); [|discriminate]. injection Hd as <-. exact I. }
  destruct (summary_rule line) as [c|] eqn:Hs; [eapply summary_rule_nonnegative, Hs|].
  destruct (item_rule line) as [c|] eqn:Hi.
  { unfold item_rule in Hi. destruct (exec Patterns.itemLine line); [|discriminate].
    cbv zeta in Hi. destruct (_ && _); [|discriminate]. injection Hi as <-. exact I. }
  destruct (price_rule line) as [c|] eqn:Hp; [|exact I].
  unfold price_rule in Hp. destruct (exec Patterns.price line); [|discriminate].
  cbv zeta in Hp. destruct (_ && _ && _); [|discriminate].
  destruct (_ && _ && _); [discriminate|]. injection Hp as <-. exact I.
Qed.

Definition summary_nonnegative (s : Summary) : Prop :=
  nonnegative (tax s) /\ nonnegative (tip s) /\ nonnegative (total s).

Lemma fold_record_line_nonnegative lines : forall s,
  summary_nonnegative s /\ nonnegative (subtotal s) ->
  summary_nonnegative (fold_left record_line lines s)
  /\ nonnegative (subtotal (fold_left record_line lines s)).
Proof.
  induction lines as [|line lines IH]; intros s Hs; [exact Hs|].
  cbn [fold_left]. apply IH. unfold record_line.
  pose proof (categorizeLine_amount_nonnegative line) as Hc.
  destruct Hs as ((H1 & H2 & H3) & H4).
  destruct (categorizeLine line); cbn in Hc |- *; unfold summary_nonnegative; cbn; tauto.
Qed.

Lemma infer_subtotal_keeps s :
  tax (infer_subtotal s) = tax s /\ tip (infer_subtotal s) = tip s /\
  total (infer_subtotal s) = total s.
Proof. unfold infer_subtotal. destruct (_ && _ && _); repeat split; reflexivity. Qed.

(** X1: Whatever the lines are, the tax, the tip and the total that
    [extractSummary] returns are the amounts of the last line of their
    kind (0 when there is none) and are never negative and never NaN.  The
    subtotal is total - tax - tip when the last subtotal amount is 0 (or
    there is none) and the total and the tax are positive; otherwise it is
    the last subtotal amount, which is never negative and never NaN
    either. *)
Theorem extractSummary_nonnegative (lines : list jsstring) :
  let read := last_amount amount_subtotal lines in
  let summary := extractSummary lines in
  tax summary = last_amount amount_tax lines /\ nonnegative (tax summary) /\
  tip summary = last_amount amount_tip lines /\ nonnegative (tip summary) /\
  total summary = last_amount amount_total lines /\ nonnegative (total summary) /\
  nonnegative read /\
  subtotal summary
  = (if num_eqb read (num 0) && num_gtb (total summary) (num 0)
        && num_gtb (tax summary) (num 0)
     then num_sub (num_sub (total summary) (tax summary)) (tip summary)
     else read).
Proof.
  cbv zeta. unfold extractSummary.
  pose proof (fold_record_line_nonnegative lines
                (mkSummary (num 0) (num 0) (num 0) (num 0))) as Hn.
  destruct (infer_subtotal_keeps
              (fold_left record_line lines (mkSummary (num 0) (num 0) (num 0) (num 0))))
    as (Ea & Eb & Ec).
  rewrite Ea, Eb, Ec. clear Ea Eb Ec. unfold infer_subtotal.
  rewrite fold_record_line in *. cbn [tax tip total subtotal] in *.
  unfold last_amount, last_or in *.
  destruct Hn as ((H1 & H2 & H3) & H4).
  { unfold summary_nonnegative. cbn. repeat split; discriminate. }
  destruct (_ && _ && _); cbn [subtotal]; repeat split; first [reflexivity|assumption].
Qed.

(** Groups 1 to 3 of the quantity pattern hold digits. *)
Definition quantity_group (i : nat) : N -> bool := is_digit.
(** Group 1 of the item pattern holds digits. *)
Definition item_group (i : nat) : N -> bool :=
  match i with 1 => is_digit | _ => fun _ => true end.

Lemma quantity_groups : groups_only quantity_group Patterns.quantity.
Proof. groups_only_tac quantity_group; intros c Hc; exact Hc. Qed.

Lemma itemLine_groups : groups_only item_group Patterns.itemLine.
Proof.
  groups_only_tac item_group;
    first [intros c Hc; exact Hc | intros c _; reflexivity | exact plain_char_digit].
Qed.

(** A count: NaN, or a natural number. *)
Definition count_or_NaN (x : number) : Prop :=
  x = NaN \/ exists z, x = num z /\ (0 <= z)%Z.

Lemma parseInt_digits t : digits t -> count_or_NaN (parseInt (Some t)).
Proof.
  intros Ht. unfold parseInt.
  assert (Hstart : numeral_start t).
  { rewrite <- (app_nil_r t). apply digits_numeral_start; [exact Ht|exact I]. }
  destruct (numeral_start_prefix t Hstart) as (-> & -> & _).
  rewrite <- (app_nil_r t) at 1. rewrite (span_digits t [] Ht I).
  destruct t as [|c t]; [left; reflexivity|]. right.
  eexists. split; [reflexivity|apply digits_value_nonneg].
Qed.

Lemma extractQuantity_count text : count_or_NaN (extractQuantity text).
Proof.
  unfold extractQuantity. destruct text as [|c text]; [right; exists 1%Z; split; [reflexivity|lia]|].
  destruct (exec Patterns.quantity (c :: text)) as [m|] eqn:Hm;
    [|right; exists 1%Z; split; [reflexivity|lia]].
  assert (Hgroup : forall i t, group i m = Some t -> digits t).
  { intros i t Hi.
    pose proof (exec_capture_text quantity_group _ _ m i quantity_groups Hm) as H.
    unfold capture_text in H. rewrite Hi in H. exact H. }
  assert (Hor : forall a b, (forall t, a = Some t -> digits t) ->
                  (forall t, b = Some t -> digits t) ->
                  forall t, str_or a b = Some t -> digits t).
  { intros a b Ha Hb t. unfold str_or. destruct a as [[|x a]|]; auto. }
  destruct (str_or (group 1 m) (str_or (group 2 m) (group 3 m))) as [t|] eqn:Ht;
    [|left; reflexivity].
  apply parseInt_digits. revert Ht. apply Hor; [apply Hgroup|]. apply Hor; apply Hgroup.
Qed.

Lemma num_or_count x y : count_or_NaN x -> count_or_NaN y -> count_or_NaN (num_or x y).
Proof. intros Hx Hy. unfold num_or. destruct (truthy x); assumption. Qed.

(** The quantity that [categorizeLine] attaches to an item. *)
Definition item_quantity_count (c : classified) : Prop :=
  match c with
  | ItemLine _ _ q _ => count_or_NaN q
  | _ => True
  end.

Lemma categorizeLine_quantity_count line : item_quantity_count (categorizeLine line).
Proof.
  unfold categorizeLine.
  destruct (dotted_rule line) as [c|] eqn:Hd.
  { unfold dotted_rule in Hd. destruct (exec Patterns.dottedItem line); [|discriminate].
    cbv zeta in Hd. destruct (_ && _); [|discriminate]. injection Hd as <-.
    apply extractQuantity_count. }
  destruct (summary_rule line) as [c|] eqn:Hs.
  { apply summary_rule_not_item in Hs. destruct c; try exact I. discriminate. }
  destruct (item_rule line) as [c|] eqn:Hi.
  { unfold item_rule in Hi. destruct (exec Patterns.itemLine line) as [m|] eqn:Hm; [|discriminate].
    cbv zeta in Hi. destruct (_ && _); [|discriminate]. injection Hi as <-. cbn.
    destruct (group 1 m) as [[|x t]|] eqn:Hg; try apply extractQuantity_count.
    apply num_or_count; [|apply extractQuantity_count].
    apply parseInt_digits.
    pose proof (exec_capture_text item_group _ _ m 1 itemLine_groups Hm) as H.
    unfold capture_text in H. rewrite Hg in H. exact H. }
  destruct (price_rule line) as [c|] eqn:Hp; [|exact I].
  unfold price_rule in Hp. destruct (exec Patterns.price line); [|discriminate].
  cbv zeta in Hp. destruct (_ && _ && _); [|discriminate].
  destruct (_ && _ && _); [discriminate|]. injection Hp as <-.
  apply extractQuantity_count.
Qed.

Definition whole_quantity (item : Item) : Prop :=
  exists z, quantity item = num z /\ (1 <= z)%Z.

Lemma num_or_one q : count_or_NaN q -> exists z, num_or q (num 1) = num z /\ (1 <= z)%Z.
Proof.
  intros [-> | (z & -> & Hz)]; [exists 1%Z; split; [reflexivity|lia]|].
  unfold num_or, truthy, num. rewrite Qzero_bool_inject_Z.
  destruct (Z.eqb_spec z 0) as [->|Hne]; cbn.
  - exists 1%Z. split; [reflexivity|lia].
  - exists z. split; [reflexivity|lia].
Qed.

(** With [parseInt] read as an exact integer, every item that
    [extractItems] returns has a whole quantity of at least 1. *)
Lemma extractItems_whole_quantity (lines : list jsstring) :
  Forall whole_quantity (extractItems lines).
Proof.
  unfold extractItems.
  assert (H : forall acc, Forall whole_quantity acc ->
            Forall whole_quantity
              (fold_left
                 (fun items line =>
                    match categorizeLine line with
                    | ItemLine n p q c =>
                        items ++ [mkItem (cleanItemName n) p (num_or q (num 1)) line c]
                    | _ => items
                    end) lines acc)).
  { induction lines as [|line lines IH]; intros acc Hacc; cbn [fold_left]; [exact Hacc|].
    apply IH. pose proof (categorizeLine_quantity_count line) as Hc.
    destruct (categorizeLine line); try exact Hacc.
    apply Forall_app. split; [exact Hacc|]. constructor; [|constructor].
    apply num_or_one, Hc. }
  apply H. constructor.
Qed.

Definition quantity_counts (item : Item) : Prop :=
  num_leb (num 1) (quantity item) = true.

(** X2: Every item that [extractItems] returns has a quantity of at least
    1, whatever the lines are: it is never 0, never negative and never
    NaN. *)
Theorem extractItems_quantity (lines : list jsstring) :
  Forall quantity_counts (extractItems lines).
Proof.
  eapply Forall_impl; [apply extractItems_whole_quantity|].
  intros item (z & Hz & Hone). unfold quantity_counts. rewrite Hz.
  unfold num_leb, num. apply Qle_bool_iff. rewrite <- Zle_Qle. exact Hone.
Qed.

(** ** Confidence of a parsed receipt *)

(** The confidences that the classifier hands out. *)
Definition rule_confidences : list number :=
  [dec 70 100; dec 85 100; dec 90 100; dec 92 100; dec 95 100].

Definition item_confidence_known (c : classified) : Prop :=
  match c with
  | ItemLine _ _ _ conf => In conf rule_confidences
  | _ => True
  end.

Lemma categorizeLine_confidence_known line : item_confidence_known (categorizeLine line).
Proof.
  unfold categorizeLine.
  destruct (dotted_rule line) as [c|] eqn:Hd.
  { unfold dotted_rule in Hd. destruct (exec Patterns.dottedItem line); [|discriminate].
    cbv zeta in Hd. destruct (_ && _); [|discriminate]. injection Hd as <-.
    cbn. tauto. }
  destruct (summary_rule line) as [c|] eqn:Hs.
  { apply summary_rule_not_item in Hs. destruct c; try exact I. discriminate. }
  destruct (item_rule line) as [c|] eqn:Hi.
  { unfold item_rule in Hi. destruct (exec Patterns.itemLine line) as [m|]; [|discriminate].
    cbv zeta in Hi. destruct (_ && _); [|discriminate]. injection Hi as <-.
    cbn [item_confidence_known].
    destruct (includes line (str "...") || includes line (str "---")); [cbn; tauto|].
    destruct (match _ with Some q => truthy q | None => false end); cbn; tauto. }
  destruct (price_rule line) as [c|] eqn:Hp; [|exact I].
  unfold price_rule in Hp. destruct (exec Patterns.price line); [|discriminate].
  cbv zeta in Hp. destruct (_ && _ && _); [|discriminate].
  destruct (_ && _ && _); [discriminate|]. injection Hp as <-. cbn. tauto.
Qed.

Lemma extractItems_confidence_known (lines : list jsstring) :
  Forall (fun item => In (confidence item) rule_confidences) (extractItems lines).
Proof.
  unfold extractItems.
  assert (H : forall acc,
            Forall (fun item => In (confidence item) rule_confidences) acc ->
            Forall (fun item => In (confidence item) rule_confidences)
              (fold_left
                 (fun items line =>
                    match categorizeLine line with
                    | ItemLine n p q c =>
                        items ++ [mkItem (cleanItemName n) p (num_or q (num 1)) line c]
                    | _ => items
                    end) lines acc)).
  { induction lines as [|line lines IH]; intros acc Hacc; cbn [fold_left]; [exact Hacc|].
    apply IH. pose proof (categorizeLine_confidence_known line) as Hc.
    destruct (categorizeLine line); try exact Hacc.
    apply Forall_app. split; [exact Hacc|]. constructor; [exact Hc|constructor]. }
  apply H. constructor.
Qed.

(** X3: Every item that [extractItems] returns carries one of the five
    confidences 0.70, 0.85, 0.90, 0.92 and 0.95. *)
Theorem extractItems_confidence (lines : list jsstring) :
  Forall (fun item => In (confidence item) rule_confidences) (extractItems lines).
Proof. exact (extractItems_confidence_known lines). Qed.

Lemma rule_confidence_value item :
  In (confidence item) rule_confidences ->
  valid_confidence item /\ (7 # 10 <= confidence_value item)%Q.
Proof.
  intros Hin. unfold valid_confidence, confidence_value.
  cbn in Hin. destruct Hin as [<-|[<-|[<-|[<-|[<-|[]]]]]]; cbn;
    (split; [eexists; split; [reflexivity|split; discriminate]|discriminate]).
Qed.

Lemma confidence_sum_lower items lo : forall start,
  Forall (fun item => (lo <= confidence_value item)%Q) items ->
  (start + lo * inject_Z (Z.of_nat (length items)) <= confidence_sum items start)%Q.
Proof.
  induction items as [|item items IH]; intros start Hall.
  - unfold confidence_sum. cbn [fold_left length].
    change (inject_Z (Z.of_nat 0)) with 0%Q. lra.
  - inversion Hall as [|? ? Hitem Hrest]; subst.
    specialize (IH (start + confidence_value item)%Q Hrest).
    unfold confidence_sum in *. cbn [fold_left length].
    rewrite Nat2Z.inj_succ, <- Z.add_1_r, inject_Z_plus.
    change (inject_Z 1) with 1%Q. lra.
Qed.

(** The value of [calculateConfidence] on a non-empty list of items with
    confidences in [0,1]. *)
Lemma calculateConfidence_value items summary :
  items <> [] -> Forall valid_confidence items ->
  calculateConfidence items summary
  = Finite (round2 (blend (mean_confidence items) (consistency items summary))).
Proof.
  intros Hne Hvalid. unfold calculateConfidence.
  destruct items as [|item items]; [congruence|].
  cbv zeta. set (l := item :: items) in *.
  destruct (confidence_fold l 0 Hvalid) as (Hfold & _).
  change (num 0) with (Finite 0) at 1. rewrite Hfold.
  assert (Hcount : num_div (Finite (confidence_sum l 0)) (num (Z.of_nat (length l)))
                   = Finite (mean_confidence l)).
  { unfold num_div, num. rewrite Qzero_bool_inject_Z.
    destruct (Z.eqb_spec (Z.of_nat (length l)) 0) as [E|_]; [cbn in E; lia|].
    reflexivity. }
  rewrite Hcount. unfold consistency.
  repeat match goal with
         | |- context [if ?b then _ else _] => destruct b
         end; reflexivity.
Qed.

Lemma round2_lower x lo :
  (inject_Z lo * (1 # 100) <= x)%Q -> (inject_Z lo * (1 # 100) <= round2 x)%Q.
Proof.
  intros Hx. unfold round2.
  assert (Hfloor : (lo <= Qfloor (x * inject_Z 100 + (1 # 2)))%Z).
  { rewrite <- (Qfloor_Z lo). apply Qfloor_resp_le.
    change (inject_Z 100) with (100 # 1)%Q. lra. }
  rewrite Zle_Qle in Hfloor. revert Hfloor.
  generalize (inject_Z (Qfloor (x * inject_Z 100 + (1 # 2)))).
  intros y Hy. change (inject_Z 100) with (100 # 1)%Q.
  apply Qle_shift_div_l; [reflexivity|]. lra.
Qed.

(** X4: For every text the confidence of the receipt is 0 when no item was
    found, and otherwise lies between 0.62 and 1. *)
Theorem parseReceiptText_confidence_range (host_date : jsstring -> option jsstring)
  (text : jsstring) :
  let receipt := parseReceiptText host_date text in
  (r_items receipt = [] /\ r_confidence receipt = num 0) \/
  (r_items receipt <> [] /\
   exists q, r_confidence receipt = Finite q /\ (62 # 100 <= q <= 1)%Q).
Proof.
  cbv zeta. unfold parseReceiptText. destruct text as [|c text]; [left; split; reflexivity|].
  cbv zeta. cbn [r_items r_confidence].
  set (lines := preprocessText (c :: text)).
  pose proof (extractItems_confidence_known lines) as Hconf.
  destruct (extractItems lines) as [|item items] eqn:Hitems; [left; split; reflexivity|].
  right. split; [discriminate|].
  set (l := item :: items) in *.
  assert (Hvalid : Forall valid_confidence l /\
                   Forall (fun item => (7 # 10 <= confidence_value item)%Q) l).
  { split; (eapply Forall_impl; [exact Hconf|]); intros x Hx;
      apply rule_confidence_value in Hx; tauto. }
  destruct Hvalid as [Hvalid Hlow].
  rewrite calculateConfidence_value by (try discriminate; exact Hvalid).
  eexists. split; [reflexivity|].
  pose proof (mean_confidence_bounds l ltac:(discriminate) Hvalid) as [_ Hm1].
  assert (Hm0 : (7 # 10 <= mean_confidence l)%Q).
  { unfold mean_confidence.
    pose proof (confidence_sum_lower l (7 # 10) 0 Hlow) as Hsum.
    apply Qle_shift_div_l; [|lra].
    rewrite <- (Zlt_Qlt 0). cbn. lia. }
  split.
  - change (62 # 100)%Q with (inject_Z 62 * (1 # 100))%Q.
    apply round2_lower. unfold blend.
    destruct (consistency_values l (extractSummary lines)) as [-> | [-> | ->]];
      change (inject_Z 62) with (62 # 1)%Q; lra.
  - apply round2_bounds. unfold blend.
    destruct (consistency_values l (extractSummary lines)) as [-> | [-> | ->]]; split; lra.
Qed.

(** ** Preprocessing *)

(** The first code unit, if any, is not white space. *)
Definition no_leading_space (s : jsstring) : Prop :=
  match s with
  | c :: _ => is_space c = false
  | [] => True
  end.

Lemma trimStart_no_leading_space s : no_leading_space (trimStart s).
Proof.
  induction s as [|c s IH]; [exact I|]. cbn [trimStart].
  destruct (is_space c) eqn:Hc; [exact IH|exact Hc].
Qed.

Lemma trimStart_id s : no_leading_space s -> trimStart s = s.
Proof. destruct s as [|c s]; [reflexivity|]. cbn. intros ->. reflexivity. Qed.

(** [trimStart] drops a run of white space. *)
Lemma trimStart_split s :
  exists ws, s = ws ++ trimStart s /\ Forall (fun c => is_space c = true) ws.
Proof.
  induction s as [|c s (ws & Hs & Hws)]; [exists []; split; [reflexivity|constructor]|].
  cbn [trimStart]. destruct (is_space c) eqn:Hc.
  - exists (c :: ws). split; [cbn; f_equal; exact Hs|constructor; assumption].
  - exists []. split; [reflexivity|constructor].
Qed.

Lemma trimEnd_split s :
  exists ws, s = trimEnd s ++ ws /\ Forall (fun c => is_space c = true) ws.
Proof.
  destruct (trimStart_split (rev s)) as (ws & Hs & Hws).
  exists (rev ws). split.
  - unfold trimEnd. rewrite <- rev_app_distr, <- Hs, rev_involutive. reflexivity.
  - apply Forall_rev, Hws.
Qed.

Lemma trimEnd_no_leading_space s : no_leading_space s -> no_leading_space (trimEnd s).
Proof.
  intros Hs. destruct (trimEnd_split s) as (ws & Hsplit & _).
  destruct (trimEnd s) as [|c t]; [exact I|].
  rewrite Hsplit in Hs. exact Hs.
Qed.

Definition no_trailing_space (s : jsstring) : Prop := no_leading_space (rev s).

Lemma trimEnd_no_trailing_space s : no_trailing_space (trimEnd s).
Proof.
  unfold no_trailing_space, trimEnd. rewrite rev_involutive.
  apply trimStart_no_leading_space.
Qed.

Lemma trim_no_space s : no_leading_space (trim s) /\ no_trailing_space (trim s).
Proof.
  unfold trim. split.
  - apply trimEnd_no_leading_space, trimStart_no_leading_space.
  - apply trimEnd_no_trailing_space.
Qed.

Lemma trim_id s : no_leading_space s -> no_trailing_space s -> trim s = s.
Proof.
  intros Hl Ht. unfold trim. rewrite (trimStart_id s Hl).
  unfold trimEnd. rewrite (trimStart_id (rev s) Ht). apply rev_involutive.
Qed.

(** Trimming twice changes nothing more. *)
Lemma trim_idempotent s : trim (trim s) = trim s.
Proof. destruct (trim_no_space s). apply trim_id; assumption. Qed.

(** The code units of a trimmed string are code units of the string. *)
Lemma trimStart_subset (P : N -> Prop) s : Forall P s -> Forall P (trimStart s).
Proof.
  induction 1 as [|c s Hc Hs IH]; [constructor|]. cbn [trimStart].
  destruct (is_space c); [exact IH|constructor; assumption].
Qed.

Lemma trim_subset (P : N -> Prop) s : Forall P s -> Forall P (trim s).
Proof.
  intros Hs. unfold trim, trimEnd.
  apply Forall_rev, trimStart_subset, Forall_rev, trimStart_subset, Hs.
Qed.

Lemma normalize_newlines_no_cr s : Forall (fun c => c <> 13%N) (normalize_newlines s).
Proof.
  induction s as [|c s IH]; [constructor|].
  assert (Hother : c <> 13%N -> normalize_newlines (c :: s) = c :: normalize_newlines s).
  { intros Hc. destruct c as [|p]; [reflexivity|].
    cbn [normalize_newlines].
    repeat (match goal with q : positive |- _ => destruct q end;
            try reflexivity; try congruence). }
  destruct (N.eq_dec c 13%N) as [->|Hc].
  - destruct s as [|d s]; [repeat constructor; discriminate|].
    destruct (N.eq_dec d 10%N) as [->|Hd]; [exact IH|].
    assert (Hstep : normalize_newlines (13%N :: d :: s) = 10%N :: normalize_newlines (d :: s)).
    { destruct d as [|p]; [reflexivity|]. cbn [normalize_newlines].
      repeat (match goal with q : positive |- _ => destruct q end;
              try reflexivity; try congruence). }
    rewrite Hstep. constructor; [discriminate|exact IH].
  - rewrite (Hother Hc). constructor; assumption.
Qed.

(** X5: Every line that [preprocessText] returns is non-empty, has no white
    space at either end (so trimming it again changes nothing), contains no
    line feed and no carriage return, and does not start with a word of the
    skip list. *)
Theorem preprocessText_lines (text : jsstring) :
  Forall (fun line =>
            line <> [] /\ trim line = line /\
            Forall (fun c => c <> 10%N /\ c <> 13%N) line /\
            test Patterns.skip line = false)
         (preprocessText text).
Proof.
  unfold preprocessText. apply Forall_forall. intros line Hline.
  apply list_elem_of_filter in Hline as [Hkeep Hin].
  apply andb_true_iff in Hkeep as [Hne Hskip].
  apply list_elem_of_In, in_map_iff in Hin as (part & <- & Hpart).
  apply list_elem_of_In in Hpart.
  split; [|split; [|split]].
  - intros E. rewrite E in Hne. discriminate.
  - apply trim_idempotent.
  - apply trim_subset.
    pose proof (split_on_parts (N.eqb 10) _ _ (normalize_newlines_no_cr text)) as Hparts.
    rewrite Forall_forall in Hparts. specialize (Hparts part Hpart).
    eapply Forall_impl; [exact Hparts|]. intros c [Hcr Hlf].
    split; [|exact Hcr]. intros ->. discriminate.
  - apply negb_true_iff, Hskip.
Qed.

(** *** Blank text *)

Lemma trimStart_blank s : Forall (fun c => is_space c = true) s -> trimStart s = [].
Proof. induction 1 as [|c s Hc _ IH]; [reflexivity|]. cbn. rewrite Hc. exact IH. Qed.

Lemma trim_blank s : Forall (fun c => is_space c = true) s -> trim s = [].
Proof. intros Hs. unfold trim. rewrite trimStart_blank by exact Hs. reflexivity. Qed.

Lemma normalize_newlines_blank s :
  Forall (fun c => is_space c = true) s ->
  Forall (fun c => is_space c = true) (normalize_newlines s).
Proof.
  intros Hs.
  assert (H : forall n s, length s <= n -> Forall (fun c => is_space c = true) s ->
                Forall (fun c => is_space c = true) (normalize_newlines s)).
  { clear. induction n as [|n IH]; intros s Hlen Hs.
    - destruct s; [constructor|cbn in Hlen; lia].
    - destruct s as [|c s]; [constructor|].
      inversion Hs as [|? ? Hc Hrest]; subst. cbn in Hlen.
      assert (Hcases : normalize_newlines (c :: s) = normalize_newlines s
                       \/ normalize_newlines (c :: s) = 10%N :: normalize_newlines s
                       \/ normalize_newlines (c :: s) = c :: normalize_newlines s).
      { destruct c as [|p]; [right; right; reflexivity|].
        cbn [normalize_newlines].
        repeat (match goal with q : positive |- _ => destruct q end;
                try (right; right; reflexivity)).
        destruct s as [|d s]; [right; left; reflexivity|].
        destruct d as [|q]; [right; left; reflexivity|].
        repeat (match goal with q : positive |- _ => destruct q end;
                try (right; left; reflexivity)).
        left. reflexivity. }
      destruct Hcases as [-> | [-> | ->]].
      + apply IH; [lia|exact Hrest].
      + constructor; [reflexivity|apply IH; [lia|exact Hrest]].
      + constructor; [exact Hc|apply IH; [lia|exact Hrest]]. }
  apply (H (length s)); [lia|exact Hs].
Qed.

Lemma preprocessText_blank text :
  Forall (fun c => is_space c = true) text -> preprocessText text = [].
Proof.
  intros Hblank. unfold preprocessText.
  pose proof (split_on_parts (N.eqb 10) _ _ (normalize_newlines_blank text Hblank)) as Hparts.
  induction Hparts as [|part parts Hpart _ IH]; [reflexivity|].
  cbn [map]. rewrite filter_cons_False; [exact IH|].
  rewrite trim_blank; [cbn; discriminate|].
  eapply Forall_impl; [exact Hpart|]. intros c [Hc _]. exact Hc.
Qed.

(** X6: A text that is empty or made of white space only (blanks, tabs, line
    breaks) gives the empty receipt: no merchant, no date, no items, all
    amounts and the confidence 0. *)
Theorem parseReceiptText_blank (host_date : jsstring -> option jsstring) (text : jsstring) :
  Forall (fun c => is_space c = true) text ->
  parseReceiptText host_date text = createEmptyReceipt.
Proof.
  intros Hblank. unfold parseReceiptText. destruct text as [|c text]; [reflexivity|].
  cbv zeta. rewrite (preprocessText_blank _ Hblank). reflexivity.
Qed.

Lemma parseReceiptText_blank_witness :
  Forall (fun c => is_space c = true) [32%N; 9%N; 13%N; 10%N; 10%N; 32%N] /\
  parseReceiptText (fun _ => None) [32%N; 9%N; 13%N; 10%N; 10%N; 32%N] = createEmptyReceipt.
Proof.
  assert (H : Forall (fun c => is_space c = true) [32%N; 9%N; 13%N; 10%N; 10%N; 32%N])
    by (repeat constructor).
  split; [exact H|]. exact (parseReceiptText_blank (fun _ => None) _ H).
Defined.

(** ** Items and lines *)

(** The item pushed for one line, if the line is classified as an item. *)
Definition item_of_line (line : jsstring) : list Item :=
  match categorizeLine line with
  | ItemLine n p q c => [mkItem (cleanItemName n) p (num_or q (num 1)) line c]
  | _ => []
  end.

Lemma extractItems_from lines : forall acc,
  fold_left
    (fun items line =>
       match categorizeLine line with
       | ItemLine n p q c => items ++ [mkItem (cleanItemName n) p (num_or q (num 1)) line c]
       | _ => items
       end) lines acc
  = acc ++ flat_map item_of_line lines.
Proof.
  induction lines as [|line lines IH]; intros acc; cbn [fold_left flat_map].
  - rewrite app_nil_r. reflexivity.
  - rewrite IH. unfold item_of_line at 2.
    destruct (categorizeLine line); rewrite <- ?app_assoc; reflexivity.
Qed.

(** X7: [extractItems] handles each line on its own: the items of two lists
    of lines put together are the items of the first followed by those of
    the second; there is exactly one item for each line that is classified
    as an item, in the order of the lines, and its [raw] field is that
    line. *)
Theorem extractItems_per_line (lines more : list jsstring) :
  extractItems (lines ++ more) = extractItems lines ++ extractItems more /\
  map raw (extractItems lines)
  = filter (fun line => is_item (categorizeLine line) = true) lines /\
  length (extractItems lines) <= length lines.
Proof.
  unfold extractItems. rewrite !extractItems_from. cbn [app].
  split; [apply flat_map_app|].
  assert (Hraw : map raw (flat_map item_of_line lines)
                 = filter (fun line => is_item (categorizeLine line) = true) lines).
  { induction lines as [|line rest IH]; [reflexivity|].
    cbn [flat_map]. rewrite map_app, IH, filter_cons. unfold item_of_line.
    destruct (categorizeLine line); reflexivity. }
  split; [exact Hraw|].
  rewrite <- (length_map raw), Hraw. apply length_filter.
Qed.

(** ** The merchant *)

(** The test that a line has to pass to be taken as the merchant. *)
Definition merchant_like (line : jsstring) : bool :=
  test Patterns.merchant line && (2 <? length line)%nat && (length line <? 50)%nat
  && (negb (test Patterns.date line) && negb (test Patterns.price line)).

Lemma find_merchant_first lines :
  (find_merchant lines = [] /\ Forall (fun line => merchant_like line = false) lines) \/
  exists i line,
    lines !! i = Some line /\ merchant_like line = true /\
    find_merchant lines = trim line /\
    Forall (fun earlier => merchant_like earlier = false) (take i lines).
Proof.
  induction lines as [|line lines IH]; [left; split; [reflexivity|constructor]|].
  cbn [find_merchant]. fold (merchant_like line).
  destruct (merchant_like line) eqn:Hline.
  - right. exists 0, line. repeat split; [exact Hline|constructor].
  - destruct IH as [[Hnone Hall]|(i & l & Hl & Hlike & Hfind & Hbefore)].
    + left. split; [exact Hnone|constructor; assumption].
    + right. exists (S i), l. repeat split; try assumption.
      cbn [take]. constructor; assumption.
Qed.

(** X8: The merchant that [extractMetadata] returns is the first of the first
    five lines that looks like a merchant name (matches the merchant
    pattern, has 3 to 49 code units, holds no date and no price), trimmed;
    it is empty when none of these lines does. *)
Theorem extractMetadata_merchant (host_date : jsstring -> option jsstring)
  (lines : list jsstring) :
  let merchant := meta_merchant (extractMetadata host_date lines) in
  (merchant = [] /\ Forall (fun line => merchant_like line = false) (take 5 lines)) \/
  exists i line,
    i < 5 /\ lines !! i = Some line /\ merchant_like line = true /\
    merchant = trim line /\ merchant <> [] /\
    Forall (fun earlier => merchant_like earlier = false) (take i lines).
Proof.
  cbv zeta. unfold extractMetadata. cbn [meta_merchant].
  assert (Htake : take (Nat.min 5 (length lines)) lines = take 5 lines).
  { destruct (Nat.le_ge_cases 5 (length lines)) as [H|H].
    - rewrite Nat.min_l by exact H. reflexivity.
    - rewrite Nat.min_r by exact H. rewrite !take_ge by lia. reflexivity. }
  rewrite Htake.
  destruct (find_merchant_first (take 5 lines))
    as [[Hnone Hall]|(i & line & Hline & Hlike & Hfind & Hbefore)].
  - left. split; assumption.
  - right. exists i, line.
    assert (Hi : i < 5).
    { apply lookup_lt_Some in Hline. rewrite length_take in Hline. lia. }
    rewrite lookup_take_lt in Hline by exact Hi.
    rewrite take_take in Hbefore. replace (Nat.min i 5) with i in Hbefore by lia.
    repeat split; try assumption.
    rewrite Hfind. intros Hempty.
    (* a merchant line starts with a capital letter, so its trim is not empty *)
    unfold merchant_like in Hlike. rewrite !andb_true_iff in Hlike.
    destruct Hlike as [[[Htest _] _] _].
    unfold test in Htest. destruct (exec Patterns.merchant line) as [m|] eqn:Hm; [|discriminate].
    clear Htest. unfold exec in Hm.
    destruct line as [|c rest].
    + cbn in Hm. discriminate.
    + assert (Hc : is_space c = false).
      { destruct (is_space c) eqn:Hsp; [|reflexivity]. exfalso.
        (* the pattern is anchored: only the first position can match, and
           there the first code unit must be a capital letter *)
        assert (Hfirst : match_at Patterns.merchant [] (c :: rest) = None).
        { unfold match_at. destruct (run Patterns.merchant _ Some) as [st|] eqn:Hrun; [|reflexivity].
          exfalso. apply run_matches in Hrun as (st1 & Hmatch & _).
          unfold Patterns.merchant in Hmatch. cbn [Seq matches] in Hmatch.
          destruct Hmatch as (mid & [_ ->] & mid2 & Hchr & _).
          destruct Hchr as (c' & s' & Hrem & Hup & _).
          cbn in Hrem. injection Hrem as <- _.
          revert Hup Hsp. clear.
          unfold is_upper, in_range. rewrite andb_true_iff, !N.leb_le. intros [H1 H2].
          assert (Hb : (c < 91)%N) by lia.
          pose proof (check_below 91 (fun c => implb (is_space c) (negb (N.leb 65 c)))
                        ltac:(vm_compute; reflexivity) c Hb) as Hchk.
          cbv beta in Hchk. intros Hsp. rewrite Hsp in Hchk. cbn in Hchk.
          apply negb_true_iff, N.leb_gt in Hchk. lia. }
        cbn [search_from] in Hm. rewrite Hfirst in Hm.
        assert (Hlater : forall s before, before <> [] ->
                  search_from Patterns.merchant before s = None).
        { clear. induction s as [|d s IH]; intros before Hb; cbn [search_from].
          - destruct before; [congruence|]. reflexivity.
          - destruct before as [|b before']; [congruence|].
            assert (Hat : match_at Patterns.merchant (b :: before') (d :: s) = None) by reflexivity.
            rewrite Hat. apply IH. discriminate. }
        rewrite Hlater in Hm by discriminate. discriminate. }
      assert (Hts : trimStart (c :: rest) = c :: rest) by (cbn; rewrite Hc; reflexivity).
      unfold trim in Hempty. rewrite Hts in Hempty.
      destruct (trimEnd_split (c :: rest)) as (ws & Hsplit & Hws).
      rewrite Hempty in Hsplit. cbn in Hsplit. subst ws.
      inversion Hws as [|? ? Hc' _]; subst. congruence.
Qed.

(** ** More on the edit distance *)

Lemma lev_cell_ge_diff a b i : forall j,
  i - j <= lev_cell a b i j /\ j - i <= lev_cell a b i j.
Proof.
  induction i as [|i IHi]; intros j.
  - cbn. lia.
  - induction j as [|j IHj].
    + cbn. lia.
    + rewrite lev_cell_S. pose proof (IHi j). pose proof (IHi (S j)).
      destruct (bool_decide _); unfold min3; lia.
Qed.

Lemma lev_cell_diag a n : lev_cell a a n n = 0.
Proof.
  induction n as [|n IH]; [reflexivity|].
  rewrite lev_cell_S, bool_decide_eq_true_2 by reflexivity. exact IH.
Qed.

Lemma lev_cell_zero a b n :
  n <= length a -> n <= length b -> lev_cell a b n n = 0 -> take n a = take n b.
Proof.
  induction n as [|n IH]; intros Ha Hb Hzero; [reflexivity|].
  rewrite lev_cell_S in Hzero.
  destruct (bool_decide (a !! n = b !! n)) eqn:E.
  - apply bool_decide_eq_true in E.
    destruct (lookup_lt_is_Some_2 a n ltac:(lia)) as [x Hx].
    rewrite (take_S_r a n x Hx).
    rewrite E in Hx. rewrite (take_S_r b n x Hx).
    f_equal. apply IH; [lia|lia|exact Hzero].
  - unfold min3 in Hzero. lia.
Qed.

Lemma levenshteinDistance_zero_iff (a b : jsstring) :
  levenshteinDistance a b = 0 <-> a = b.
Proof.
  rewrite levenshteinDistance_cell. split.
  - intros Hzero.
    pose proof (lev_cell_ge_diff a b (length a) (length b)) as [H1 H2].
    assert (Hlen : length a = length b) by lia.
    rewrite <- Hlen in Hzero.
    pose proof (lev_cell_zero a b (length a) ltac:(lia) ltac:(lia) Hzero) as Htake.
    rewrite take_ge in Htake by lia. rewrite Hlen, take_ge in Htake by lia. exact Htake.
  - intros ->. apply lev_cell_diag.
Qed.

(** X9: [levenshteinDistance] is 0 exactly on equal strings. *)
Theorem levenshteinDistance_zero (a b : jsstring) :
  levenshteinDistance a b = 0 <-> a = b.
Proof. exact (levenshteinDistance_zero_iff a b). Qed.

(** X10: [levenshteinDistance] lies between the difference and the maximum of
    the two lengths; against the empty string it is the length of the other
    string. *)
Theorem levenshteinDistance_bounds (a b : jsstring) :
  length a - length b <= levenshteinDistance a b /\
  length b - length a <= levenshteinDistance a b /\
  levenshteinDistance a b <= Nat.max (length a) (length b) /\
  levenshteinDistance a [] = length a /\
  levenshteinDistance [] b = length b.
Proof.
  assert (H : forall x y,
            length x - length y <= levenshteinDistance x y /\
            length y - length x <= levenshteinDistance x y /\
            levenshteinDistance x y <= Nat.max (length x) (length y)).
  { intros x y. pose proof (levenshteinDistance_le_max x y).
    rewrite levenshteinDistance_cell in *.
    pose proof (lev_cell_ge_diff x y (length x) (length y)). tauto. }
  destruct (H a b) as (H1 & H2 & H3). repeat split; try assumption.
  - destruct (H a []) as (H4 & _ & H5). cbn [length] in *. lia.
  - destruct (H [] b) as (_ & H4 & H5). cbn [length] in *. lia.
Qed.

(** ** More on the similarity *)

(** The value of [calculateSimilarity] as a rational. *)
Definition similarity_value (a b : jsstring) : Q :=
  match calculateSimilarity a b with
  | Finite q => q
  | _ => 0
  end.

Lemma calculateSimilarity_finite a b :
  calculateSimilarity a b = Finite (similarity_value a b) /\
  (0 <= similarity_value a b <= 1)%Q.
Proof.
  unfold similarity_value. unfold calculateSimilarity. cbv zeta.
  set (s1 := trim (toLowerCase a)). set (s2 := trim (toLowerCase b)).
  destruct (str_eqb s1 s2); [split; [reflexivity|split; discriminate]|].
  destruct (Nat.max (length s1) (length s2) =? 0) eqn:Hmax;
    [split; [reflexivity|split; discriminate]|].
  apply Nat.eqb_neq in Hmax.
  pose proof (levenshteinDistance_le_max s1 s2) as Hle.
  unfold num_sub, num_div, num_neg, num_add, of_nat, num.
  rewrite Qzero_bool_inject_Z.
  destruct (Z.eqb_spec (Z.of_nat (Nat.max (length s1) (length s2))) 0) as [E|_]; [lia|].
  split; [reflexivity|]. apply ratio_bounds; lia.
Qed.

Lemma calculateSimilarity_one_iff (a b : jsstring) :
  num_equiv (calculateSimilarity a b) (num 1) <->
  trim (toLowerCase a) = trim (toLowerCase b).
Proof.
  unfold calculateSimilarity, str_eqb. cbv zeta.
  set (s1 := trim (toLowerCase a)). set (s2 := trim (toLowerCase b)).
  destruct (bool_decide (s1 = s2)) eqn:E.
  - apply bool_decide_eq_true in E. split; [intros _; exact E|intros _; reflexivity].
  - apply bool_decide_eq_false in E. split; [|intros H; contradiction].
    intros Hone. exfalso.
    assert (Hd : 1 <= levenshteinDistance s1 s2).
    { destruct (levenshteinDistance s1 s2) eqn:Hz; [|lia].
      apply levenshteinDistance_zero_iff in Hz. contradiction. }
    pose proof (levenshteinDistance_le_max s1 s2) as Hle.
    destruct (Nat.max (length s1) (length s2) =? 0) eqn:Hmax.
    { apply Nat.eqb_eq in Hmax. lia. }
    revert Hone. unfold num_sub, num_div, num_neg, num_add, of_nat, num.
    rewrite Qzero_bool_inject_Z.
    destruct (Z.eqb_spec (Z.of_nat (Nat.max (length s1) (length s2))) 0) as [E0|_]; [lia|].
    cbn [num_equiv]. intros Hone.
    assert (Hpos : (0 < inject_Z (Z.of_nat (levenshteinDistance s1 s2))
                        / inject_Z (Z.of_nat (Nat.max (length s1) (length s2))))%Q).
    { apply Qlt_shift_div_l.
      - rewrite <- (Zlt_Qlt 0). lia.
      - rewrite Qmult_0_l. rewrite <- (Zlt_Qlt 0). lia. }
    revert Hone Hpos.
    generalize (inject_Z (Z.of_nat (levenshteinDistance s1 s2))
                / inject_Z (Z.of_nat (Nat.max (length s1) (length s2))))%Q.
    intros x Hone Hpos. change (inject_Z 1) with 1%Q in Hone. lra.
Qed.

(** X11: [calculateSimilarity] is 1 exactly when the two names are equal once
    put in lower case and trimmed. *)
Theorem calculateSimilarity_one (a b : jsstring) :
  num_equiv (calculateSimilarity a b) (num 1) <->
  trim (toLowerCase a) = trim (toLowerCase b).
Proof. exact (calculateSimilarity_one_iff a b). Qed.

(** ** The best match in a catalog *)

(** What the loop has established after the entries [processed]. *)
Definition best_so_far (itemName : jsstring) (processed : list jsstring)
  (acc : option jsstring * number) : Prop :=
  match fst acc with
  | None =>
      snd acc = num 0 /\
      forall c, c ∈ processed -> (similarity_value itemName c < 8 # 10)%Q
  | Some best =>
      exists before after,
        processed = before ++ best :: after /\
        snd acc = calculateSimilarity itemName best /\
        (8 # 10 <= similarity_value itemName best)%Q /\
        (forall c, c ∈ before ->
                   (similarity_value itemName c < similarity_value itemName best)%Q) /\
        (forall c, c ∈ after ->
                   (similarity_value itemName c <= similarity_value itemName best)%Q)
  end.

Lemma Qle_bool_false x y : Qle_bool x y = false -> (y < x)%Q.
Proof.
  intros H. apply Qnot_le_lt. intros Hle. apply Qle_bool_iff in Hle. congruence.
Qed.

Lemma best_step_so_far itemName processed acc x :
  best_so_far itemName processed acc ->
  best_so_far itemName (processed ++ [x]) (best_step itemName acc x).
Proof.
  destruct acc as [bestMatch bestScore]. unfold best_so_far, best_step. cbn [fst snd].
  destruct (calculateSimilarity_finite itemName x) as [Hx [Hx0 Hx1]].
  rewrite Hx. set (v := similarity_value itemName x) in *.
  destruct bestMatch as [best|].
  - intros (before & after & -> & -> & Hthr & Hbefore & Hafter).
    destruct (calculateSimilarity_finite itemName best) as [Hb _].
    rewrite Hb. set (w := similarity_value itemName best) in *.
    unfold num_gtb, num_geb, num_ltb, num_leb, fuzzy_threshold, dec.
    destruct (Qle_bool v w) eqn:Hvw; cbn [negb andb fst snd].
    + apply Qle_bool_iff in Hvw.
      exists before, (after ++ [x]). rewrite <- app_assoc.
      split; [reflexivity|]. split; [first [reflexivity|symmetry; assumption]|]. split; [exact Hthr|].
      split; [exact Hbefore|].
      intros c Hc. apply elem_of_app in Hc as [Hc|Hc]; [exact (Hafter c Hc)|].
      apply list_elem_of_singleton in Hc as ->. exact Hvw.
    + apply Qle_bool_false in Hvw.
      destruct (Qle_bool (8 # 10) v) eqn:Hthr'; cbn [fst snd].
      * apply Qle_bool_iff in Hthr'.
        exists (before ++ best :: after), [].
        split; [reflexivity|]. split; [first [reflexivity|symmetry; assumption]|]. split; [exact Hthr'|]. split.
        -- intros c Hc. fold v.
           apply elem_of_app in Hc as [Hc|Hc].
           ++ specialize (Hbefore c Hc). lra.
           ++ apply elem_of_cons in Hc as [->|Hc]; [exact Hvw|].
              specialize (Hafter c Hc). lra.
        -- intros c Hc. apply elem_of_nil in Hc. contradiction.
      * apply Qle_bool_false in Hthr'. lra.
  - intros [-> Hall].
    unfold num_gtb, num_geb, num_ltb, num_leb, fuzzy_threshold, dec, num.
    destruct (Qle_bool v (inject_Z 0)) eqn:Hv0; cbn [negb andb fst snd].
    + apply Qle_bool_iff in Hv0. change (inject_Z 0) with 0%Q in Hv0.
      split; [reflexivity|]. intros c Hc.
      apply elem_of_app in Hc as [Hc|Hc]; [exact (Hall c Hc)|].
      apply list_elem_of_singleton in Hc as ->. fold v. lra.
    + destruct (Qle_bool (8 # 10) v) eqn:Hthr; cbn [fst snd].
      * apply Qle_bool_iff in Hthr.
        exists processed, [].
        split; [reflexivity|]. split; [first [reflexivity|symmetry; assumption]|]. split; [exact Hthr|]. split.
        -- intros c Hc. fold v. specialize (Hall c Hc). lra.
        -- intros c Hc. apply elem_of_nil in Hc. contradiction.
      * apply Qle_bool_false in Hthr.
        split; [reflexivity|]. intros c Hc.
        apply elem_of_app in Hc as [Hc|Hc]; [exact (Hall c Hc)|].
        apply list_elem_of_singleton in Hc as ->. exact Hthr.
Qed.

Lemma best_loop_so_far itemName catalog :
  forall processed acc,
    best_so_far itemName processed acc ->
    best_so_far itemName (processed ++ catalog) (fold_left (best_step itemName) catalog acc).
Proof.
  induction catalog as [|x catalog IH]; intros processed acc Hacc; cbn [fold_left].
  - rewrite app_nil_r. exact Hacc.
  - replace (processed ++ x :: catalog) with ((processed ++ [x]) ++ catalog)
      by (rewrite <- app_assoc; reflexivity).
    apply IH, best_step_so_far, Hacc.
Qed.

(** X12: [findBestMatch] returns no match exactly when every catalog entry is
    less than 0.8 similar to the name, and then the score is 0 and the
    result counts as fuzzy.  Otherwise the match is the first catalog entry
    of greatest similarity, that similarity is the score and is at least
    0.8, and the result is not fuzzy exactly when name and match are equal
    once put in lower case and trimmed. *)
Theorem findBestMatch_best (itemName : jsstring) (catalog : list jsstring) :
  let result := findBestMatch itemName catalog in
  match bm_match result with
  | None =>
      bm_score result = num 0 /\ isFuzzy result = true /\
      forall c, c ∈ catalog -> (similarity_value itemName c < 8 # 10)%Q
  | Some best =>
      (exists before after,
         catalog = before ++ best :: after /\
         (forall c, c ∈ before ->
                    (similarity_value itemName c < similarity_value itemName best)%Q) /\
         (forall c, c ∈ after ->
                    (similarity_value itemName c <= similarity_value itemName best)%Q)) /\
      bm_score result = calculateSimilarity itemName best /\
      (8 # 10 <= similarity_value itemName best)%Q /\
      (isFuzzy result = false <-> trim (toLowerCase itemName) = trim (toLowerCase best))
  end.
Proof.
  cbv zeta. unfold findBestMatch.
  pose proof (best_loop_so_far itemName catalog [] (None, num 0)) as Hloop.
  cbn [app] in Hloop.
  assert (Hstart : best_so_far itemName [] (None, num 0)).
  { split; [reflexivity|]. intros c Hc. apply elem_of_nil in Hc. contradiction. }
  specialize (Hloop Hstart).
  destruct (fold_left (best_step itemName) catalog (None, num 0)) as [bestMatch bestScore].
  unfold best_so_far in Hloop. cbn [fst snd] in Hloop. cbn [bm_match bm_score isFuzzy].
  destruct bestMatch as [best|].
  - destruct Hloop as (before & after & Hcat & Hscore & Hthr & Hbefore & Hafter).
    split; [exists before, after; split; [exact Hcat|split; assumption]|].
    split; [exact Hscore|]. split; [exact Hthr|].
    rewrite <- calculateSimilarity_one_iff. rewrite Hscore.
    destruct (calculateSimilarity_finite itemName best) as [-> [H0 H1]].
    cbn [num_ltb num num_equiv]. change (inject_Z 1) with 1%Q.
    destruct (Qle_bool 1 (similarity_value itemName best)) eqn:E; cbn [negb].
    + apply Qle_bool_iff in E. split; [intros _; lra|reflexivity].
    + apply Qle_bool_false in E. split; [discriminate|]. intros Heq. lra.
  - destruct Hloop as [-> Hall]. split; [reflexivity|]. split; [reflexivity|exact Hall].
Qed.

(** ** The groups of [mergeSimilarItems] *)

Lemma filter_split (similar_to : Item -> bool) (l : list Item) :
  filter (fun x => similar_to x = true) l ++ filter (fun x => similar_to x = false) l ≡ₚ l.
Proof.
  induction l as [|x l IH]; [reflexivity|].
  destruct (similar_to x) eqn:E.
  - rewrite filter_cons_True by exact E. rewrite filter_cons_False by congruence.
    cbn [app]. constructor. exact IH.
  - rewrite filter_cons_False by congruence. rewrite filter_cons_True by exact E.
    rewrite <- Permutation_middle. constructor. exact IH.
Qed.

(** What holds of the groups of a list of free items: they partition the
    list, each starts with its seed followed by items similar to it, and no
    item of a later group is similar to the seed of an earlier one. *)
Inductive grouping (thr : number) : list Item -> list (list Item) -> Prop :=
| grouping_nil : grouping thr [] []
| grouping_cons seed members others rest groups :
    Forall (fun other => similar thr seed other = true) members ->
    Forall (fun other => similar thr seed other = false) others ->
    members ++ others ≡ₚ rest ->
    grouping thr others groups ->
    grouping thr (seed :: rest) ((seed :: members) :: groups).

Lemma greedy_groups_grouping thr fuel :
  forall free, length free <= fuel -> grouping thr free (greedy_groups thr fuel free).
Proof.
  induction fuel as [|fuel IH]; intros free Hlen.
  - destruct free; [constructor|cbn in Hlen; lia].
  - destruct free as [|seed rest]; [constructor|].
    cbn [greedy_groups].
    apply grouping_cons with (others := filter (fun other => similar thr seed other = false) rest).
    + apply list.Forall_forall. intros x Hx. apply list_elem_of_filter in Hx. tauto.
    + apply list.Forall_forall. intros x Hx. apply list_elem_of_filter in Hx. tauto.
    + apply filter_split.
    + apply IH.
      pose proof (length_filter (fun other => similar thr seed other = false) rest).
      cbn [length] in Hlen. lia.
Qed.

Lemma grouping_concat thr free groups :
  grouping thr free groups -> concat groups ≡ₚ free.
Proof.
  induction 1 as [|seed members others rest groups Hm Ho Hperm Hg IH]; [reflexivity|].
  cbn [concat app]. constructor. rewrite IH. exact Hperm.
Qed.

Lemma grouping_length thr free groups :
  grouping thr free groups -> length groups <= length free.
Proof.
  induction 1 as [|seed members others rest groups Hm Ho Hperm Hg IH]; [reflexivity|].
  cbn [length]. apply Permutation_length in Hperm. rewrite length_app in Hperm. lia.
Qed.

(** X13: [mergeSimilarItems] partitions the items: the groups behind its result
    hold every item exactly once, so it returns at most as many items as it
    was given, and none only for an empty list; each group is its seed
    followed by items similar to the seed, and the seeds of later groups
    are not similar to the seeds of earlier ones. *)
Theorem mergeSimilarItems_partition (items : list Item) (similarityThreshold : number) :
  let groups := groups_of similarityThreshold items in
  mergeSimilarItems items similarityThreshold = map merge_group groups /\
  concat groups ≡ₚ items /\
  length (mergeSimilarItems items similarityThreshold) <= length items /\
  (mergeSimilarItems items similarityThreshold = [] <-> items = []) /\
  grouping similarityThreshold items groups.
Proof.
  cbv zeta.
  pose proof (greedy_groups_grouping similarityThreshold (length items) items (le_n _)) as Hg.
  fold (groups_of similarityThreshold items) in Hg.
  rewrite mergeSimilarItems_groups_of.
  split; [reflexivity|]. split; [exact (grouping_concat _ _ _ Hg)|].
  split; [rewrite length_map; exact (grouping_length _ _ _ Hg)|].
  split; [|exact Hg].
  destruct Hg; cbn [map]; split; congruence.
Qed.

Lemma filter_similar_none (similar_to : Item -> bool) (l : list Item) :
  (forall x, similar_to x = false) ->
  filter (fun x => similar_to x = true) l = [] /\
  filter (fun x => similar_to x = false) l = l.
Proof.
  intros Hnone. induction l as [|x l [IH1 IH2]]; [split; reflexivity|].
  rewrite filter_cons_False by (rewrite Hnone; discriminate).
  rewrite filter_cons_True by apply Hnone. rewrite IH1, IH2. split; reflexivity.
Qed.

Lemma filter_similar_all (similar_to : Item -> bool) (l : list Item) :
  (forall x, similar_to x = true) ->
  filter (fun x => similar_to x = true) l = l /\
  filter (fun x => similar_to x = false) l = [].
Proof.
  intros Hall. induction l as [|x l [IH1 IH2]]; [split; reflexivity|].
  rewrite filter_cons_True by apply Hall.
  rewrite filter_cons_False by (rewrite Hall; discriminate).
  rewrite IH1, IH2. split; reflexivity.
Qed.

(** The groups under a threshold that no similarity reaches, and under one
    that every similarity reaches. *)
Lemma groups_of_none thr items :
  (forall a b, similar thr a b = false) ->
  groups_of thr items = map (fun item => [item]) items.
Proof.
  intros Hnone. induction items as [|item items IH]; [reflexivity|].
  rewrite groups_of_cons.
  destruct (filter_similar_none (similar thr item) items (Hnone item)) as [-> ->].
  rewrite IH. reflexivity.
Qed.

Lemma groups_of_all thr item items :
  (forall a b, similar thr a b = true) ->
  groups_of thr (item :: items) = [item :: items].
Proof.
  intros Hall. rewrite groups_of_cons.
  destruct (filter_similar_all (similar thr item) items (Hall item)) as [-> ->].
  reflexivity.
Qed.

Lemma similar_above thr a b : num_leb thr (num 1) = false -> similar thr a b = false.
Proof.
  intros Hthr. unfold similar, num_geb.
  destruct (calculateSimilarity_finite (name a) (name b)) as [-> [_ H1]].
  destruct thr as [|s|q]; [reflexivity|exact Hthr|].
  cbn [num_leb num] in *. destruct (Qle_bool q (similarity_value (name a) (name b))) eqn:E;
    [|reflexivity].
  apply Qle_bool_iff in E.
  assert (Hq : Qle_bool q (inject_Z 1) = true).
  { apply Qle_bool_iff. change (inject_Z 1) with 1%Q. lra. }
  congruence.
Qed.

Lemma similar_below thr a b : num_leb thr (num 0) = true -> similar thr a b = true.
Proof.
  intros Hthr. unfold similar, num_geb.
  destruct (calculateSimilarity_finite (name a) (name b)) as [-> [H0 _]].
  destruct thr as [|s|q]; [discriminate|exact Hthr|].
  cbn [num_leb num] in *. apply Qle_bool_iff in Hthr. apply Qle_bool_iff.
  change (inject_Z 0) with 0%Q in Hthr. lra.
Qed.

(** X14: With a threshold that is not at most 1 (a greater number or NaN)
    [mergeSimilarItems] merges nothing, not even items of the same name:
    every item comes back as a group of its own. *)
Theorem mergeSimilarItems_threshold_above (items : list Item) (similarityThreshold : number) :
  num_leb similarityThreshold (num 1) = false ->
  mergeSimilarItems items similarityThreshold = map (fun item => merge_group [item]) items.
Proof.
  intros Hthr. rewrite mergeSimilarItems_groups_of.
  rewrite groups_of_none by (intros a b; apply similar_above, Hthr).
  rewrite map_map. reflexivity.
Qed.

Lemma mergeSimilarItems_threshold_above_witness :
  let soda := mkItem (str "Soda") (num 3) (num 1) (str "Soda $3.00") (num 1) in
  num_leb (dec 11 10) (num 1) = false /\
  mergeSimilarItems [soda; soda] (dec 11 10) = map (fun item => merge_group [item]) [soda; soda].
Proof.
  cbv zeta. split; [reflexivity|].
  apply (mergeSimilarItems_threshold_above _ (dec 11 10)). reflexivity.
Defined.

(** X15: With a threshold of at most 0 [mergeSimilarItems] merges everything: a
    list that is not empty comes back as one item. *)
Theorem mergeSimilarItems_threshold_below (item : Item) (items : list Item)
  (similarityThreshold : number) :
  num_leb similarityThreshold (num 0) = true ->
  mergeSimilarItems (item :: items) similarityThreshold = [merge_group (item :: items)].
Proof.
  intros Hthr. rewrite mergeSimilarItems_groups_of.
  rewrite groups_of_all by (intros a b; apply similar_below, Hthr).
  reflexivity.
Qed.

Lemma mergeSimilarItems_threshold_below_witness :
  let soda := mkItem (str "Soda") (num 3) (num 1) (str "Soda $3.00") (num 1) in
  let wings := mkItem (str "Wings") (num 12) (num 2) (str "2x Wings $12.00") (dec 95 100) in
  num_leb (num 0) (num 0) = true /\
  mergeSimilarItems [soda; wings] (num 0) = [merge_group [soda; wings]].
Proof.
  cbv zeta. split; [reflexivity|].
  apply (mergeSimilarItems_threshold_below _ _ (num 0)). reflexivity.
Defined.

(** ** Quantities under merging *)

(** A whole number, and its value. *)
Definition whole (x : number) : Prop := exists z, x = num z.
Definition whole_value (x : number) : Z :=
  match x with
  | Finite q => Qfloor q
  | _ => 0
  end.

Definition Zsum (l : list Z) : Z := fold_right Z.add 0%Z l.

Lemma whole_value_num z : whole_value (num z) = z.
Proof. unfold whole_value, num. apply Qfloor_Z. Qed.

Lemma num_add_whole a b : num_add (num a) (num b) = num (a + b).
Proof.
  unfold num_add, num, inject_Z, Qplus. cbn [Qnum Qden]. f_equal.
  rewrite !Z.mul_1_r. reflexivity.
Qed.

Lemma Zsum_cons x l : Zsum (x :: l) = (x + Zsum l)%Z.
Proof. reflexivity. Qed.

Lemma Zsum_app l1 l2 : Zsum (l1 ++ l2) = (Zsum l1 + Zsum l2)%Z.
Proof.
  induction l1 as [|x l1 IH]; [reflexivity|].
  cbn [app]. rewrite !Zsum_cons, IH. lia.
Qed.

Lemma Zsum_perm l1 l2 : l1 ≡ₚ l2 -> Zsum l1 = Zsum l2.
Proof.
  induction 1 as [|x l1 l2 _ IH|x y l|l1 l2 l3 _ IH1 _ IH2];
    rewrite ?Zsum_cons; [reflexivity|lia|lia|congruence].
Qed.

Definition quantities (group : list Item) : list Z :=
  map (fun item => whole_value (quantity item)) group.

Lemma sum_quantity_whole group :
  Forall (fun item => whole (quantity item)) group ->
  forall acc,
    fold_left (fun sum item => num_add sum (quantity item)) group (num acc)
    = num (acc + Zsum (quantities group)).
Proof.
  induction 1 as [|item group [z Hz] _ IH]; intros acc; cbn [fold_left quantities map].
  - change (Zsum []) with 0%Z. rewrite Z.add_0_r. reflexivity.
  - rewrite Zsum_cons, Hz, num_add_whole, whole_value_num. fold (quantities group).
    rewrite IH. f_equal. lia.
Qed.

Lemma merged_quantities_whole groups :
  Forall (fun item => whole (quantity item)) (concat groups) ->
  Forall (fun m => whole (merged_quantity m)) (map merge_group groups) /\
  Zsum (map (fun m => whole_value (merged_quantity m)) (map merge_group groups))
  = Zsum (quantities (concat groups)).
Proof.
  induction groups as [|group groups IH]; intros Hall; [split; [constructor|reflexivity]|].
  cbn [concat] in Hall. apply Forall_app in Hall as [Hgroup Hrest].
  destruct (IH Hrest) as [IH1 IH2].
  assert (Hq : merged_quantity (merge_group group) = num (Zsum (quantities group))).
  { unfold merge_group. cbn [merged_quantity]. rewrite (sum_quantity_whole group Hgroup 0).
    reflexivity. }
  cbn [map concat]. split.
  - constructor; [eexists; exact Hq|exact IH1].
  - unfold quantities in *. rewrite map_app, Zsum_app, Zsum_cons.
    rewrite Hq, whole_value_num, IH2. reflexivity.
Qed.

(** X16: Merging conserves the total quantity: when the quantities of the
    items are whole numbers, none negative, that add up to 2^53 at most,
    every merged item has a whole number as quantity and the quantities of
    the merged items add up to those of the items.  Up to 2^53 every sum
    that the code forms is a whole number that binary64 holds exactly. *)
Theorem mergeSimilarItems_quantities (items : list Item) (similarityThreshold : number) :
  Forall (fun item => exists z, quantity item = num z /\ (0 <= z)%Z) items ->
  (Zsum (quantities items) <= 2 ^ 53)%Z ->
  let merged := mergeSimilarItems items similarityThreshold in
  Forall (fun m => whole (merged_quantity m)) merged /\
  Zsum (map (fun m => whole_value (merged_quantity m)) merged) = Zsum (quantities items).
Proof.
  intros Hcount _. cbv zeta.
  assert (Hall : Forall (fun item => whole (quantity item)) items).
  { eapply Forall_impl; [exact Hcount|]. intros item (z & Hz & _). exists z. exact Hz. }
  rewrite mergeSimilarItems_groups_of.
  pose proof (greedy_groups_grouping similarityThreshold (length items) items (le_n _)) as Hg.
  fold (groups_of similarityThreshold items) in Hg.
  apply grouping_concat in Hg.
  assert (Hall' : Forall (fun item => whole (quantity item))
                         (concat (groups_of similarityThreshold items))).
  { rewrite Hg. exact Hall. }
  destruct (merged_quantities_whole _ Hall') as [H1 H2].
  split; [exact H1|]. rewrite H2. apply Zsum_perm. unfold quantities.
  apply Permutation_map. exact Hg.
Qed.

Lemma mergeSimilarItems_quantities_witness :
  let wings := mkItem (str "Chicken Wings") (num 12) (num 2) [] (dec 9 10) in
  let wing := mkItem (str "Chicken Wing") (num 11) (num 1) [] (dec 8 10) in
  let soda := mkItem (str "Soda") (num 3) (num 4) [] (num 1) in
  let items := [wings; soda; wing] in
  Forall (fun item => exists z, quantity item = num z /\ (0 <= z)%Z) items /\
  (Zsum (quantities items) <= 2 ^ 53)%Z /\
  Zsum (map (fun m => whole_value (merged_quantity m)) (mergeSimilarItems items (dec 85 100)))
  = 7%Z.
Proof.
  cbv zeta.
  assert (H : Forall (fun item => exists z, quantity item = num z /\ (0 <= z)%Z)
                [mkItem (str "Chicken Wings") (num 12) (num 2) [] (dec 9 10);
                 mkItem (str "Soda") (num 3) (num 4) [] (num 1);
                 mkItem (str "Chicken Wing") (num 11) (num 1) [] (dec 8 10)]).
  { repeat constructor; eexists; (split; [reflexivity|lia]). }
  assert (Hsum : (Zsum (quantities
                [mkItem (str "Chicken Wings") (num 12) (num 2) [] (dec 9 10);
                 mkItem (str "Soda") (num 3) (num 4) [] (num 1);
                 mkItem (str "Chicken Wing") (num 11) (num 1) [] (dec 8 10)]) <= 2 ^ 53)%Z).
  { vm_compute. discriminate. }
  split; [exact H|]. split; [exact Hsum|].
  exact (eq_trans (proj2 (mergeSimilarItems_quantities _ (dec 85 100) H Hsum)) eq_refl).
Defined.

(** ** The edit distance of the smaller parser *)

(** Neighbouring cells of the recurrence differ by at most one. *)
Lemma lev_cell_neighbours a b i : forall j,
  lev_cell a b i j <= lev_cell a b (S i) j + 1 /\
  lev_cell a b (S i) j <= lev_cell a b i j + 1 /\
  lev_cell a b i j <= lev_cell a b i (S j) + 1 /\
  lev_cell a b i (S j) <= lev_cell a b i j + 1.
Proof.
  induction i as [|i IHi].
  - intros j. induction j as [|j IHj].
    + cbn. lia.
    + rewrite lev_cell_S. change (lev_cell a b 0 (S (S j))) with (S (S j)).
      change (lev_cell a b 0 (S j)) with (S j) in *.
      change (lev_cell a b 0 j) with j in *.
      destruct (bool_decide _); unfold min3; lia.
  - assert (Hrow : forall j,
              lev_cell a b (S i) j <= lev_cell a b (S i) (S j) + 1 /\
              lev_cell a b (S i) (S j) <= lev_cell a b (S i) j + 1).
    { intros j. pose proof (IHi j) as (A1 & B1 & C1 & D1).
      rewrite lev_cell_S. destruct (bool_decide _); unfold min3; lia. }
    intros j. induction j as [|j IHj].
    + pose proof (Hrow 0). rewrite !lev_cell_0_r in *. lia.
    + pose proof (Hrow j) as [R1 R2]. pose proof (Hrow (S j)) as [R3 R4].
      destruct IHj as (A1 & B1 & _ & _).
      rewrite (lev_cell_S a b (S i) j).
      destruct (bool_decide _); unfold min3; lia.
Qed.

(** The recurrence in the form that [levenshtein] uses, with the minimum
    taken also when the two code units agree. *)
Lemma lev_cell_lite a b i j :
  min3 (lev_cell a b i (S j) + 1) (lev_cell a b (S i) j + 1)
       (lev_cell a b i j + (if bool_decide (a !! i = b !! j) then 0 else 1))
  = lev_cell a b (S i) (S j).
Proof.
  rewrite lev_cell_S. pose proof (lev_cell_neighbours a b i j) as (A1 & B1 & C1 & D1).
  destruct (bool_decide _); unfold min3; lia.
Qed.

Section LiteTable.

Variables (a b : jsstring).
Let m := length a.
Let n := length b.

(** The first [len] cells of row [k]. *)
Definition cells (k len : nat) : list Lite.jsval :=
  map (fun j => Lite.Num (lev_cell a b k j)) (seq 0 len).

Lemma length_cells k len : length (cells k len) = len.
Proof. unfold cells. rewrite length_map, length_seq. reflexivity. Qed.

Lemma cells_index k len j :
  j < len -> Lite.js_index Lite.Undefined (cells k len) j = Lite.Num (lev_cell a b k j).
Proof.
  intros Hj. unfold Lite.js_index, cells.
  rewrite list_lookup_fmap, lookup_seq_lt by exact Hj. reflexivity.
Qed.

Lemma cells_push k len :
  Lite.js_assign Lite.Undefined (cells k len) len (Lite.Num (lev_cell a b k len))
  = cells k (S len).
Proof.
  unfold Lite.js_assign. rewrite length_cells, Nat.ltb_irrefl, Nat.sub_diag.
  unfold cells. rewrite seq_S, map_app. reflexivity.
Qed.

(** The table with the rows of widths [width]. *)
Definition rows (width : nat -> nat) (tmp : Lite.table) : Prop :=
  length tmp = S m /\
  forall k, k <= m -> tmp !! k = Some (Some (cells k (width k))).

Lemma rows_row width tmp k :
  rows width tmp -> k <= m -> Lite.row_of tmp k = Some (cells k (width k)).
Proof.
  intros [_ Hrows] Hk. unfold Lite.row_of, Lite.js_index. rewrite (Hrows k Hk). reflexivity.
Qed.

Lemma rows_ext width width' tmp :
  (forall k, k <= m -> width k = width' k) -> rows width tmp -> rows width' tmp.
Proof.
  intros Hext [Hlen Hrows]. split; [exact Hlen|].
  intros k Hk. rewrite <- (Hext k Hk). apply Hrows, Hk.
Qed.

(** One more cell in row [i]. *)
Lemma set_cell_rows width tmp i :
  rows width tmp -> i <= m ->
  exists tmp',
    Lite.set_cell tmp i (width i) (Lite.Num (lev_cell a b i (width i))) = Some tmp' /\
    rows (fun k => if decide (k = i) then S (width i) else width k) tmp'.
Proof.
  intros Hrows Hi. unfold Lite.set_cell. rewrite (rows_row _ _ _ Hrows Hi).
  cbn [mbind option_bind]. rewrite cells_push. eexists. split; [reflexivity|].
  destruct Hrows as [Hlen Hrows]. split; [rewrite length_insert; exact Hlen|].
  intros k Hk. destruct (decide (k = i)) as [->|Hne].
  - rewrite list_lookup_insert_eq by lia. reflexivity.
  - rewrite list_lookup_insert_ne by congruence. apply Hrows, Hk.
Qed.

(** The widths while row [i] is being filled and column [j] is next. *)
Definition width_at (i j k : nat) : nat :=
  if (k <? i)%nat then S n else if (k =? i)%nat then j else 1.

Lemma cell_step_rows i j tmp :
  1 <= i <= m -> 1 <= j <= n ->
  rows (width_at i j) tmp ->
  exists tmp', Lite.cell_step a b i tmp j = Some tmp' /\ rows (width_at i (S j)) tmp'.
Proof.
  intros Hi Hj Hrows. unfold Lite.cell_step.
  rewrite (rows_row _ _ _ Hrows) by lia. rewrite (rows_row _ _ _ Hrows) by lia.
  cbn [mbind option_bind].
  assert (Hprev : width_at i j (i - 1) = S n).
  { unfold width_at. destruct (Nat.ltb_spec (i - 1) i); [reflexivity|lia]. }
  assert (Hcur : width_at i j i = j).
  { unfold width_at. rewrite Nat.ltb_irrefl, Nat.eqb_refl. reflexivity. }
  rewrite Hprev, Hcur. rewrite !cells_index by lia.
  destruct i as [|i0]; [lia|]. destruct j as [|j0]; [lia|].
  cbn [Nat.sub]. rewrite !Nat.sub_0_r.
  cbn [Lite.js_add Lite.Math_min3]. rewrite lev_cell_lite.
  destruct (set_cell_rows _ _ (S i0) Hrows ltac:(lia)) as (tmp' & Hset & Hrows').
  rewrite Hcur in Hset. exists tmp'. split; [exact Hset|].
  eapply rows_ext; [|exact Hrows']. intros k Hk. cbv beta. unfold width_at.
  destruct (decide (k = S i0)) as [->|Hne].
  - rewrite Nat.ltb_irrefl, Nat.eqb_refl. reflexivity.
  - destruct (k <? S i0)%nat; [reflexivity|].
    destruct (Nat.eqb_spec k (S i0)); [contradiction|reflexivity].
Qed.

(** The first loop builds the rows, each with its first cell. *)
Lemma first_column :
  rows (fun _ => 1)
       (fold_left (fun tmp i => Lite.js_assign None tmp i (Some [Lite.Num i]))
                  (seq 0 (m + 1)) []).
Proof.
  pose proof (fold_seq_invariant a b
                (fun tmp i => Lite.js_assign None tmp i (Some [Lite.Num i]))
                (fun k tmp => tmp = map (fun i => Some [Lite.Num i]) (seq 0 k))
                (m + 1) 0 [] eq_refl) as H.
  cbn [Nat.add] in H. rewrite H.
  - split; [rewrite length_map, length_seq; lia|].
    intros k Hk. rewrite list_lookup_fmap, lookup_seq_lt by lia.
    cbn. unfold cells. cbn. rewrite lev_cell_0_r. reflexivity.
  - intros k y _ ->. unfold Lite.js_assign.
    rewrite length_map, length_seq, Nat.ltb_irrefl, Nat.sub_diag.
    rewrite seq_S, map_app. reflexivity.
Qed.

(** The second loop fills the first row. *)
Lemma first_row tmp :
  rows (fun _ => 1) tmp ->
  exists tmp',
    fold_left (fun acc j => tmp ← acc; Lite.set_cell tmp 0 j (Lite.Num j))
              (seq 0 (n + 1)) (Some tmp) = Some tmp' /\
    rows (width_at 1 1) tmp'.
Proof.
  intros Hrows.
  pose proof (fold_seq_invariant a b
                (fun acc j => tmp ← acc; Lite.set_cell tmp 0 j (Lite.Num j))
                (fun k acc => exists tmp',
                     acc = Some tmp' /\
                     rows (fun i => if decide (i = 0) then Nat.max 1 k else 1) tmp')
                (n + 1) 0 (Some tmp)) as H.
  destruct H as (tmp' & Htmp' & Hrows').
  - exists tmp. split; [reflexivity|]. eapply rows_ext; [|exact Hrows].
    intros k _. destruct (decide (k = 0)); reflexivity.
  - intros k acc Hk (tmp1 & -> & Hrows1). cbn [mbind option_bind].
    destruct k as [|k].
    + (* the cell is there already *)
      unfold Lite.set_cell. rewrite (rows_row _ _ _ Hrows1) by lia.
      cbn [mbind option_bind]. eexists. split; [reflexivity|].
      destruct Hrows1 as [Hlen Hrows1]. split; [rewrite length_insert; exact Hlen|].
      intros i Hi. destruct (decide (i = 0)) as [->|Hne].
      * rewrite list_lookup_insert_eq by lia. reflexivity.
      * rewrite list_lookup_insert_ne by congruence.
        rewrite (Hrows1 i Hi). destruct (decide (i = 0)); [contradiction|reflexivity].
    + destruct (set_cell_rows _ _ 0 Hrows1 ltac:(lia)) as (tmp2 & Hset & Hrows2).
      cbv beta in Hset. cbn [decide_rel] in Hset.
      destruct (decide (0 = 0)) as [_|Hne]; [|contradiction].
      replace (Nat.max 1 (S k)) with (S k) in Hset by lia.
      change (lev_cell a b 0 (S k)) with (S k) in Hset.
      exists tmp2. split; [exact Hset|].
      eapply rows_ext; [|exact Hrows2]. intros i _. cbv beta.
      destruct (decide (i = 0)) as [->|Hne]; [|reflexivity].
      destruct (decide (0 = 0)) as [_|Hne]; [lia|contradiction].
  - exists tmp'. split; [exact Htmp'|]. eapply rows_ext; [|exact Hrows'].
    intros k _. cbv beta. unfold width_at.
    destruct (decide (k = 0)) as [->|Hne]; [cbn; lia|].
    destruct k as [|[|k]]; [contradiction|reflexivity|reflexivity].
Qed.

(** The inner loop fills row [i]. *)
Lemma fill_row i acc :
  1 <= i <= m ->
  (exists tmp, acc = Some tmp /\ rows (width_at i 1) tmp) ->
  exists tmp',
    fold_left (fun acc j => tmp ← acc; Lite.cell_step a b i tmp j) (seq 1 n) acc = Some tmp' /\
    rows (width_at (S i) 1) tmp'.
Proof.
  intros Hi Hacc.
  pose proof (fold_seq_invariant a b
                (fun acc j => tmp ← acc; Lite.cell_step a b i tmp j)
                (fun j acc => exists tmp, acc = Some tmp /\ rows (width_at i j) tmp)
                n 1 acc Hacc) as H.
  destruct H as (tmp' & Htmp' & Hrows').
  - intros j acc' Hj (tmp1 & -> & Hrows1). cbn [mbind option_bind].
    apply cell_step_rows; [exact Hi|lia|exact Hrows1].
  - exists tmp'. split; [exact Htmp'|]. eapply rows_ext; [|exact Hrows'].
    intros k _. unfold width_at.
    destruct (Nat.ltb_spec k i), (Nat.ltb_spec k (S i)); try lia; try reflexivity.
    + destruct (Nat.eqb_spec k i); [subst; lia|lia].
    + destruct (Nat.eqb_spec k i), (Nat.eqb_spec k (S i)); try lia; reflexivity.
Qed.

(** X17: [levenshtein] of the smaller parser never throws and never returns
    [NaN] or [undefined]: on all strings it returns the same distance as
    [levenshteinDistance] of the full parser. *)
Theorem levenshtein_levenshteinDistance :
  Lite.levenshtein a b = Some (Lite.Num (levenshteinDistance a b)).
Proof.
  unfold Lite.levenshtein. fold m n. cbv zeta.
  destruct (first_row _ first_column) as (tmp1 & -> & Hrows1).
  cbn [mbind option_bind].
  pose proof (fold_seq_invariant a b
                (fun acc i =>
                   fold_left (fun acc j => tmp ← acc; Lite.cell_step a b i tmp j) (seq 1 n) acc)
                (fun i acc => exists tmp, acc = Some tmp /\ rows (width_at i 1) tmp)
                m 1 (Some tmp1)) as H.
  destruct H as (tmp2 & -> & Hrows2).
  - exists tmp1. split; [reflexivity|exact Hrows1].
  - intros i acc Hi Hacc. apply fill_row; [lia|exact Hacc].
  - cbn [mbind option_bind]. rewrite (rows_row _ _ _ Hrows2) by lia.
    cbn [mbind option_bind].
    assert (Hw : width_at (1 + m) 1 m = S n).
    { unfold width_at. destruct (Nat.ltb_spec m (1 + m)); [reflexivity|lia]. }
    rewrite Hw, cells_index by lia.
    rewrite levenshteinDistance_cell. reflexivity.
Qed.

End LiteTable.

(** * Properties of the session engine *)

Section EngineFacts.

Variable host : Splitt.Host.

(** The world that [saveSession] leaves: the session, stamped, is written
    under its own id, and one message is posted when there is a channel. *)
Definition stamped (session : Splitt.Session) (w : Splitt.World) : Splitt.Session :=
  Splitt.set_lastModified (Splitt.clock host (Splitt.ticks w)) session.

Definition saved (session : Splitt.Session) (w : Splitt.World) : Splitt.World :=
  Splitt.mkWorld
    (Splitt.json_session <$> <[Splitt.sessionId session := stamped session w]> (Splitt.storage w))
    (if Splitt.channel host then S (S (Splitt.ticks w)) else S (Splitt.ticks w))
    (Splitt.draws w)
    (if Splitt.channel host
     then Splitt.posted w ++
            [Splitt.mkSyncMessage (Splitt.sessionId session)
                                  (Splitt.clock host (S (Splitt.ticks w)))]
     else Splitt.posted w).

Lemma saveSession_saved session w :
  Splitt.saveSession host session w = (Splitt.Return (stamped session w), saved session w).
Proof.
  unfold Splitt.saveSession, Splitt.bind, Splitt.getAllSessions, Splitt.now,
    Splitt.saveAllSessions, Splitt.broadcastSync, Splitt.ret, saved, stamped.
  destruct (Splitt.channel host); reflexivity.
Qed.

Lemma getSession_lookup code w :
  Splitt.getSession code w = (Splitt.Return (Splitt.storage w !! toUpperCase code), w).
Proof. reflexivity. Qed.

Definition tick (w : Splitt.World) : Splitt.World :=
  Splitt.mkWorld (Splitt.storage w) (S (Splitt.ticks w)) (Splitt.draws w) (Splitt.posted w).

Lemma bind_now {B} (k : Z -> Splitt.M B) w :
  Splitt.bind (Splitt.now host) k w = k (Splitt.clock host (Splitt.ticks w)) (tick w).
Proof. reflexivity. Qed.

Lemma bind_ret {A B} (a : A) (k : A -> Splitt.M B) w :
  Splitt.bind (Splitt.ret a) k w = k a w.
Proof. reflexivity. Qed.

Lemma bind_throw {A B} message (k : A -> Splitt.M B) w :
  Splitt.bind (Splitt.throw message) k w = (Splitt.Throw message, w).
Proof. reflexivity. Qed.

Lemma bind_bind {A B C} (m : Splitt.M A) (f : A -> Splitt.M B) (g : B -> Splitt.M C) w :
  Splitt.bind (Splitt.bind m f) g w = Splitt.bind m (fun a => Splitt.bind (f a) g) w.
Proof. unfold Splitt.bind. destruct (m w) as [[a|message] w']; reflexivity. Qed.

Lemma bind_getSession {B} code (k : option Splitt.Session -> Splitt.M B) w :
  Splitt.bind (Splitt.getSession code) k w = k (Splitt.storage w !! toUpperCase code) w.
Proof. reflexivity. Qed.

Lemma bind_saveSession {B} session (k : Splitt.Session -> Splitt.M B) w :
  Splitt.bind (Splitt.saveSession host session) k w
  = k (stamped session w) (saved session w).
Proof. unfold Splitt.bind. rewrite saveSession_saved. reflexivity. Qed.

(** The same world but for the readings taken. *)
Definition same_data (w w' : Splitt.World) : Prop :=
  Splitt.storage w' = Splitt.storage w /\ Splitt.posted w' = Splitt.posted w.

(** *** Selections *)

Lemma existsb_str_eqb {A} (f : A -> jsstring) (x : jsstring) (l : list A) :
  existsb (fun a => str_eqb (f a) x) l = true <-> x ∈ map f l.
Proof.
  rewrite existsb_exists. split.
  - intros (a & Ha & Heq). apply bool_decide_eq_true in Heq. subst x.
    apply list_elem_of_In, in_map, Ha.
  - intros Hin. apply list_elem_of_In, in_map_iff in Hin as (a & <- & Ha).
    exists a. split; [exact Ha|]. apply bool_decide_eq_true. reflexivity.
Qed.

(** The claimants of an item once the claim of one participant on it is
    dropped. *)
Lemma claimants_without user item (sels : list Splitt.Selection) :
  map Splitt.participantId
      (filter (fun x => Splitt.itemId x = item)
              (filter (fun x => ~ (Splitt.participantId x = user /\ Splitt.itemId x = item)) sels))
  = filter (fun p => p <> user)
           (map Splitt.participantId (filter (fun x => Splitt.itemId x = item) sels)).
Proof.
  induction sels as [|x sels IH]; [reflexivity|].
  destruct (decide (Splitt.itemId x = item)) as [Hi|Hi].
  - rewrite (filter_cons_True (fun x => Splitt.itemId x = item)) by exact Hi.
    cbn [map]. destruct (decide (Splitt.participantId x = user)) as [Hu|Hu].
    + rewrite filter_cons_False by tauto.
      rewrite (filter_cons_False (fun p => p <> user)) by tauto. exact IH.
    + rewrite filter_cons_True by tauto. rewrite filter_cons_True by exact Hi.
      rewrite (filter_cons_True (fun p => p <> user)) by exact Hu.
      cbn [map]. f_equal. exact IH.
  - rewrite filter_cons_True by tauto. rewrite !filter_cons_False by exact Hi. exact IH.
Qed.

Lemma filter_item_none item (sels : list Splitt.Selection) :
  filter (fun x => Splitt.itemId x = item)
         (filter (fun x => Splitt.itemId x <> item) sels) = [].
Proof.
  induction sels as [|x sels IH]; [reflexivity|].
  destruct (decide (Splitt.itemId x = item)) as [Hi|Hi].
  - rewrite filter_cons_False by tauto. exact IH.
  - rewrite filter_cons_True by exact Hi. rewrite filter_cons_False by exact Hi. exact IH.
Qed.

Lemma filter_other_item item item' (P : Splitt.Selection -> Prop) `{forall x, Decision (P x)}
  (sels : list Splitt.Selection) :
  item' <> item ->
  (forall x, Splitt.itemId x <> item -> P x) ->
  filter (fun x => Splitt.itemId x = item') (filter P sels)
  = filter (fun x => Splitt.itemId x = item') sels.
Proof.
  intros Hne HP. induction sels as [|x sels IH]; [reflexivity|].
  destruct (decide (Splitt.itemId x = item')) as [Hi|Hi].
  - rewrite (filter_cons_True P) by (apply HP; congruence).
    rewrite !filter_cons_True by exact Hi. f_equal. exact IH.
  - rewrite (filter_cons_False (fun x => Splitt.itemId x = item') x sels) by exact Hi.
    destruct (decide (P x)).
    + rewrite (filter_cons_True P) by assumption. rewrite filter_cons_False by exact Hi.
      exact IH.
    + rewrite (filter_cons_False P) by assumption. exact IH.
Qed.

(** The selections that [selectItem] leaves in the session. *)
Definition selected (user item ty : jsstring) (v : option number) (t : Z)
  (sels : list Splitt.Selection) : list Splitt.Selection :=
  let sels := filter (fun x => ~ (Splitt.participantId x = user /\ Splitt.itemId x = item)) sels in
  if str_eqb ty (str "solo")
  then filter (fun x => Splitt.itemId x <> item) sels
         ++ [Splitt.mkSelection user item (str "solo") None t]
  else sels ++ [Splitt.mkSelection user item ty v t].

Lemma selectItem_run sid user item ty v w :
  match Splitt.selectItem host sid user item ty v w with
  | (Splitt.Return s', w') =>
      exists s,
        Splitt.storage w !! toUpperCase sid = Some s /\
        user ∈ map Splitt.p_id (Splitt.participants s) /\
        item ∈ map Splitt.item_id (Splitt.items (Splitt.receipt s)) /\
        ty ∈ Splitt.validTypes /\
        (ty = str "percentage" -> Splitt.bad_percentage v = false) /\
        (ty = str "units" -> Splitt.bad_units v = false) /\
        let w1 := tick w in
        let s1 :=
          Splitt.set_selections
            (selected user item ty v (Splitt.clock host (Splitt.ticks w)) (Splitt.selections s))
            s in
        let s2 := if str_eqb (Splitt.status s) (str "lobby")
                  then Splitt.set_status (str "selecting") s1 else s1 in
        s' = stamped s2 w1 /\ w' = saved s2 w1
  | (Splitt.Throw _, w') => w' = w
  end.
Proof.
  unfold Splitt.selectItem. rewrite bind_getSession.
  destruct (Splitt.storage w !! toUpperCase sid) as [s|] eqn:Hs; [|reflexivity].
  destruct (existsb _ (Splitt.participants s)) eqn:Hp; cbn [negb]; [|reflexivity].
  destruct (existsb _ (Splitt.items (Splitt.receipt s))) eqn:Hi; cbn [negb]; [|reflexivity].
  destruct (existsb (str_eqb ty) Splitt.validTypes) eqn:Hty; cbn [negb]; [|reflexivity].
  destruct (str_eqb ty (str "percentage") && Splitt.bad_percentage v) eqn:Hpct; [reflexivity|].
  destruct (str_eqb ty (str "units") && Splitt.bad_units v) eqn:Hunits; [reflexivity|].
  unfold selected. cbv zeta.
  destruct (str_eqb ty (str "solo")) eqn:Hsolo;
    rewrite bind_bind, bind_now, bind_ret, saveSession_saved.
  all: exists s; split; [reflexivity|].
  all: split; [apply (existsb_str_eqb Splitt.p_id), Hp|].
  all: split; [apply (existsb_str_eqb Splitt.item_id), Hi|].
  all: split;
    [apply existsb_exists in Hty as (t & Ht & Heq); apply bool_decide_eq_true in Heq;
     subst t; apply list_elem_of_In, Ht|].
  all: split;
    [intros ->; unfold str_eqb in Hpct;
     rewrite bool_decide_eq_true_2 in Hpct by reflexivity; exact Hpct|].
  all: split;
    [intros ->; unfold str_eqb in Hunits;
     rewrite bool_decide_eq_true_2 in Hunits by reflexivity; exact Hunits|].
  all: split; reflexivity.
Qed.

(** X18: [selectItem] throws without a trace: the world is the one before.
    When it returns, the session found is written back under its id with
    the claim of the participant added at the end of the selections.  The
    item is then claimed by the participant alone if the split is solo,
    and otherwise by the earlier claimants but the participant, followed
    by the participant; the participant holds one claim on the item; the
    claims on other items are as before; and the session is not in the
    lobby. *)
Theorem selectItem_claims (sid user item ty : jsstring) (v : option number)
  (w : Splitt.World) :
  match Splitt.selectItem host sid user item ty v w with
  | (Splitt.Return s', w') =>
      exists s,
        Splitt.storage w !! toUpperCase sid = Some s /\
        Splitt.storage w'
          = Splitt.json_session <$> <[Splitt.sessionId s := s']> (Splitt.storage w) /\
        user ∈ map Splitt.p_id (Splitt.participants s) /\
        Splitt.participants s' = Splitt.participants s /\
        Splitt.getItemClaimants s' item
          = (if str_eqb ty (str "solo") then []
             else filter (fun p => p <> user) (Splitt.getItemClaimants s item)) ++ [user] /\
        length (filter (fun x => Splitt.itemId x = item)
                       (Splitt.getParticipantSelections s' user)) = 1 /\
        (forall item', item' <> item ->
           filter (fun x => Splitt.itemId x = item') (Splitt.selections s')
           = filter (fun x => Splitt.itemId x = item') (Splitt.selections s)) /\
        Splitt.status s' <> str "lobby"
  | (Splitt.Throw _, w') => w' = w
  end.
Proof.
  pose proof (selectItem_run sid user item ty v w) as Hrun.
  destruct (Splitt.selectItem host sid user item ty v w) as [[s'|message] w']; [|exact Hrun].
  destruct Hrun as (s & Hs & Huser & Hitem & Hty & _ & _ & Hresult).
  cbv zeta in Hresult. destruct Hresult as [-> ->].
  exists s. split; [exact Hs|].
  set (t := Splitt.clock host (Splitt.ticks w)).
  assert (Hsel : forall s2,
            s2 = (if str_eqb (Splitt.status s) (str "lobby")
                  then Splitt.set_status (str "selecting")
                         (Splitt.set_selections
                            (selected user item ty v t (Splitt.selections s)) s)
                  else Splitt.set_selections
                         (selected user item ty v t (Splitt.selections s)) s) ->
            Splitt.selections s2 = selected user item ty v t (Splitt.selections s) /\
            Splitt.participants s2 = Splitt.participants s /\
            Splitt.sessionId s2 = Splitt.sessionId s /\
            Splitt.status s2 <> str "lobby").
  { intros s2 ->. destruct (str_eqb (Splitt.status s) (str "lobby")) eqn:Hlobby.
    - repeat split; try reflexivity. cbn. discriminate.
    - repeat split; try reflexivity. cbn. intros Heq.
      unfold str_eqb in Hlobby. apply bool_decide_eq_false in Hlobby. contradiction. }
  destruct (Hsel _ eq_refl) as (Hsels & Hparts & Hid & Hstatus).
  revert Hsels Hparts Hid Hstatus.
  generalize (if str_eqb (Splitt.status s) (str "lobby")
              then Splitt.set_status (str "selecting")
                     (Splitt.set_selections (selected user item ty v t (Splitt.selections s)) s)
              else Splitt.set_selections (selected user item ty v t (Splitt.selections s)) s).
  intros s2 Hsels Hparts Hid Hstatus.
  split; [cbn; rewrite Hid; reflexivity|].
  split; [exact Huser|]. split; [exact Hparts|].
  unfold Splitt.getItemClaimants, Splitt.getParticipantSelections.
  cbn [stamped Splitt.set_lastModified Splitt.selections Splitt.status].
  rewrite Hsels. unfold selected.
  destruct (str_eqb ty (str "solo")) eqn:Hsolo.
  - split.
    { rewrite filter_app, map_app, filter_item_none.
      rewrite filter_cons_True by reflexivity. reflexivity. }
    split.
    { rewrite filter_app, filter_app.
      rewrite (filter_cons_True (fun s0 => Splitt.participantId s0 = user)) by reflexivity.
      rewrite filter_nil. rewrite filter_cons_True by reflexivity. rewrite filter_nil.
      rewrite length_app. cbn [length].
      assert (Hnone : filter (fun x => Splitt.itemId x = item)
                (filter (fun s0 => Splitt.participantId s0 = user)
                   (filter (fun x => Splitt.itemId x <> item)
                      (filter (fun x => ~ (Splitt.participantId x = user /\ Splitt.itemId x = item))
                         (Splitt.selections s)))) = []).
      { generalize (filter (fun x => ~ (Splitt.participantId x = user /\ Splitt.itemId x = item))
                      (Splitt.selections s)).
        intros l. induction l as [|x l IH]; [reflexivity|].
        destruct (decide (Splitt.itemId x = item)) as [Hi|Hi].
        - rewrite filter_cons_False by tauto. exact IH.
        - rewrite filter_cons_True by exact Hi.
          destruct (decide (Splitt.participantId x = user)) as [Hu|Hu].
          + rewrite filter_cons_True by exact Hu. rewrite filter_cons_False by exact Hi.
            exact IH.
          + rewrite filter_cons_False by exact Hu. exact IH. }
      rewrite Hnone. reflexivity. }
    split; [|exact Hstatus].
    intros item' Hne. rewrite filter_app.
    rewrite (filter_cons_False _ (Splitt.mkSelection user item (str "solo") None t))
      by (cbn; congruence).
    rewrite filter_nil, app_nil_r.
    rewrite (filter_other_item item item') by (try exact Hne; intros x Hx; exact Hx).
    apply (filter_other_item item item'); [exact Hne|]. intros x Hx. tauto.
  - split.
    { rewrite filter_app, map_app, claimants_without.
      rewrite filter_cons_True by reflexivity. reflexivity. }
    split.
    { rewrite filter_app, filter_app.
      rewrite (filter_cons_True (fun s0 => Splitt.participantId s0 = user)) by reflexivity.
      rewrite filter_nil. rewrite filter_cons_True by reflexivity. rewrite filter_nil.
      rewrite length_app. cbn [length].
      assert (Hnone : filter (fun x => Splitt.itemId x = item)
                (filter (fun s0 => Splitt.participantId s0 = user)
                   (filter (fun x => ~ (Splitt.participantId x = user /\ Splitt.itemId x = item))
                      (Splitt.selections s))) = []).
      { generalize (Splitt.selections s).
        intros l. induction l as [|x l IH]; [reflexivity|].
        destruct (decide (Splitt.participantId x = user /\ Splitt.itemId x = item)) as [Hk|Hk].
        - rewrite filter_cons_False by tauto. exact IH.
        - rewrite filter_cons_True by exact Hk.
          destruct (decide (Splitt.participantId x = user)) as [Hu|Hu].
          + rewrite filter_cons_True by exact Hu. rewrite filter_cons_False by tauto.
            exact IH.
          + rewrite filter_cons_False by exact Hu. exact IH. }
      rewrite Hnone. reflexivity. }
    split; [|exact Hstatus].
    intros item' Hne. rewrite filter_app.
    rewrite (filter_cons_False _ (Splitt.mkSelection user item ty v t)) by (cbn; congruence).
    rewrite filter_nil, app_nil_r.
    apply (filter_other_item item item'); [exact Hne|]. intros x Hx. tauto.
Qed.

(** *** Room codes *)

(** The characters drawn by [count] readings from reading [d] on. *)
Fixpoint room_code (d count : nat) : jsstring :=
  match count with
  | O => []
  | S count' =>
      Splitt.charAt Splitt.room_chars
        (Qfloor (Splitt.random host d * inject_Z (Z.of_nat (length Splitt.room_chars))))
      ++ room_code (S d) count'
  end.

Definition drawn (count : nat) (w : Splitt.World) : Splitt.World :=
  Splitt.mkWorld (Splitt.storage w) (Splitt.ticks w) (count + Splitt.draws w) (Splitt.posted w).

Lemma generateRoomCode_loop count :
  forall start (m : Splitt.M jsstring) w code w1,
    m w = (Splitt.Return code, w1) ->
    fold_left
      (fun code (_ : nat) =>
         Splitt.bind code (fun code =>
         Splitt.bind (Splitt.Math_random host) (fun r =>
         Splitt.ret (code ++ Splitt.charAt Splitt.room_chars
                               (Qfloor (r * inject_Z (Z.of_nat (length Splitt.room_chars))))))))
      (seq start count) m w
    = (Splitt.Return (code ++ room_code (Splitt.draws w1) count), drawn count w1).
Proof.
  induction count as [|count IH]; intros start m w code w1 Hm.
  - cbn [seq fold_left room_code]. rewrite app_nil_r, Hm. destruct w1; reflexivity.
  - cbn [seq fold_left room_code].
    rewrite (IH (S start) _ w
               (code ++ Splitt.charAt Splitt.room_chars
                          (Qfloor (Splitt.random host (Splitt.draws w1)
                                   * inject_Z (Z.of_nat (length Splitt.room_chars)))))
               (drawn 1 w1)).
    + rewrite <- app_assoc. f_equal. unfold drawn. cbn. f_equal. lia.
    + unfold Splitt.bind. rewrite Hm. reflexivity.
Qed.

Lemma generateRoomCode_run w :
  Splitt.generateRoomCode host w = (Splitt.Return (room_code (Splitt.draws w) 6), drawn 6 w).
Proof.
  unfold Splitt.generateRoomCode.
  rewrite (generateRoomCode_loop 6 0 (Splitt.ret []) w [] w eq_refl). reflexivity.
Qed.

Lemma charAt_room i :
  Forall (fun c => c ∈ Splitt.room_chars /\ upper_char c = c)
         (Splitt.charAt Splitt.room_chars i).
Proof.
  unfold Splitt.charAt. destruct (i <? 0)%Z; [constructor|].
  destruct (Splitt.room_chars !! Z.to_nat i) as [c|] eqn:Hc; [|constructor].
  constructor; [|constructor].
  assert (Hall : Forall (fun c => upper_char c = c) Splitt.room_chars).
  { vm_compute. repeat constructor. }
  split; [eapply list_elem_of_lookup_2, Hc|].
  rewrite list.Forall_forall in Hall. apply Hall. eapply list_elem_of_lookup_2, Hc.
Qed.

Lemma charAt_room_length i :
  (0 <= i < 32)%Z -> length (Splitt.charAt Splitt.room_chars i) = 1.
Proof.
  intros Hi. unfold Splitt.charAt.
  destruct (Z.ltb_spec i 0); [lia|].
  destruct (lookup_lt_is_Some_2 Splitt.room_chars (Z.to_nat i)) as [c ->]; [|reflexivity].
  change (length Splitt.room_chars) with 32. lia.
Qed.

Lemma room_code_chars count :
  forall d,
    Forall (fun c => c ∈ Splitt.room_chars /\ upper_char c = c) (room_code d count) /\
    length (room_code d count) <= count /\
    ((forall k, (0 <= Splitt.random host k < 1)%Q) -> length (room_code d count) = count).
Proof.
  induction count as [|count IH]; intros d; cbn [room_code].
  - split; [constructor|]. split; [reflexivity|]. intros _. reflexivity.
  - destruct (IH (S d)) as (Hall & Hlen & Hfull).
    set (i := Qfloor (Splitt.random host d * inject_Z (Z.of_nat (length Splitt.room_chars)))).
    pose proof (charAt_room i) as Hchar.
    split; [apply Forall_app; split; assumption|].
    rewrite length_app. split.
    + assert (length (Splitt.charAt Splitt.room_chars i) <= 1); [|lia].
      unfold Splitt.charAt. destruct (i <? 0)%Z; [cbn; lia|].
      destruct (Splitt.room_chars !! Z.to_nat i); cbn; lia.
    + intros Hrandom. rewrite (Hfull Hrandom), charAt_room_length; [reflexivity|].
      destruct (Hrandom d) as [H0 H1]. unfold i.
      change (inject_Z (Z.of_nat (length Splitt.room_chars))) with (32 # 1)%Q.
      split.
      * assert (Hle : (0 <= Splitt.random host d * (32 # 1))%Q) by lra.
        apply Qfloor_resp_le in Hle. exact Hle.
      * assert (Hlt : (Splitt.random host d * (32 # 1) < 32)%Q) by lra.
        apply Z.lt_nge. intros Hge.
        assert (H32 : (inject_Z 32 <= Splitt.random host d * (32 # 1))%Q).
        { eapply Qle_trans; [|apply Qfloor_le]. rewrite <- Zle_Qle. exact Hge. }
        change (inject_Z 32) with 32%Q in H32. lra.
Qed.

(** X19: [generateRoomCode] takes six readings of [Math.random] and nothing
    else from the world.  The code consists of characters of the
    alphabet, so [toUpperCase] leaves it as it is; it has six characters
    when the readings lie in the interval from 0 (included) to 1
    (excluded), and never more. *)
Theorem generateRoomCode_code (w : Splitt.World) :
  exists code,
    Splitt.generateRoomCode host w = (Splitt.Return code, drawn 6 w) /\
    Forall (fun c => c ∈ Splitt.room_chars) code /\
    toUpperCase code = code /\
    length code <= 6 /\
    ((forall k, (0 <= Splitt.random host k < 1)%Q) -> length code = 6).
Proof.
  exists (room_code (Splitt.draws w) 6). split; [apply generateRoomCode_run|].
  destruct (room_code_chars 6 (Splitt.draws w)) as (Hall & Hlen & Hfull).
  split; [eapply Forall_impl; [exact Hall|]; intros c [Hc _]; exact Hc|].
  split; [|split; assumption].
  unfold toUpperCase. revert Hall. generalize (room_code (Splitt.draws w) 6).
  intros code Hall. induction Hall as [|c code [_ Hc] _ IH]; [reflexivity|].
  cbn [map]. rewrite Hc, IH. reflexivity.
Qed.

(** *** What the other functions do to the world *)

(** The session that [joinSession] saves, and the world after the
    readings for it. *)
Definition join_update (user : Splitt.User) (s : Splitt.Session) (w1 : Splitt.World)
  : Splitt.Session * Splitt.World :=
  match list_find (fun p => Splitt.p_id p = Splitt.u_id user) (Splitt.participants s) with
  | Some (existingIndex, existing) =>
      (Splitt.set_participants
         (<[existingIndex :=
              Splitt.mkParticipant (Splitt.u_id user) (Splitt.u_name user)
                (default (Splitt.p_emoji existing) (Splitt.u_emoji user))
                (Splitt.joinedAt existing) (Splitt.clock host (Splitt.ticks w1))]>
            (Splitt.participants s)) s,
       tick w1)
  | None =>
      (Splitt.set_participants
         (Splitt.participants s ++
            [Splitt.mkParticipant (Splitt.u_id user) (Splitt.u_name user)
               (match Splitt.u_emoji user with
                | Some (c :: e) => c :: e
                | _ => Splitt.default_emoji
                end)
               (Splitt.clock host (Splitt.ticks w1))
               (Splitt.clock host (S (Splitt.ticks w1)))]) s,
       tick (tick w1))
  end.

Lemma joinSession_run code user w :
  match Splitt.joinSession host code user w with
  | (Splitt.Return s', w') =>
      exists s,
        Splitt.storage w !! toUpperCase code = Some s /\
        (Splitt.clock host (Splitt.ticks w) <= Splitt.expiresAt s)%Z /\
        Splitt.status s <> str "closed" /\
        s' = stamped (fst (join_update user s (tick w))) (snd (join_update user s (tick w))) /\
        w' = saved (fst (join_update user s (tick w))) (snd (join_update user s (tick w)))
  | (Splitt.Throw message, w') =>
      (message = str "Session not found" /\ w' = w /\
       Splitt.storage w !! toUpperCase code = None) \/
      (exists s,
         Splitt.storage w !! toUpperCase code = Some s /\ w' = tick w /\
         ((message = str "Session has expired" /\
           (Splitt.expiresAt s < Splitt.clock host (Splitt.ticks w))%Z) \/
          (message = str "Session is closed" /\
           (Splitt.clock host (Splitt.ticks w) <= Splitt.expiresAt s)%Z /\
           Splitt.status s = str "closed")))
  end.
Proof.
  unfold Splitt.joinSession. rewrite bind_getSession.
  destruct (Splitt.storage w !! toUpperCase code) as [s|] eqn:Hs;
    [|left; repeat split; reflexivity].
  rewrite bind_now.
  destruct (Z.ltb_spec (Splitt.expiresAt s) (Splitt.clock host (Splitt.ticks w))) as [Hexp|Hexp].
  { right. exists s. split; [reflexivity|]. split; [reflexivity|]. left. split; [reflexivity|lia]. }
  unfold str_eqb at 1.
  destruct (bool_decide (Splitt.status s = str "closed")) eqn:Hclosed.
  { apply bool_decide_eq_true in Hclosed.
    right. exists s. split; [reflexivity|]. split; [reflexivity|]. right.
    split; [reflexivity|]. split; [exact Hexp|exact Hclosed]. }
  apply bool_decide_eq_false in Hclosed.
  destruct (list_find _ (Splitt.participants s)) as [[i existing]|] eqn:Hfind.
  - rewrite bind_now, saveSession_saved. exists s. unfold join_update. rewrite Hfind.
    cbn [fst snd].
    split; [reflexivity|]. split; [exact Hexp|]. split; [exact Hclosed|].
    split; reflexivity.
  - rewrite bind_now, bind_now, saveSession_saved. exists s. unfold join_update.
    rewrite Hfind. cbn [fst snd].
    split; [reflexivity|]. split; [exact Hexp|]. split; [exact Hclosed|].
    split; reflexivity.
Qed.

(** The session that [leaveSession] saves. *)
Definition left_session (user : jsstring) (s : Splitt.Session) : Splitt.Session :=
  let s1 :=
    Splitt.set_selections
      (filter (fun x => Splitt.participantId x <> user) (Splitt.selections s))
      (Splitt.set_participants
         (filter (fun p => Splitt.p_id p <> user) (Splitt.participants s)) s) in
  match Splitt.participants s1 with
  | first :: _ =>
      if str_eqb (Splitt.hostId s) user then Splitt.set_hostId (Splitt.p_id first) s1 else s1
  | [] => Splitt.set_status (str "closed") s1
  end.

Lemma leaveSession_run sid user w :
  Splitt.leaveSession host sid user w =
  match Splitt.storage w !! toUpperCase sid with
  | None => (Splitt.Return None, w)
  | Some s => (Splitt.Return (Some (stamped (left_session user s) w)),
               saved (left_session user s) w)
  end.
Proof.
  unfold Splitt.leaveSession. rewrite bind_getSession.
  destruct (Splitt.storage w !! toUpperCase sid) as [s|]; [|reflexivity].
  cbv zeta. rewrite bind_saveSession. unfold left_session. cbv zeta.
  cbn [Splitt.participants Splitt.set_selections Splitt.set_participants Splitt.hostId].
  destruct (filter (fun p => Splitt.p_id p <> user) (Splitt.participants s)) as [|first rest].
  - cbn [length Nat.ltb Nat.leb Nat.eqb andb]. rewrite andb_false_r. reflexivity.
  - cbn [length Nat.ltb Nat.leb Nat.eqb andb]. rewrite andb_true_r.
    destruct (str_eqb (Splitt.hostId s) user); reflexivity.
Qed.

Lemma deselectItem_run sid user item w :
  Splitt.deselectItem host sid user item w =
  match Splitt.storage w !! toUpperCase sid with
  | None => (Splitt.Throw (str "Session not found"), w)
  | Some s =>
      let s1 :=
        Splitt.set_selections
          (filter (fun x => ~ (Splitt.participantId x = user /\ Splitt.itemId x = item))
                  (Splitt.selections s)) s in
      (Splitt.Return (stamped s1 w), saved s1 w)
  end.
Proof.
  unfold Splitt.deselectItem. rewrite bind_getSession.
  destruct (Splitt.storage w !! toUpperCase sid) as [s|]; [|reflexivity].
  cbv zeta. apply saveSession_saved.
Qed.

Lemma setSessionStatus_run sid newStatus w :
  Splitt.setSessionStatus host sid newStatus w =
  if existsb (str_eqb newStatus) Splitt.validStatuses
  then match Splitt.storage w !! toUpperCase sid with
       | None => (Splitt.Throw (str "Session not found"), w)
       | Some s => (Splitt.Return (stamped (Splitt.set_status newStatus s) w),
                    saved (Splitt.set_status newStatus s) w)
       end
  else (Splitt.Throw (str "Invalid status: " ++ newStatus), w).
Proof.
  unfold Splitt.setSessionStatus.
  destruct (existsb (str_eqb newStatus) Splitt.validStatuses); cbn [negb]; [|reflexivity].
  rewrite bind_getSession.
  destruct (Splitt.storage w !! toUpperCase sid) as [s|]; [|reflexivity].
  apply saveSession_saved.
Qed.

Lemma deleteSession_run sid user w :
  Splitt.deleteSession sid user w =
  match Splitt.storage w !! toUpperCase sid with
  | None => (Splitt.Return false, w)
  | Some s =>
      if str_eqb (Splitt.hostId s) user
      then (Splitt.Return true,
            Splitt.mkWorld (Splitt.json_session <$> delete sid (Splitt.storage w))
                           (Splitt.ticks w) (Splitt.draws w) (Splitt.posted w))
      else (Splitt.Throw (str "Only host can delete session"), w)
  end.
Proof.
  unfold Splitt.deleteSession. rewrite bind_getSession.
  destruct (Splitt.storage w !! toUpperCase sid) as [s|]; [|reflexivity].
  destruct (str_eqb (Splitt.hostId s) user); reflexivity.
Qed.

(** The sessions that [expireOldSessions] keeps and the number of those
    it deletes, at the time read. *)
Definition fresh_sessions (t : Z) (sessions : gmap jsstring Splitt.Session)
  : gmap jsstring Splitt.Session :=
  filter (fun entry => Splitt.stale t (snd entry) = false) sessions.
Definition stale_count (t : Z) (sessions : gmap jsstring Splitt.Session) : nat :=
  size (filter (fun entry => Splitt.stale t (snd entry) = true) sessions).

Lemma expireOldSessions_run w :
  Splitt.expireOldSessions host w =
  let t := Splitt.clock host (Splitt.ticks w) in
  (Splitt.Return (stale_count t (Splitt.storage w)),
   if (0 <? stale_count t (Splitt.storage w))%nat
   then Splitt.mkWorld (Splitt.json_session <$> fresh_sessions t (Splitt.storage w))
                       (S (Splitt.ticks w)) (Splitt.draws w) (Splitt.posted w)
   else tick w).
Proof.
  unfold Splitt.expireOldSessions. cbv zeta.
  change (Splitt.bind Splitt.getAllSessions ?k w) with (k (Splitt.storage w) w).
  cbv beta. rewrite bind_now. fold (stale_count (Splitt.clock host (Splitt.ticks w)) (Splitt.storage w)).
  destruct (0 <? stale_count _ _)%nat; reflexivity.
Qed.

(** *** What every stored session satisfies *)

Definition claim_key (x : Splitt.Selection) : jsstring * jsstring :=
  (Splitt.participantId x, Splitt.itemId x).

(** No participant is listed twice, nobody holds two claims on one item,
    and every claim belongs to a participant. *)
Definition consistent (s : Splitt.Session) : Prop :=
  NoDup (map Splitt.p_id (Splitt.participants s)) /\
  NoDup (map claim_key (Splitt.selections s)) /\
  Forall (fun x => Splitt.participantId x ∈ map Splitt.p_id (Splitt.participants s))
         (Splitt.selections s).

(** Every session is stored under its id, the id is in upper case, and
    the session is consistent. *)
Definition sound (w : Splitt.World) : Prop :=
  forall k s,
    Splitt.storage w !! k = Some s ->
    Splitt.sessionId s = k /\ toUpperCase k = k /\ consistent s.

Lemma consistent_ext s s' :
  map Splitt.p_id (Splitt.participants s') = map Splitt.p_id (Splitt.participants s) ->
  map claim_key (Splitt.selections s') = map claim_key (Splitt.selections s) ->
  consistent s -> consistent s'.
Proof.
  intros Hp Hs (H1 & H2 & H3). unfold consistent. rewrite Hp, Hs.
  split; [exact H1|]. split; [exact H2|].
  apply list.Forall_forall. intros x Hx.
  assert (Hk : claim_key x ∈ map claim_key (Splitt.selections s)).
  { rewrite <- Hs. apply list_elem_of_In, in_map, list_elem_of_In, Hx. }
  apply list_elem_of_In, in_map_iff in Hk as (y & Hy & Hin).
  rewrite list.Forall_forall in H3. apply list_elem_of_In in Hin.
  specialize (H3 y Hin). unfold claim_key in Hy. injection Hy as Hy _.
  rewrite <- Hy. exact H3.
Qed.

Lemma json_session_keys s :
  map claim_key (Splitt.selections (Splitt.json_session s)) = map claim_key (Splitt.selections s).
Proof.
  unfold Splitt.json_session. cbn [Splitt.selections Splitt.set_selections].
  rewrite map_map. reflexivity.
Qed.

Lemma consistent_json s : consistent s -> consistent (Splitt.json_session s).
Proof. apply consistent_ext; [reflexivity|apply json_session_keys]. Qed.

Lemma consistent_stamped s w : consistent s -> consistent (stamped s w).
Proof. apply consistent_ext; reflexivity. Qed.

Lemma sound_same w w' : Splitt.storage w' = Splitt.storage w -> sound w -> sound w'.
Proof. intros Heq Hw k s. rewrite Heq. apply Hw. Qed.

Lemma sound_json w sessions :
  (forall k s, sessions !! k = Some s -> Splitt.storage w !! k = Some s) ->
  sound w ->
  forall ticks draws posted,
    sound (Splitt.mkWorld (Splitt.json_session <$> sessions) ticks draws posted).
Proof.
  intros Hsub Hw ticks draws posted k s'. cbn [Splitt.storage].
  rewrite lookup_fmap. destruct (sessions !! k) as [s|] eqn:Hs; [|discriminate].
  intros [= <-]. destruct (Hw k s (Hsub k s Hs)) as (Hid & Hup & Hc).
  split; [exact Hid|]. split; [exact Hup|]. apply consistent_json, Hc.
Qed.

Lemma sound_saved s w :
  sound w ->
  toUpperCase (Splitt.sessionId s) = Splitt.sessionId s ->
  consistent s ->
  sound (saved s w).
Proof.
  intros Hw Hup Hc k s'. unfold saved. cbn [Splitt.storage].
  rewrite lookup_fmap.
  destruct (decide (k = Splitt.sessionId s)) as [->|Hne].
  - change (Splitt.sessionId s) with (Splitt.sessionId (stamped s w)) at 1.
    rewrite lookup_insert_eq. intros [= <-].
    split; [reflexivity|]. split; [exact Hup|]. apply consistent_json, consistent_stamped, Hc.
  - change (Splitt.sessionId (stamped s w)) with (Splitt.sessionId s).
    rewrite lookup_insert_ne by congruence.
    destruct (Splitt.storage w !! k) as [s0|] eqn:Hs0; [|discriminate].
    intros [= <-]. destruct (Hw k s0 Hs0) as (Hid & Hup0 & Hc0).
    split; [exact Hid|]. split; [exact Hup0|]. apply consistent_json, Hc0.
Qed.

Lemma sound_tick w : sound w -> sound (tick w).
Proof. apply sound_same. reflexivity. Qed.

(** The sessions that the functions save are consistent. *)
Lemma NoDup_keys_filter (P : Splitt.Selection -> Prop) `{forall x, Decision (P x)} sels :
  NoDup (map claim_key sels) -> NoDup (map claim_key (filter P sels)).
Proof.
  intros Hnd. eapply sublist_NoDup; [exact Hnd|].
  apply fmap_sublist, sublist_filter.
Qed.

Lemma consistent_selected user item ty v t s :
  consistent s ->
  user ∈ map Splitt.p_id (Splitt.participants s) ->
  consistent (Splitt.set_selections (selected user item ty v t (Splitt.selections s)) s).
Proof.
  intros (H1 & H2 & H3) Huser. unfold consistent.
  cbn [Splitt.participants Splitt.selections Splitt.set_selections].
  split; [exact H1|].
  set (rest := filter (fun x => ~ (Splitt.participantId x = user /\ Splitt.itemId x = item))
                      (Splitt.selections s)).
  assert (Hrest : NoDup (map claim_key rest)) by (apply NoDup_keys_filter, H2).
  assert (Hfresh : forall l, (forall x, x ∈ l -> x ∈ rest) -> (user, item) ∉ map claim_key l).
  { intros l Hl Hin. apply list_elem_of_In, in_map_iff in Hin as (x & Hx & Hin).
    apply list_elem_of_In, Hl in Hin. apply list_elem_of_filter in Hin as [Hne _].
    unfold claim_key in Hx. injection Hx as Hu Hi. tauto. }
  assert (Hjoined : Forall (fun x => Splitt.participantId x ∈
                                       map Splitt.p_id (Splitt.participants s)) rest).
  { apply list.Forall_forall. intros x Hx. apply list_elem_of_filter in Hx as [_ Hx].
    rewrite list.Forall_forall in H3. apply H3, Hx. }
  unfold selected. fold rest. destruct (str_eqb ty (str "solo")).
  - split.
    + rewrite map_app. apply NoDup_app. split; [apply NoDup_keys_filter, Hrest|].
      split; [|apply NoDup_singleton].
      intros k Hk Hk'. cbn in Hk'. apply list_elem_of_singleton in Hk'. subst k.
      revert Hk. apply Hfresh. intros x Hx. apply list_elem_of_filter in Hx. tauto.
    + apply Forall_app. split; [|repeat constructor; exact Huser].
      apply list.Forall_forall. intros x Hx. apply list_elem_of_filter in Hx as [_ Hx].
      rewrite list.Forall_forall in Hjoined. apply Hjoined, Hx.
  - split.
    + rewrite map_app. apply NoDup_app. split; [exact Hrest|].
      split; [|apply NoDup_singleton].
      intros k Hk Hk'. cbn in Hk'. apply list_elem_of_singleton in Hk'. subst k.
      revert Hk. apply Hfresh. tauto.
    + apply Forall_app. split; [exact Hjoined|repeat constructor; exact Huser].
Qed.

Lemma consistent_set_status st s : consistent s -> consistent (Splitt.set_status st s).
Proof. apply consistent_ext; reflexivity. Qed.

Lemma consistent_set_hostId h s : consistent s -> consistent (Splitt.set_hostId h s).
Proof. apply consistent_ext; reflexivity. Qed.

Lemma consistent_deselected user item s :
  consistent s ->
  consistent
    (Splitt.set_selections
       (filter (fun x => ~ (Splitt.participantId x = user /\ Splitt.itemId x = item))
               (Splitt.selections s)) s).
Proof.
  intros (H1 & H2 & H3). unfold consistent.
  cbn [Splitt.participants Splitt.selections Splitt.set_selections].
  split; [exact H1|]. split; [apply NoDup_keys_filter, H2|].
  apply list.Forall_forall. intros x Hx. apply list_elem_of_filter in Hx as [_ Hx].
  rewrite list.Forall_forall in H3. apply H3, Hx.
Qed.

Lemma consistent_left user s : consistent s -> consistent (left_session user s).
Proof.
  intros (H1 & H2 & H3).
  assert (Hc : consistent
            (Splitt.set_selections
               (filter (fun x => Splitt.participantId x <> user) (Splitt.selections s))
               (Splitt.set_participants
                  (filter (fun p => Splitt.p_id p <> user) (Splitt.participants s)) s))).
  { unfold consistent. cbn [Splitt.participants Splitt.selections Splitt.set_selections
                              Splitt.set_participants].
    split.
    { eapply sublist_NoDup; [exact H1|]. apply fmap_sublist, sublist_filter. }
    split; [apply NoDup_keys_filter, H2|].
    apply list.Forall_forall. intros x Hx. apply list_elem_of_filter in Hx as [Hne Hx].
    rewrite list.Forall_forall in H3. specialize (H3 x Hx).
    apply list_elem_of_In, in_map_iff in H3 as (p & Hp & Hin).
    apply list_elem_of_In, in_map_iff. exists p. split; [exact Hp|].
    apply list_elem_of_In, list_elem_of_filter. split; [congruence|].
    apply list_elem_of_In, Hin. }
  unfold left_session. cbv zeta.
  destruct (Splitt.participants (Splitt.set_selections _ _)) as [|first rest].
  - apply consistent_set_status, Hc.
  - destruct (str_eqb (Splitt.hostId s) user); [apply consistent_set_hostId, Hc|exact Hc].
Qed.

Lemma join_update_ids user s w1 :
  map Splitt.p_id (Splitt.participants (fst (join_update user s w1)))
  = if bool_decide (Splitt.u_id user ∈ map Splitt.p_id (Splitt.participants s))
    then map Splitt.p_id (Splitt.participants s)
    else map Splitt.p_id (Splitt.participants s) ++ [Splitt.u_id user].
Proof.
  unfold join_update.
  destruct (list_find _ (Splitt.participants s)) as [[i existing]|] eqn:Hfind.
  - apply list_find_Some in Hfind as (Hi & Hid & _).
    cbn [fst Splitt.participants Splitt.set_participants].
    rewrite bool_decide_eq_true_2.
    + change (map Splitt.p_id ?l) with (Splitt.p_id <$> l).
      rewrite list_fmap_insert. cbn [Splitt.p_id].
      apply list_insert_id. rewrite list_lookup_fmap, Hi. cbn. rewrite Hid. reflexivity.
    + rewrite <- Hid. apply list_elem_of_In, in_map, list_elem_of_In.
      eapply list_elem_of_lookup_2, Hi.
  - apply list_find_None in Hfind.
    cbn [fst Splitt.participants Splitt.set_participants].
    rewrite bool_decide_eq_false_2.
    + rewrite map_app. reflexivity.
    + intros Hin. apply list_elem_of_In, in_map_iff in Hin as (p & Hp & Hin).
      rewrite list.Forall_forall in Hfind. apply (Hfind p); [apply list_elem_of_In, Hin|exact Hp].
Qed.

Lemma join_update_rest user s w1 :
  Splitt.selections (fst (join_update user s w1)) = Splitt.selections s /\
  Splitt.sessionId (fst (join_update user s w1)) = Splitt.sessionId s /\
  Splitt.hostId (fst (join_update user s w1)) = Splitt.hostId s /\
  Splitt.status (fst (join_update user s w1)) = Splitt.status s /\
  Splitt.storage (snd (join_update user s w1)) = Splitt.storage w1 /\
  Splitt.posted (snd (join_update user s w1)) = Splitt.posted w1.
Proof.
  unfold join_update.
  destruct (list_find _ (Splitt.participants s)) as [[i existing]|];
    repeat split; reflexivity.
Qed.

Lemma consistent_joined user s w1 :
  consistent s -> consistent (fst (join_update user s w1)).
Proof.
  intros (H1 & H2 & H3). unfold consistent.
  destruct (join_update_rest user s w1) as (-> & _).
  rewrite join_update_ids.
  destruct (bool_decide (Splitt.u_id user ∈ map Splitt.p_id (Splitt.participants s))) eqn:Hin.
  - split; [exact H1|]. split; [exact H2|exact H3].
  - apply bool_decide_eq_false in Hin. split.
    + apply NoDup_app. split; [exact H1|]. split; [|apply NoDup_singleton].
      intros x Hx Hx'. apply list_elem_of_singleton in Hx'. subst x. contradiction.
    + split; [exact H2|]. eapply Forall_impl; [exact H3|].
      intros x Hx. cbv beta in Hx. apply elem_of_app. left. exact Hx.
Qed.

Lemma bind_run {A B} (m : Splitt.M A) (k : A -> Splitt.M B) w a w1 :
  m w = (Splitt.Return a, w1) -> Splitt.bind m k w = k a w1.
Proof. intros Hm. unfold Splitt.bind. rewrite Hm. reflexivity. Qed.

(** *** The functions keep the stored sessions sound *)

Lemma sound_found w code s :
  sound w -> Splitt.storage w !! toUpperCase code = Some s ->
  toUpperCase (Splitt.sessionId s) = Splitt.sessionId s /\ consistent s.
Proof.
  intros Hw Hs. destruct (Hw _ _ Hs) as (Hid & Hup & Hc).
  split; [rewrite Hid; exact Hup|exact Hc].
Qed.

Lemma selectItem_sound sid user item ty v w :
  sound w -> sound (snd (Splitt.selectItem host sid user item ty v w)).
Proof.
  intros Hw. pose proof (selectItem_run sid user item ty v w) as Hrun.
  destruct (Splitt.selectItem host sid user item ty v w) as [[s'|message] w']; cbn [snd].
  - destruct Hrun as (s & Hs & Huser & _ & _ & _ & _ & Hresult).
    cbv zeta in Hresult. destruct Hresult as [_ ->].
    destruct (sound_found w sid s Hw Hs) as [Hup Hc].
    apply sound_saved; [apply sound_tick, Hw| |].
    + destruct (str_eqb (Splitt.status s) (str "lobby")); exact Hup.
    + destruct (str_eqb (Splitt.status s) (str "lobby"));
        [apply consistent_set_status|]; apply consistent_selected; assumption.
  - subst w'. exact Hw.
Qed.

Lemma joinSession_sound code user w :
  sound w -> sound (snd (Splitt.joinSession host code user w)).
Proof.
  intros Hw. pose proof (joinSession_run code user w) as Hrun.
  destruct (Splitt.joinSession host code user w) as [[s'|message] w']; cbn [snd].
  - destruct Hrun as (s & Hs & _ & _ & _ & ->).
    destruct (sound_found w code s Hw Hs) as [Hup Hc].
    destruct (join_update_rest user s (tick w)) as (_ & Hid & _ & _ & Hst & _).
    apply sound_saved.
    + eapply sound_same; [exact Hst|]. apply sound_tick, Hw.
    + rewrite Hid. exact Hup.
    + apply consistent_joined, Hc.
  - destruct Hrun as [(_ & -> & _)|(s & _ & -> & _)]; [exact Hw|apply sound_tick, Hw].
Qed.

Lemma leaveSession_sound sid user w :
  sound w -> sound (snd (Splitt.leaveSession host sid user w)).
Proof.
  intros Hw. rewrite leaveSession_run.
  destruct (Splitt.storage w !! toUpperCase sid) as [s|] eqn:Hs; cbn [snd]; [|exact Hw].
  destruct (sound_found w sid s Hw Hs) as [Hup Hc].
  apply sound_saved; [exact Hw| |apply consistent_left, Hc].
  unfold left_session. cbv zeta.
  destruct (Splitt.participants (Splitt.set_selections _ _)); [exact Hup|].
  destruct (str_eqb (Splitt.hostId s) user); exact Hup.
Qed.

Lemma deselectItem_sound sid user item w :
  sound w -> sound (snd (Splitt.deselectItem host sid user item w)).
Proof.
  intros Hw. rewrite deselectItem_run.
  destruct (Splitt.storage w !! toUpperCase sid) as [s|] eqn:Hs; cbn [snd]; [|exact Hw].
  destruct (sound_found w sid s Hw Hs) as [Hup Hc].
  apply sound_saved; [exact Hw|exact Hup|apply consistent_deselected, Hc].
Qed.

Lemma setSessionStatus_sound sid newStatus w :
  sound w -> sound (snd (Splitt.setSessionStatus host sid newStatus w)).
Proof.
  intros Hw. rewrite setSessionStatus_run.
  destruct (existsb (str_eqb newStatus) Splitt.validStatuses); [|exact Hw].
  destruct (Splitt.storage w !! toUpperCase sid) as [s|] eqn:Hs; cbn [snd]; [|exact Hw].
  destruct (sound_found w sid s Hw Hs) as [Hup Hc].
  apply sound_saved; [exact Hw|exact Hup|apply consistent_set_status, Hc].
Qed.

Lemma expireOldSessions_sound w :
  sound w -> sound (snd (Splitt.expireOldSessions host w)).
Proof.
  intros Hw. rewrite expireOldSessions_run. cbv zeta. cbn [snd].
  destruct (0 <? stale_count _ _)%nat; [|apply sound_tick, Hw].
  apply (sound_json w); [|exact Hw].
  intros k s Hs. unfold fresh_sessions in Hs. apply map_lookup_filter_Some in Hs. tauto.
Qed.

Lemma deleteSession_sound sid user w :
  sound w -> sound (snd (Splitt.deleteSession sid user w)).
Proof.
  intros Hw. rewrite deleteSession_run.
  destruct (Splitt.storage w !! toUpperCase sid) as [s|] eqn:Hs; cbn [snd]; [|exact Hw].
  destruct (str_eqb (Splitt.hostId s) user); cbn [snd]; [|exact Hw].
  apply (sound_json w); [|exact Hw].
  intros k s0 Hs0. apply lookup_delete_Some in Hs0. tauto.
Qed.

(** The session that [createSession] builds. *)
Definition new_session (sid host_id : jsstring) (t : Z) : Splitt.Session :=
  Splitt.mkSession sid host_id (str "lobby") t (t + Splitt.SESSION_TTL) t
    (Splitt.mkSessionReceipt None [] (num 0) (num 0) (num 0)) [] [].

Lemma room_code_upper d count : toUpperCase (room_code d count) = room_code d count.
Proof.
  destruct (room_code_chars count d) as (Hall & _).
  unfold toUpperCase. revert Hall. generalize (room_code d count).
  intros code Hall. induction Hall as [|c code [_ Hc] _ IH]; [reflexivity|].
  cbn [map]. rewrite Hc, IH. reflexivity.
Qed.

Lemma createSession_step fuel host_id w :
  Splitt.createSession host (S fuel) host_id w =
  let w1 := drawn 6 (snd (Splitt.expireOldSessions host w)) in
  let sid := room_code (Splitt.draws (snd (Splitt.expireOldSessions host w))) 6 in
  let t := Splitt.clock host (Splitt.ticks w1) in
  match Splitt.storage w1 !! sid with
  | Some _ => Splitt.createSession host fuel host_id (tick w1)
  | None =>
      let session := new_session sid host_id t in
      Splitt.bind
        (Splitt.joinSession host sid
           (Splitt.mkUser host_id (str "Host") (Some Splitt.host_emoji)))
        (fun _ => Splitt.ret (Some (stamped session (tick w1))))
        (saved session (tick w1))
  end.
Proof.
  cbn [Splitt.createSession].
  rewrite (bind_run _ _ w _ _ (expireOldSessions_run w)).
  rewrite expireOldSessions_run. cbv zeta. cbn [snd].
  set (w0 := if (0 <? _)%nat then _ else _).
  rewrite (bind_run _ _ w0 _ _ (generateRoomCode_run w0)).
  rewrite bind_now, bind_getSession.
  rewrite room_code_upper. cbn [tick Splitt.storage].
  destruct (Splitt.storage (drawn 6 w0) !! room_code (Splitt.draws w0) 6); [reflexivity|].
  rewrite bind_saveSession. reflexivity.
Qed.

Lemma createSession_sound fuel host_id :
  forall w, sound w -> sound (snd (Splitt.createSession host fuel host_id w)).
Proof.
  induction fuel as [|fuel IH]; intros w Hw; [exact Hw|].
  rewrite createSession_step. cbv zeta.
  pose proof (expireOldSessions_sound w Hw) as Hw0.
  set (w0 := snd (Splitt.expireOldSessions host w)) in *.
  assert (Hw1 : sound (tick (drawn 6 w0))) by (eapply sound_same; [|exact Hw0]; reflexivity).
  destruct (Splitt.storage (drawn 6 w0) !! room_code (Splitt.draws w0) 6).
  - apply IH, Hw1.
  - set (session := new_session _ _ _).
    assert (Hsaved : sound (saved session (tick (drawn 6 w0)))).
    { apply sound_saved; [exact Hw1|apply room_code_upper|].
      unfold consistent. cbn. repeat split; constructor. }
    pose proof (joinSession_sound (room_code (Splitt.draws w0) 6)
                  (Splitt.mkUser host_id (str "Host") (Some Splitt.host_emoji)) _ Hsaved) as Hj.
    unfold Splitt.bind.
    destruct (Splitt.joinSession host _ _ _) as [[s'|message] w']; exact Hj.
Qed.

(** A call of the engine. *)
Inductive call : Type :=
| CreateSession (fuel : nat) (host_id : jsstring)
| JoinSession (code : jsstring) (user : Splitt.User)
| LeaveSession (sid userId : jsstring)
| SelectItem (sid userId item splitType : jsstring) (value : option number)
| DeselectItem (sid userId item : jsstring)
| SetSessionStatus (sid newStatus : jsstring)
| ExpireOldSessions
| DeleteSession (sid userId : jsstring).

(** The world after a call, whether it returned or threw. *)
Definition perform (c : call) (w : Splitt.World) : Splitt.World :=
  match c with
  | CreateSession fuel host_id => snd (Splitt.createSession host fuel host_id w)
  | JoinSession code user => snd (Splitt.joinSession host code user w)
  | LeaveSession sid userId => snd (Splitt.leaveSession host sid userId w)
  | SelectItem sid userId item splitType value =>
      snd (Splitt.selectItem host sid userId item splitType value w)
  | DeselectItem sid userId item => snd (Splitt.deselectItem host sid userId item w)
  | SetSessionStatus sid newStatus => snd (Splitt.setSessionStatus host sid newStatus w)
  | ExpireOldSessions => snd (Splitt.expireOldSessions host w)
  | DeleteSession sid userId => snd (Splitt.deleteSession sid userId w)
  end.

Definition calls (w w' : Splitt.World) : Prop := exists c, w' = perform c w.

Lemma perform_sound c w : sound w -> sound (perform c w).
Proof.
  destruct c; cbn [perform].
  - apply createSession_sound.
  - apply joinSession_sound.
  - apply leaveSession_sound.
  - apply selectItem_sound.
  - apply deselectItem_sound.
  - apply setSessionStatus_sound.
  - apply expireOldSessions_sound.
  - apply deleteSession_sound.
Qed.

(** X20: Whatever calls of [createSession], [joinSession], [leaveSession],
    [selectItem], [deselectItem], [setSessionStatus], [expireOldSessions]
    and [deleteSession] are made, in any order, with any arguments and
    whether they return or throw, the stored sessions stay sound: each is
    under its own id, which is in upper case (so that [getSession] finds
    it), lists no participant twice, holds at most one claim per
    participant and item, and holds claims of participants only. *)
Theorem engine_sound (w w' : Splitt.World) :
  sound w -> rtc calls w w' -> sound w'.
Proof.
  intros Hw Hcalls. induction Hcalls as [|w w1 w' [c ->] _ IH]; [exact Hw|].
  apply IH, perform_sound, Hw.
Qed.

(** *** Leaving and joining *)

(** X21: [leaveSession] never throws.  For an unknown code it returns [null]
    and changes nothing.  Otherwise the session is written back without
    the participant and without the participant's claims, the other
    participants and claims being kept; with nobody left the session is
    closed, and when the host left, the first participant left is the
    host. *)
Theorem leaveSession_leaves (sid user : jsstring) (w : Splitt.World) :
  match Splitt.leaveSession host sid user w with
  | (Splitt.Return None, w') => Splitt.storage w !! toUpperCase sid = None /\ w' = w
  | (Splitt.Return (Some s'), w') =>
      exists s,
        Splitt.storage w !! toUpperCase sid = Some s /\
        Splitt.storage w'
          = Splitt.json_session <$> <[Splitt.sessionId s := s']> (Splitt.storage w) /\
        (user ∉ map Splitt.p_id (Splitt.participants s')) /\
        (user ∉ map Splitt.participantId (Splitt.selections s')) /\
        (forall p, p ∈ Splitt.participants s -> Splitt.p_id p <> user ->
                   p ∈ Splitt.participants s') /\
        (forall x, x ∈ Splitt.selections s -> Splitt.participantId x <> user ->
                   x ∈ Splitt.selections s') /\
        match Splitt.participants s' with
        | [] => Splitt.status s' = str "closed" /\ Splitt.hostId s' = Splitt.hostId s
        | first :: _ =>
            Splitt.status s' = Splitt.status s /\
            Splitt.hostId s' = if str_eqb (Splitt.hostId s) user then Splitt.p_id first
                               else Splitt.hostId s
        end
  | (Splitt.Throw _, _) => False
  end.
Proof.
  rewrite leaveSession_run.
  destruct (Splitt.storage w !! toUpperCase sid) as [s|] eqn:Hs; [|split; reflexivity].
  exists s. split; [reflexivity|].
  set (ps := filter (fun p => Splitt.p_id p <> user) (Splitt.participants s)).
  set (sels := filter (fun x => Splitt.participantId x <> user) (Splitt.selections s)).
  assert (Hshape :
    Splitt.sessionId (left_session user s) = Splitt.sessionId s /\
    Splitt.participants (left_session user s) = ps /\
    Splitt.selections (left_session user s) = sels /\
    match ps with
    | [] => Splitt.status (left_session user s) = str "closed" /\
            Splitt.hostId (left_session user s) = Splitt.hostId s
    | first :: _ =>
        Splitt.status (left_session user s) = Splitt.status s /\
        Splitt.hostId (left_session user s)
          = if str_eqb (Splitt.hostId s) user then Splitt.p_id first else Splitt.hostId s
    end).
  { unfold left_session. cbv zeta.
    cbn [Splitt.participants Splitt.set_selections Splitt.set_participants].
    fold ps sels. destruct ps as [|first rest].
    - repeat split; reflexivity.
    - destruct (str_eqb (Splitt.hostId s) user); repeat split; reflexivity. }
  destruct Hshape as (Hid & Hps & Hsels & Hhost).
  cbn [stamped Splitt.set_lastModified Splitt.participants Splitt.selections Splitt.status
       Splitt.hostId].
  rewrite Hps, Hsels.
  split; [unfold saved; cbn [Splitt.storage]; rewrite Hid; reflexivity|].
  split.
  { intros Hin. apply list_elem_of_In, in_map_iff in Hin as (p & Hp & Hin).
    apply list_elem_of_In, list_elem_of_filter in Hin as [Hne _]. contradiction. }
  split.
  { intros Hin. apply list_elem_of_In, in_map_iff in Hin as (x & Hx & Hin).
    apply list_elem_of_In, list_elem_of_filter in Hin as [Hne _]. contradiction. }
  split; [intros p Hp Hne; apply list_elem_of_filter; split; assumption|].
  split; [intros x Hx Hne; apply list_elem_of_filter; split; assumption|].
  exact Hhost.
Qed.

(** X22: [joinSession] throws for an unknown code, for a session whose expiry
    lies before the time read, and for a closed session, in this order,
    and then leaves storage and channel as they were.  Otherwise the
    session is written back: a participant who is listed already keeps
    place and time of joining, anyone else is added at the end; claims,
    host and status are as before. *)
Theorem joinSession_joins (code : jsstring) (user : Splitt.User) (w : Splitt.World) :
  match Splitt.joinSession host code user w with
  | (Splitt.Return s', w') =>
      exists s,
        Splitt.storage w !! toUpperCase code = Some s /\
        (Splitt.clock host (Splitt.ticks w) <= Splitt.expiresAt s)%Z /\
        Splitt.status s <> str "closed" /\
        Splitt.storage w'
          = Splitt.json_session <$> <[Splitt.sessionId s := s']> (Splitt.storage w) /\
        map Splitt.p_id (Splitt.participants s')
          = (if bool_decide (Splitt.u_id user ∈ map Splitt.p_id (Splitt.participants s))
             then map Splitt.p_id (Splitt.participants s)
             else map Splitt.p_id (Splitt.participants s) ++ [Splitt.u_id user]) /\
        (forall i p, Splitt.participants s !! i = Some p ->
           exists p', Splitt.participants s' !! i = Some p' /\
                      Splitt.p_id p' = Splitt.p_id p /\
                      Splitt.joinedAt p' = Splitt.joinedAt p /\
                      (Splitt.p_id p <> Splitt.u_id user -> p' = p)) /\
        Splitt.selections s' = Splitt.selections s /\
        Splitt.hostId s' = Splitt.hostId s /\
        Splitt.status s' = Splitt.status s
  | (Splitt.Throw message, w') =>
      same_data w w' /\
      match Splitt.storage w !! toUpperCase code with
      | None => message = str "Session not found"
      | Some s =>
          if (Splitt.expiresAt s <? Splitt.clock host (Splitt.ticks w))%Z
          then message = str "Session has expired"
          else message = str "Session is closed" /\ Splitt.status s = str "closed"
      end
  end.
Proof.
  pose proof (joinSession_run code user w) as Hrun.
  destruct (Splitt.joinSession host code user w) as [[s'|message] w'].
  - destruct Hrun as (s & Hs & Hexp & Hclosed & -> & ->).
    exists s. split; [exact Hs|]. split; [exact Hexp|]. split; [exact Hclosed|].
    destruct (join_update_rest user s (tick w)) as (Hsels & Hid & Hhost & Hstatus & Hst & _).
    split.
    { unfold saved. cbn [Splitt.storage]. rewrite Hid, Hst. reflexivity. }
    cbn [stamped Splitt.set_lastModified Splitt.participants Splitt.selections Splitt.status
         Splitt.hostId].
    split; [apply join_update_ids|].
    split; [|split; [exact Hsels|split; [exact Hhost|exact Hstatus]]].
    intros i p Hp. unfold join_update.
    destruct (list_find _ (Splitt.participants s)) as [[j existing]|] eqn:Hfind;
      cbn [fst Splitt.participants Splitt.set_participants].
    + apply list_find_Some in Hfind as (Hj & Hid' & _).
      destruct (decide (i = j)) as [->|Hne].
      * rewrite list_lookup_insert_eq by (eapply lookup_lt_Some, Hj).
        eexists. split; [reflexivity|]. cbn [Splitt.p_id Splitt.joinedAt].
        assert (p = existing) as -> by congruence.
        split; [symmetry; exact Hid'|]. split; [reflexivity|]. intros Hne. contradiction.
      * rewrite list_lookup_insert_ne by congruence. exists p. tauto.
    + rewrite lookup_app_l by (eapply lookup_lt_Some, Hp). exists p. tauto.
  - destruct Hrun as [(-> & -> & ->)|(s & -> & -> & Hcase)].
    + split; [split; reflexivity|reflexivity].
    + split; [split; reflexivity|].
      destruct Hcase as [[-> Hexp]|(-> & Hexp & Hclosed)].
      * destruct (Z.ltb_spec (Splitt.expiresAt s) (Splitt.clock host (Splitt.ticks w)));
          [reflexivity|lia].
      * destruct (Z.ltb_spec (Splitt.expiresAt s) (Splitt.clock host (Splitt.ticks w)));
          [lia|]. split; [reflexivity|exact Hclosed].
Qed.

(** *** Cleaning up *)

Lemma size_filter_split {A} (f : A -> bool) (m : gmap jsstring A) :
  size (filter (fun entry => f (snd entry) = true) m)
  + size (filter (fun entry => f (snd entry) = false) m) = size m.
Proof.
  induction m as [|k x m Hk _ IH] using map_first_key_ind.
  - rewrite !map_filter_empty, map_size_empty. reflexivity.
  - rewrite map_size_insert_None by exact Hk. destruct (f x) eqn:Hf.
    + rewrite map_filter_insert_True by exact Hf.
      rewrite map_filter_insert_False by (cbn; congruence).
      rewrite map_size_insert_None
        by (apply map_lookup_filter_None; left; exact Hk).
      rewrite delete_id by exact Hk. lia.
    + rewrite map_filter_insert_False by (cbn; congruence).
      rewrite map_filter_insert_True by exact Hf.
      rewrite map_size_insert_None
        by (apply map_lookup_filter_None; left; exact Hk).
      rewrite delete_id by exact Hk. lia.
Qed.

Lemma stale_json t s : Splitt.stale t (Splitt.json_session s) = Splitt.stale t s.
Proof. reflexivity. Qed.

(** X23: [expireOldSessions] never throws and returns the number of sessions
    it removed.  It removes exactly the sessions that are stale at the
    time read: expired, or not modified for an hour and closed or without
    participants.  Every other session stays, as it is or as its JSON
    form; with nothing to remove the storage is not written. *)
Theorem expireOldSessions_expires (w : Splitt.World) :
  let t := Splitt.clock host (Splitt.ticks w) in
  exists removed w',
    Splitt.expireOldSessions host w = (Splitt.Return removed, w') /\
    removed + size (Splitt.storage w') = size (Splitt.storage w) /\
    (removed = 0 -> Splitt.storage w' = Splitt.storage w) /\
    (forall k s, Splitt.storage w !! k = Some s ->
       if Splitt.stale t s
       then Splitt.storage w' !! k = None
       else Splitt.storage w' !! k = Some s \/
            Splitt.storage w' !! k = Some (Splitt.json_session s)) /\
    (forall k, Splitt.storage w !! k = None -> Splitt.storage w' !! k = None) /\
    Splitt.posted w' = Splitt.posted w.
Proof.
  cbv zeta. rewrite expireOldSessions_run. cbv zeta.
  set (t := Splitt.clock host (Splitt.ticks w)).
  eexists _, _. split; [reflexivity|].
  pose proof (size_filter_split (Splitt.stale t) (Splitt.storage w)) as Hsize.
  fold (stale_count t (Splitt.storage w)) in Hsize.
  fold (fresh_sessions t (Splitt.storage w)) in Hsize.
  destruct (Nat.ltb_spec 0 (stale_count t (Splitt.storage w))) as [Hpos|Hzero].
  - cbn [Splitt.storage Splitt.posted].
    split; [rewrite map_size_fmap; exact Hsize|].
    split; [lia|]. split; [|split; [|reflexivity]].
    + intros k s Hs. rewrite lookup_fmap. unfold fresh_sessions.
      destruct (Splitt.stale t s) eqn:Hstale.
      * rewrite (proj2 (map_lookup_filter_None _ _ _)); [reflexivity|].
        right. intros s0 Hs0. cbn. congruence.
      * rewrite (map_lookup_filter_Some_2 _ _ _ _ Hs Hstale). right. reflexivity.
    + intros k Hk. rewrite lookup_fmap. unfold fresh_sessions.
      rewrite (proj2 (map_lookup_filter_None _ _ _)); [reflexivity|]. left. exact Hk.
  - assert (Hnone : stale_count t (Splitt.storage w) = 0) by lia.
    cbn [tick Splitt.storage Splitt.posted].
    split; [lia|]. split; [reflexivity|]. split; [|split; [tauto|reflexivity]].
    intros k s Hs. destruct (Splitt.stale t s) eqn:Hstale; [|left; exact Hs].
    exfalso. unfold stale_count in Hnone. apply map_size_empty_iff in Hnone.
    assert (Hin : filter (fun entry => Splitt.stale t (snd entry) = true) (Splitt.storage w) !! k
                  = Some s) by (apply map_lookup_filter_Some_2; assumption).
    rewrite Hnone, lookup_empty in Hin. discriminate.
Qed.

(** X24: [deleteSession] returns [false] for an unknown code and throws for a
    user who is not the host, both without a change.  For the host it
    returns [true] and deletes what is stored under the code as given,
    while the session was looked up under the code in upper case: a code
    that is not in upper case names the session but its entry stays, and
    [getSession] finds it afterwards. *)
Theorem deleteSession_deletes (sid user : jsstring) (w : Splitt.World) :
  match Splitt.deleteSession sid user w with
  | (Splitt.Return true, w') =>
      exists s,
        Splitt.storage w !! toUpperCase sid = Some s /\
        Splitt.hostId s = user /\
        Splitt.storage w' !! sid = None /\
        (forall k, k <> sid ->
                   Splitt.storage w' !! k = Splitt.json_session <$> Splitt.storage w !! k) /\
        (toUpperCase sid <> sid ->
         fst (Splitt.getSession sid w') = Splitt.Return (Some (Splitt.json_session s)))
  | (Splitt.Return false, w') => Splitt.storage w !! toUpperCase sid = None /\ w' = w
  | (Splitt.Throw message, w') =>
      w' = w /\ message = str "Only host can delete session" /\
      exists s, Splitt.storage w !! toUpperCase sid = Some s /\ Splitt.hostId s <> user
  end.
Proof.
  rewrite deleteSession_run.
  destruct (Splitt.storage w !! toUpperCase sid) as [s|] eqn:Hs; [|split; reflexivity].
  unfold str_eqb. destruct (bool_decide (Splitt.hostId s = user)) eqn:Hhost.
  - apply bool_decide_eq_true in Hhost. exists s. split; [reflexivity|].
    split; [exact Hhost|]. cbn [Splitt.storage].
    split; [rewrite lookup_fmap, lookup_delete_eq; reflexivity|].
    split; [intros k Hk; rewrite lookup_fmap, lookup_delete_ne by congruence; reflexivity|].
    intros Hne. rewrite getSession_lookup. cbn [fst Splitt.storage].
    rewrite lookup_fmap, lookup_delete_ne by congruence. rewrite Hs. reflexivity.
  - apply bool_decide_eq_false in Hhost. split; [reflexivity|]. split; [reflexivity|].
    exists s. split; [reflexivity|exact Hhost].
Qed.

(** *** Creating a session *)

Lemma expireOldSessions_ticks w :
  Splitt.ticks (snd (Splitt.expireOldSessions host w)) = S (Splitt.ticks w) /\
  Splitt.draws (snd (Splitt.expireOldSessions host w)) = Splitt.draws w.
Proof.
  rewrite expireOldSessions_run. cbv zeta. cbn [snd].
  destruct (0 <? _)%nat; split; reflexivity.
Qed.

(** X25: When the first room code drawn is free, and the clock has not run
    past the expiry of the new session by the time the host joins,
    [createSession] returns the session as it was before the host joined:
    in the lobby, valid for 24 hours, and without participants, while the
    session in storage lists the host as its one participant. *)
Theorem createSession_creates (fuel : nat) (host_id : jsstring) (w : Splitt.World) :
  let w0 := snd (Splitt.expireOldSessions host w) in
  let sid := room_code (Splitt.draws w) 6 in
  let t := Splitt.clock host (S (Splitt.ticks w)) in
  Splitt.storage w0 !! sid = None ->
  (Splitt.clock host ((if Splitt.channel host then 4 else 3) + Splitt.ticks w)
   <= t + Splitt.SESSION_TTL)%Z ->
  exists s w',
    Splitt.createSession host (S fuel) host_id w = (Splitt.Return (Some s), w') /\
    Splitt.sessionId s = sid /\
    Splitt.hostId s = host_id /\
    Splitt.status s = str "lobby" /\
    Splitt.createdAt s = t /\
    Splitt.expiresAt s = (t + 86400000)%Z /\
    Splitt.participants s = [] /\
    Splitt.selections s = [] /\
    exists stored,
      Splitt.storage w' !! sid = Some stored /\
      map Splitt.p_id (Splitt.participants stored) = [host_id] /\
      map Splitt.p_name (Splitt.participants stored) = [str "Host"] /\
      Splitt.hostId stored = host_id /\
      Splitt.status stored = str "lobby".
Proof.
  cbv zeta. intros Hfree Hclock. rewrite createSession_step. cbv zeta.
  destruct (expireOldSessions_ticks w) as [Hticks Hdraws].
  set (w0 := snd (Splitt.expireOldSessions host w)) in *.
  rewrite Hdraws. set (sid := room_code (Splitt.draws w) 6) in *.
  change (Splitt.storage (drawn 6 w0)) with (Splitt.storage w0). rewrite Hfree.
  change (Splitt.ticks (drawn 6 w0)) with (Splitt.ticks w0). rewrite Hticks.
  set (t := Splitt.clock host (S (Splitt.ticks w))) in *.
  set (session := new_session sid host_id t).
  set (w2 := saved session (tick (drawn 6 w0))).
  set (user := Splitt.mkUser host_id (str "Host") (Some Splitt.host_emoji)).
  assert (Hstored : Splitt.storage w2 !! toUpperCase sid
                    = Some (Splitt.json_session (stamped session (tick (drawn 6 w0))))).
  { unfold sid. rewrite room_code_upper. unfold w2, saved. cbn [Splitt.storage].
    rewrite lookup_fmap.
    change (Splitt.sessionId session) with (room_code (Splitt.draws w) 6).
    rewrite lookup_insert_eq. reflexivity. }
  assert (Hw2 : Splitt.ticks w2 = (if Splitt.channel host then 4 else 3) + Splitt.ticks w).
  { unfold w2, saved. cbn [Splitt.ticks tick drawn]. rewrite Hticks.
    destruct (Splitt.channel host); reflexivity. }
  pose proof (joinSession_run sid user w2) as Hrun.
  unfold Splitt.bind.
  destruct (Splitt.joinSession host sid user w2) as [[s'|message] w'].
  - destruct Hrun as (s0 & Hs0 & _ & _ & _ & ->).
    rewrite Hstored in Hs0. injection Hs0 as <-.
    eexists _, _. split; [reflexivity|].
    cbn [stamped Splitt.set_lastModified session new_session Splitt.sessionId Splitt.hostId
         Splitt.status Splitt.createdAt Splitt.expiresAt Splitt.participants
         Splitt.selections].
    repeat (split; [reflexivity|]).
    eexists. split.
    + unfold saved at 1. cbn [Splitt.storage]. rewrite lookup_fmap.
      destruct (join_update_rest user
                  (Splitt.json_session (stamped session (tick (drawn 6 w0)))) (tick w2))
        as (_ & Hid & _).
      change (Splitt.sessionId (stamped ?a ?b)) with (Splitt.sessionId a).
      rewrite Hid. change (Splitt.sessionId (Splitt.json_session _)) with sid.
      rewrite lookup_insert_eq. reflexivity.
    + unfold join_update. cbn. repeat split; reflexivity.
  - exfalso. destruct Hrun as [(_ & _ & Hnone)|(s0 & Hs0 & _ & Hcase)].
    + rewrite Hstored in Hnone. discriminate.
    + rewrite Hstored in Hs0. injection Hs0 as <-.
      destruct Hcase as [[_ Hexp]|(_ & _ & Hclosed)].
      * rewrite Hw2 in Hexp. cbn in Hexp. lia.
      * cbn in Hclosed. discriminate.
Qed.

(** *** Closing a session *)

(** X26: In a sound world, nobody can join a session after [closeSession]
    returned: [joinSession] throws, for any user, and leaves storage and
    channel as they were. *)
Theorem closeSession_closes (sid : jsstring) (w : Splitt.World) :
  sound w ->
  match Splitt.closeSession host sid w with
  | (Splitt.Return _, w1) =>
      forall code user,
        toUpperCase code = toUpperCase sid ->
        exists message w2,
          Splitt.joinSession host code user w1 = (Splitt.Throw message, w2) /\
          (message = str "Session is closed" \/ message = str "Session has expired") /\
          same_data w1 w2
  | (Splitt.Throw _, w1) =>
      w1 = w /\ Splitt.storage w !! toUpperCase sid = None
  end.
Proof.
  intros Hw. unfold Splitt.closeSession. rewrite setSessionStatus_run.
  change (existsb (str_eqb (str "closed")) Splitt.validStatuses) with true. cbv iota.
  destruct (Splitt.storage w !! toUpperCase sid) as [s|] eqn:Hs; [|split; reflexivity].
  intros code user Hcode.
  destruct (Hw _ _ Hs) as (Hid & _ & _).
  set (w1 := saved (Splitt.set_status (str "closed") s) w).
  assert (Hstored : Splitt.storage w1 !! toUpperCase code
            = Some (Splitt.json_session (stamped (Splitt.set_status (str "closed") s) w))).
  { unfold w1, saved. cbn [Splitt.storage]. rewrite lookup_fmap, Hcode.
    change (Splitt.sessionId (Splitt.set_status (str "closed") s)) with (Splitt.sessionId s).
    rewrite Hid, lookup_insert_eq. reflexivity. }
  pose proof (joinSession_run code user w1) as Hrun.
  destruct (Splitt.joinSession host code user w1) as [[s'|message] w2].
  - exfalso. destruct Hrun as (s0 & Hs0 & _ & Hopen & _).
    rewrite Hstored in Hs0. injection Hs0 as <-. apply Hopen. reflexivity.
  - exists message, w2. split; [reflexivity|].
    destruct Hrun as [(_ & _ & Hnone)|(s0 & _ & -> & Hcase)].
    + rewrite Hstored in Hnone. discriminate.
    + split; [|split; reflexivity].
      destruct Hcase as [[-> _]|(-> & _)]; [right|left]; reflexivity.
Qed.

(** *** Taking a claim back *)

Lemma filter_json user item (sels : list Splitt.Selection) :
  filter (fun x => ~ (Splitt.participantId x = user /\ Splitt.itemId x = item))
         (map Splitt.json_selection sels)
  = map Splitt.json_selection
        (filter (fun x => ~ (Splitt.participantId x = user /\ Splitt.itemId x = item)) sels).
Proof.
  induction sels as [|x sels IH]; [reflexivity|]. cbn [map].
  destruct (decide (Splitt.participantId x = user /\ Splitt.itemId x = item)) as [Hx|Hx].
  - rewrite !filter_cons_False by (cbn; tauto). exact IH.
  - rewrite !filter_cons_True by (cbn; tauto). cbn [map]. f_equal. exact IH.
Qed.

Lemma filter_twice {A} (P Q : A -> Prop) `{forall x, Decision (P x)} `{forall x, Decision (Q x)}
  (l : list A) :
  (forall x, Q x -> P x) -> filter P (filter Q l) = filter Q l.
Proof.
  intros HQP. induction l as [|x l IH]; [reflexivity|].
  destruct (decide (Q x)) as [Hx|Hx].
  - rewrite (filter_cons_True Q) by exact Hx.
    rewrite filter_cons_True by (apply HQP, Hx). f_equal. exact IH.
  - rewrite (filter_cons_False Q) by exact Hx. exact IH.
Qed.

Lemma filter_and {A} (P Q : A -> Prop) `{forall x, Decision (P x)} `{forall x, Decision (Q x)}
  (l : list A) :
  (forall x, P x -> Q x) -> filter P (filter Q l) = filter P l.
Proof.
  intros HPQ. induction l as [|x l IH]; [reflexivity|].
  destruct (decide (Q x)) as [Hx|Hx].
  - rewrite (filter_cons_True Q) by exact Hx.
    destruct (decide (P x)) as [Hp|Hp].
    + rewrite !filter_cons_True by exact Hp. f_equal. exact IH.
    + rewrite !filter_cons_False by exact Hp. exact IH.
  - rewrite (filter_cons_False Q) by exact Hx.
    rewrite filter_cons_False by (intros Hp; apply Hx, HPQ, Hp). exact IH.
Qed.

(** X27: In a sound world, [deselectItem] after [selectItem] takes the claim
    back: the claims are then those from before the selection without the
    participant's claim on the item, as [deselectItem] alone would have
    left them, except that a solo selection has removed every claim on
    the item for good.  Claims are compared in their JSON form. *)
Theorem deselectItem_undoes (sid user item ty : jsstring) (v : option number)
  (w : Splitt.World) :
  sound w ->
  match Splitt.selectItem host sid user item ty v w with
  | (Splitt.Return _, w1) =>
      exists s s2 w2,
        Splitt.storage w !! toUpperCase sid = Some s /\
        Splitt.deselectItem host sid user item w1 = (Splitt.Return s2, w2) /\
        Splitt.participants s2 = Splitt.participants s /\
        Splitt.selections s2
          = map Splitt.json_selection
              (if str_eqb ty (str "solo")
               then filter (fun x => Splitt.itemId x <> item) (Splitt.selections s)
               else filter (fun x => ~ (Splitt.participantId x = user /\ Splitt.itemId x = item))
                           (Splitt.selections s))
  | (Splitt.Throw _, w1) => w1 = w
  end.
Proof.
  intros Hw. pose proof (selectItem_run sid user item ty v w) as Hrun.
  destruct (Splitt.selectItem host sid user item ty v w) as [[s1|message] w1]; [|exact Hrun].
  destruct Hrun as (s & Hs & _ & _ & _ & _ & _ & Hresult).
  cbv zeta in Hresult. destruct Hresult as [_ ->].
  destruct (Hw _ _ Hs) as (Hid & _ & _).
  set (t := Splitt.clock host (Splitt.ticks w)) in *.
  set (s1' := if str_eqb (Splitt.status s) (str "lobby")
              then Splitt.set_status (str "selecting")
                     (Splitt.set_selections (selected user item ty v t (Splitt.selections s)) s)
              else Splitt.set_selections (selected user item ty v t (Splitt.selections s)) s).
  assert (Hshape : Splitt.sessionId s1' = Splitt.sessionId s /\
                   Splitt.participants s1' = Splitt.participants s /\
                   Splitt.selections s1' = selected user item ty v t (Splitt.selections s)).
  { unfold s1'. destruct (str_eqb (Splitt.status s) (str "lobby")); repeat split; reflexivity. }
  destruct Hshape as (Hid1 & Hparts1 & Hsels1).
  assert (Hstored : Splitt.storage (saved s1' (tick w)) !! toUpperCase sid
                    = Some (Splitt.json_session (stamped s1' (tick w)))).
  { unfold saved. cbn [Splitt.storage]. rewrite lookup_fmap.
    rewrite Hid1, Hid, lookup_insert_eq. reflexivity. }
  rewrite deselectItem_run, Hstored. cbv zeta.
  eexists s, _, _. split; [exact Hs|]. split; [reflexivity|].
  cbn [stamped Splitt.set_lastModified Splitt.participants Splitt.selections
       Splitt.set_selections Splitt.json_session].
  split; [exact Hparts1|].
  rewrite Hsels1.
  rewrite filter_json. f_equal. unfold selected.
  destruct (str_eqb ty (str "solo")).
  - rewrite filter_app.
    rewrite (filter_cons_False _ (Splitt.mkSelection user item (str "solo") None t))
      by (cbn; tauto).
    rewrite filter_nil, app_nil_r.
    rewrite (filter_twice _ (fun x => Splitt.itemId x <> item))
      by (intros x Hx; cbn; tauto).
    apply (filter_and (fun x => Splitt.itemId x <> item)). intros x Hx. cbn. tauto.
  - rewrite filter_app.
    rewrite (filter_cons_False _ (Splitt.mkSelection user item ty v t)) by (cbn; tauto).
    rewrite filter_nil, app_nil_r.
    apply filter_twice. intros x Hx. exact Hx.
Qed.

End EngineFacts.
(** *** A small world *)

(** A clock that advances by a millisecond per reading from 1000 on,
    random numbers 0, 1/7, 2/7, ..., and a broadcast channel. *)
Definition sample_host : Splitt.Host :=
  Splitt.mkHost (fun k => 1000 + Z.of_nat k)%Z (fun k => Z.of_nat k # 7) true.

Definition empty_world : Splitt.World := Splitt.mkWorld ∅ 0 0 [].

Lemma sound_empty : sound empty_world.
Proof. intros k s Hs. cbn in Hs. rewrite lookup_empty in Hs. discriminate. Qed.

(** The room code that the random numbers of [sample_host] give first. *)
Example sample_room_code :
  fst (Splitt.generateRoomCode sample_host empty_world) = Splitt.Return (str "AEKPUY").
Proof. vm_compute. reflexivity. Qed.

Lemma createSession_creates_witness :
  Splitt.storage (snd (Splitt.expireOldSessions sample_host empty_world))
    !! room_code sample_host 0 6 = None /\
  (Splitt.clock sample_host 4 <= Splitt.clock sample_host 1 + Splitt.SESSION_TTL)%Z /\
  exists s w',
    Splitt.createSession sample_host 1 (str "u1") empty_world = (Splitt.Return (Some s), w') /\
    Splitt.participants s = [] /\
    exists stored,
      Splitt.storage w' !! str "AEKPUY" = Some stored /\
      map Splitt.p_id (Splitt.participants stored) = [str "u1"].
Proof.
  assert (H1 : Splitt.storage (snd (Splitt.expireOldSessions sample_host empty_world))
                 !! room_code sample_host (Splitt.draws empty_world) 6 = None)
    by (vm_compute; reflexivity).
  assert (H2 : (Splitt.clock sample_host
                  ((if Splitt.channel sample_host then 4 else 3) + Splitt.ticks empty_world)
                <= Splitt.clock sample_host (S (Splitt.ticks empty_world))
                   + Splitt.SESSION_TTL)%Z)
    by (vm_compute; discriminate).
  split; [exact H1|]. split; [exact H2|].
  destruct (createSession_creates sample_host 0 (str "u1") empty_world H1 H2)
    as (s & w' & Hrun & _ & _ & _ & _ & _ & Hnone & _ & stored & Hstored & Hids & _).
  exists s, w'. split; [exact Hrun|]. split; [exact Hnone|].
  exists stored. split; [exact Hstored|exact Hids].
Defined.

(** The world after the host created a session, a guest joined under the
    code in lower case, and the guest left again. *)
Definition sample_world : Splitt.World :=
  perform sample_host (LeaveSession (str "AEKPUY") (str "u2"))
    (perform sample_host
       (JoinSession (str "aekpuy") (Splitt.mkUser (str "u2") (str "Bob") None))
       (perform sample_host (CreateSession 1 (str "u1")) empty_world)).

Lemma engine_sound_witness : sound empty_world /\ sound sample_world.
Proof.
  split; [exact sound_empty|].
  apply (engine_sound sample_host empty_world sample_world sound_empty).
  unfold sample_world.
  eapply rtc_l; [eexists; reflexivity|].
  eapply rtc_l; [eexists; reflexivity|].
  eapply rtc_l; [eexists; reflexivity|].
  apply rtc_refl.
Defined.

Lemma closeSession_closes_witness :
  sound sample_world /\
  match Splitt.closeSession sample_host (str "aekpuy") sample_world with
  | (Splitt.Return _, w1) =>
      forall code user,
        toUpperCase code = toUpperCase (str "aekpuy") ->
        exists message w2,
          Splitt.joinSession sample_host code user w1 = (Splitt.Throw message, w2) /\
          (message = str "Session is closed" \/ message = str "Session has expired") /\
          same_data w1 w2
  | (Splitt.Throw _, w1) =>
      w1 = sample_world /\
      Splitt.storage sample_world !! toUpperCase (str "aekpuy") = None
  end.
Proof.
  assert (Hsound : sound sample_world).
  { unfold sample_world. repeat apply perform_sound. exact sound_empty. }
  split; [exact Hsound|].
  exact (closeSession_closes sample_host (str "aekpuy") sample_world Hsound).
Defined.

(** In the sample world the session is found under its code in either
    case; the host can delete it under the code in upper case only. *)
Example deleteSession_lower_case :
  fst (Splitt.deleteSession (str "aekpuy") (str "u1") sample_world) = Splitt.Return true /\
  is_Some (Splitt.storage
             (snd (Splitt.deleteSession (str "aekpuy") (str "u1") sample_world))
           !! str "AEKPUY") /\
  Splitt.storage (snd (Splitt.deleteSession (str "AEKPUY") (str "u1") sample_world))
    !! str "AEKPUY" = None.
Proof.
  split; [vm_compute; reflexivity|]. split; [vm_compute; eexists; reflexivity|].
  vm_compute. reflexivity.
Qed.

(** *** The calculation *)

(** The keys of a map are the ids listed. *)
Definition keyed {A} (ids : list jsstring) (m : gmap jsstring A) : Prop :=
  forall k, is_Some (m !! k) <-> k ∈ ids.

Lemma keyed_insert {A} (ids : list jsstring) (m : gmap jsstring A) (k : jsstring) (x : A) :
  keyed ids m -> k ∈ ids -> keyed ids (<[k := x]> m).
Proof.
  intros Hm Hk j. rewrite lookup_insert_is_Some'. split.
  - intros [<-|Hj]; [exact Hk|apply Hm, Hj].
  - intros Hj. right. apply Hm, Hj.
Qed.

Lemma fold_insert_keys {A} (f : Splitt.Participant -> A) (ps : list Splitt.Participant) :
  forall (m0 : gmap jsstring A) (k : jsstring),
    is_Some (fold_left (fun m p => <[Splitt.p_id p := f p]> m) ps m0 !! k)
    <-> is_Some (m0 !! k) \/ k ∈ map Splitt.p_id ps.
Proof.
  induction ps as [|p ps IH]; intros m0 k; cbn [fold_left map].
  - rewrite elem_of_nil. tauto.
  - rewrite IH, lookup_insert_is_Some', elem_of_cons. split.
    + intros [[<-|H]|H]; auto.
    + intros [H|[->|H]]; auto.
Qed.

Lemma fold_insert_keyed {A} (f : Splitt.Participant -> A) (ps : list Splitt.Participant) :
  keyed (map Splitt.p_id ps) (fold_left (fun m p => <[Splitt.p_id p := f p]> m) ps ∅).
Proof.
  intros k. rewrite fold_insert_keys, lookup_empty. split.
  - intros [[x Hx]|H]; [discriminate|exact H].
  - intros H. right. exact H.
Qed.

Lemma fold_insert_value {A} (x : A) (ps : list Splitt.Participant) :
  forall (m0 : gmap jsstring A) (k : jsstring) (v : A),
    (forall k v, m0 !! k = Some v -> v = x) ->
    fold_left (fun m p => <[Splitt.p_id p := x]> m) ps m0 !! k = Some v -> v = x.
Proof.
  induction ps as [|p ps IH]; intros m0 k v Hm0; cbn [fold_left]; [apply Hm0|].
  apply IH. intros j y. destruct (decide (Splitt.p_id p = j)) as [<-|Hne].
  - rewrite lookup_insert_eq. congruence.
  - rewrite lookup_insert_ne by exact Hne. apply Hm0.
Qed.

Section Calculation.

Variable session : Splitt.Session.

Let ids : list jsstring := map Splitt.p_id (Splitt.participants session).

(** What the loops keep of a tally. *)
Definition tally_keyed (tally : Splitt.Tally) : Prop :=
  keyed ids (Splitt.tally_details tally) /\ keyed ids (Splitt.tally_subtotals tally).

Lemma claim_step_None item itemTotal itemSelections x :
  Splitt.claim_step item itemTotal itemSelections None x = None.
Proof. reflexivity. Qed.

Lemma claims_loop_None item itemTotal itemSelections l :
  fold_left (Splitt.claim_step item itemTotal itemSelections) l None = None.
Proof. induction l as [|x l IH]; [reflexivity|exact IH]. Qed.

(** The loop over the claims on an item stops with a [TypeError] at the
    first claim of somebody who is not a participant. *)
Lemma claims_loop item itemTotal itemSelections l :
  forall shares tally,
    tally_keyed tally ->
    match fold_left (Splitt.claim_step item itemTotal itemSelections) l
                    (Some (shares, tally)) with
    | None => exists x, x ∈ l /\ Splitt.participantId x ∉ ids
    | Some (shares', tally') =>
        Forall (fun x => Splitt.participantId x ∈ ids) l /\
        tally_keyed tally' /\
        Splitt.tally_unclaimed tally' = Splitt.tally_unclaimed tally /\
        Splitt.totalFoodSubtotal tally' = Splitt.totalFoodSubtotal tally
    end.
Proof.
  induction l as [|x l IH]; intros shares tally Hkeys; cbn [fold_left].
  - split; [constructor|]. split; [exact Hkeys|]. split; reflexivity.
  - unfold Splitt.claim_step at 2. cbv zeta.
    destruct Hkeys as [Hdetails Hsubtotals].
    destruct (Splitt.tally_details tally !! Splitt.participantId x) as [person|] eqn:Hperson.
    + assert (Hin : Splitt.participantId x ∈ ids) by (apply Hdetails; eexists; exact Hperson).
      match goal with
      | |- match fold_left _ l (Some (?sh, ?t)) with _ => _ end =>
          specialize (IH sh t)
      end.
      cbn [Splitt.tally_details Splitt.tally_subtotals Splitt.tally_unclaimed
           Splitt.totalFoodSubtotal] in IH.
      match type of IH with
      | ?P -> _ => assert (Hnext : P)
      end.
      { split; cbn [Splitt.tally_details Splitt.tally_subtotals];
          apply keyed_insert; assumption. }
      specialize (IH Hnext).
      destruct (fold_left _ l _) as [[shares' tally']|].
      * destruct IH as (Hall & Hk & Hu & Hf).
        split; [constructor; assumption|]. split; [exact Hk|]. split; assumption.
      * destruct IH as (y & Hy & Hout). exists y. split; [right; exact Hy|exact Hout].
    + rewrite claims_loop_None. exists x. split; [left|].
      intros Hin. apply Hdetails in Hin as [person Hsome]. congruence.
Qed.

Lemma items_loop_None l : fold_left (Splitt.item_step session) l None = None.
Proof. induction l as [|x l IH]; [reflexivity|exact IH]. Qed.

(** An item that nobody claims. *)
Definition is_unclaimed (item : Splitt.ReceiptItem) : Prop :=
  Splitt.getItemClaimants session (Splitt.item_id item) = [].

Lemma is_unclaimed_length item :
  is_unclaimed item <->
  length (filter (fun s => Splitt.itemId s = Splitt.item_id item)
                 (Splitt.selections session)) = 0.
Proof.
  unfold is_unclaimed, Splitt.getItemClaimants.
  destruct (filter _ (Splitt.selections session)); cbn; split; congruence.
Qed.

(** A claim on an item of somebody who is not a participant. *)
Definition stray_claim (l : list Splitt.ReceiptItem) : Prop :=
  exists item x,
    item ∈ l /\ x ∈ Splitt.selections session /\
    Splitt.itemId x = Splitt.item_id item /\ Splitt.participantId x ∉ ids.

Lemma items_loop l :
  forall tally,
    tally_keyed tally ->
    match fold_left (Splitt.item_step session) l (Some tally) with
    | None => stray_claim l
    | Some tally' =>
        ~ stray_claim l /\
        tally_keyed tally' /\
        Splitt.tally_unclaimed tally'
          = Splitt.tally_unclaimed tally ++ filter is_unclaimed l
    end.
Proof.
  induction l as [|item l IH]; intros tally Hkeys; cbn [fold_left].
  - split; [unfold stray_claim; intros (item & x & Hin & _);
            apply elem_of_nil in Hin; contradiction|].
    split; [exact Hkeys|]. rewrite filter_nil, app_nil_r. reflexivity.
  - unfold Splitt.item_step at 2. cbv zeta.
    set (claims := filter (fun s => Splitt.itemId s = Splitt.item_id item)
                          (Splitt.selections session)).
    destruct (Nat.eqb_spec (length claims) 0) as [Hnone|Hsome].
    + match goal with
      | |- match fold_left _ l (Some ?t) with _ => _ end => specialize (IH t Hkeys)
      end.
      assert (Hun : is_unclaimed item) by (apply is_unclaimed_length; exact Hnone).
      revert IH. destruct (fold_left _ l _) as [tally'|]; intros IH.
      * cbn [Splitt.tally_unclaimed] in IH.
        destruct IH as (Hstray & Hk & Hu). split; [|split; [exact Hk|]].
        -- unfold stray_claim. intros (item' & x & Hin & Hx & Hitem & Hout).
           apply elem_of_cons in Hin as [->|Hin].
           ++ assert (Hxin : x ∈ claims) by (apply list_elem_of_filter; split; assumption).
              destruct claims; [apply elem_of_nil in Hxin; contradiction|discriminate].
           ++ apply Hstray. exists item', x. tauto.
        -- rewrite Hu, filter_cons_True by exact Hun. rewrite <- app_assoc. reflexivity.
      * destruct IH as (item' & x & Hin & Hrest). exists item', x.
        split; [right; exact Hin|exact Hrest].
    + match goal with
      | |- context [fold_left (Splitt.claim_step item ?total claims) claims (Some (?sh, ?t))] =>
          pose proof (claims_loop item total claims claims sh t Hkeys) as Hclaims
      end.
      destruct (fold_left (Splitt.claim_step item _ claims) claims _) as [[shares' tally1]|].
      * destruct Hclaims as (Hall & Hk1 & Hu1 & _).
        match goal with
        | |- match fold_left _ l (Some ?t) with _ => _ end => specialize (IH t Hk1)
        end.
        assert (Hun : ~ is_unclaimed item) by (rewrite is_unclaimed_length; exact Hsome).
        revert IH. destruct (fold_left _ l _) as [tally'|]; intros IH.
        -- cbn [Splitt.tally_unclaimed] in IH. rewrite Hu1 in IH.
           cbn [Splitt.tally_unclaimed] in IH.
           destruct IH as (Hstray & Hk & Hu). split; [|split; [exact Hk|]].
           ++ unfold stray_claim. intros (item' & x & Hin & Hx & Hitem & Hout).
              apply elem_of_cons in Hin as [->|Hin].
              ** rewrite list.Forall_forall in Hall. apply Hout, Hall.
                 apply list_elem_of_filter. split; assumption.
              ** apply Hstray. exists item', x. tauto.
           ++ rewrite Hu, filter_cons_False by exact Hun. reflexivity.
        -- destruct IH as (item' & x & Hin & Hrest). exists item', x.
           split; [right; exact Hin|exact Hrest].
      * rewrite items_loop_None. destruct Hclaims as (x & Hx & Hout).
        apply list_elem_of_filter in Hx as [Hitem Hx].
        exists item, x. split; [left|]. split; [exact Hx|]. split; assumption.
Qed.

Lemma person_loop_keys subtotals food tax_ tip_ (ps : list Splitt.Participant) :
  forall (taxes tips sums : gmap jsstring number),
    let result := fold_left (Splitt.person_step subtotals food tax_ tip_) ps
                            (taxes, tips, sums) in
    forall k,
      (is_Some (result.1.1 !! k) <-> is_Some (taxes !! k) \/ k ∈ map Splitt.p_id ps) /\
      (is_Some (result.1.2 !! k) <-> is_Some (tips !! k) \/ k ∈ map Splitt.p_id ps) /\
      (is_Some (result.2 !! k) <-> is_Some (sums !! k) \/ k ∈ map Splitt.p_id ps).
Proof.
  induction ps as [|p ps IH]; intros taxes tips sums; cbv zeta; intros k.
  - cbn [fold_left fst snd map]. rewrite elem_of_nil. tauto.
  - cbn [fold_left map]. unfold Splitt.person_step at 2. cbv zeta.
    specialize (IH (<[Splitt.p_id p := Splitt.round_cents
                                            (num_mul tax_ (num_div (num_or (default NaN (subtotals !! Splitt.p_id p)) (num 0)) food))]> taxes)).
    match goal with
    | |- context [fold_left _ ps (_, ?b, ?c)] => specialize (IH b c)
    end.
    cbv zeta in IH. specialize (IH k). destruct IH as (H1 & H2 & H3).
    rewrite H1, H2, H3, !lookup_insert_is_Some', elem_of_cons.
    repeat split; intros; intuition (subst; auto).
Qed.

Lemma zero_sum (m : gmap jsstring number) :
  (forall k v, m !! k = Some v -> v = num 0) ->
  map_fold (fun _ t sum => num_add sum t) (num 0) m = num 0.
Proof.
  apply (map_fold_weak_ind
           (fun r m => (forall k v, m !! k = Some v -> v = num 0) -> r = num 0)).
  - reflexivity.
  - intros i x m0 r Hi IH Hall.
    rewrite (Hall i x) by apply lookup_insert_eq.
    rewrite IH; [reflexivity|].
    intros k v Hk. apply (Hall k). rewrite lookup_insert_ne; [exact Hk|].
    intros ->. congruence.
Qed.

Lemma start_keyed :
  tally_keyed
    (Splitt.mkTally ∅
       (fold_left (fun m p => <[Splitt.p_id p := num 0]> m) (Splitt.participants session) ∅)
       []
       (fold_left
          (fun m p =>
             <[Splitt.p_id p := Splitt.mkPersonDetails (Splitt.p_name p) (Splitt.p_emoji p) []]> m)
          (Splitt.participants session) ∅)
       (num 0)).
Proof. split; apply fold_insert_keyed. Qed.

Lemma calculateTotals_None :
  Splitt.calculateTotals session = None <->
  stray_claim (Splitt.items (Splitt.receipt session)).
Proof.
  unfold Splitt.calculateTotals. cbv zeta.
  pose proof (items_loop (Splitt.items (Splitt.receipt session)) _ start_keyed) as Hloop.
  revert Hloop.
  destruct (fold_left (Splitt.item_step session) _ _) as [tally|]; intros Hloop.
  - destruct Hloop as (Hstray & _).
    destruct (if num_gtb _ _ then _ else _) as [[taxes tips] sums].
    split; [discriminate|]. intros H. contradiction.
  - split; [intros _; exact Hloop|reflexivity].
Qed.

(** X28: [calculateTotals] throws exactly when an item of the receipt carries
    a claim of somebody who is not a participant. *)
Theorem calculateTotals_throws :
  Splitt.calculateTotals session = None <->
  exists item x,
    item ∈ Splitt.items (Splitt.receipt session) /\
    x ∈ Splitt.selections session /\
    Splitt.itemId x = Splitt.item_id item /\
    Splitt.participantId x ∉ map Splitt.p_id (Splitt.participants session).
Proof. exact calculateTotals_None. Qed.

(** X29: On a consistent session, such as the engine stores, none of whose
    participants has the id [__proto__] (a key under which an object of
    the code keeps no entry), [calculateTotals] returns.  The unclaimed items are the items without a claim, in the
    order of the receipt.  Subtotals, tax shares, tip shares, totals and
    details have an entry for every participant and for nobody else.
    When the subtotal of the claimed items is not positive, everybody's
    tax share, tip share and total is 0 and so is the grand total,
    whatever tax and tip the receipt shows. *)
Theorem calculateTotals_consistent :
  (str "__proto__") ∉ ids ->
  consistent session ->
  exists r,
    Splitt.calculateTotals session = Some r /\
    Splitt.unclaimed r = filter is_unclaimed (Splitt.items (Splitt.receipt session)) /\
    keyed ids (Splitt.subtotals r) /\
    keyed ids (Splitt.taxShares r) /\
    keyed ids (Splitt.tipShares r) /\
    keyed ids (Splitt.totals r) /\
    keyed ids (Splitt.details r) /\
    Splitt.participantCount (Splitt.summary r) = length (Splitt.participants session) /\
    Splitt.unclaimedCount (Splitt.summary r) = length (Splitt.unclaimed r) /\
    (num_gtb (Splitt.foodSubtotal (Splitt.summary r)) (num 0) = false ->
     (forall k, k ∈ ids ->
        Splitt.taxShares r !! k = Some (num 0) /\
        Splitt.tipShares r !! k = Some (num 0) /\
        Splitt.totals r !! k = Some (num 0)) /\
     num_equiv (Splitt.grandTotal r) (num 0)).
Proof.
  intros _ (_ & _ & Hjoined).
  unfold Splitt.calculateTotals. cbv zeta.
  pose proof (items_loop (Splitt.items (Splitt.receipt session)) _ start_keyed) as Hloop.
  revert Hloop.
  destruct (fold_left (Splitt.item_step session) _ _) as [tally|]; intros Hloop.
  - destruct Hloop as (_ & [Hdetails Hsubtotals] & Hunclaimed).
    cbn [Splitt.tally_unclaimed app] in Hunclaimed.
    set (zeros := fold_left (fun m p => <[Splitt.p_id p := num 0]> m)
                            (Splitt.participants session) ∅) in *.
    assert (Hzeros : keyed ids zeros) by apply fold_insert_keyed.
    assert (Hzero : forall k v, zeros !! k = Some v -> v = num 0).
    { intros k v. apply fold_insert_value. intros j y Hj.
      rewrite lookup_empty in Hj. discriminate. }
    destruct (num_gtb (Splitt.totalFoodSubtotal tally) (num 0)) eqn:Hfood.
    + pose proof (person_loop_keys (Splitt.tally_subtotals tally)
                    (Splitt.totalFoodSubtotal tally)
                    (num_or (Splitt.tax (Splitt.receipt session)) (num 0))
                    (num_or (Splitt.tip (Splitt.receipt session)) (num 0))
                    (Splitt.participants session) zeros zeros zeros) as Hkeys.
      cbv zeta in Hkeys.
      destruct (fold_left (Splitt.person_step _ _ _ _) _ _) as [[taxes tips] sums].
      cbn [fst snd] in Hkeys.
      eexists. split; [reflexivity|].
      cbn [Splitt.unclaimed Splitt.subtotals Splitt.taxShares Splitt.tipShares
           Splitt.totals Splitt.details Splitt.summary Splitt.participantCount
           Splitt.unclaimedCount Splitt.foodSubtotal Splitt.grandTotal].
      split; [exact Hunclaimed|]. split; [exact Hsubtotals|].
      assert (Hk : forall (m : gmap jsstring number),
                (forall k, is_Some (m !! k) <-> is_Some (zeros !! k) \/ k ∈ ids) -> keyed ids m).
      { intros m Hm k. rewrite Hm. split; [intros [H|H]; [apply Hzeros, H|exact H]|].
        intros H. right. exact H. }
      split; [apply Hk; intros k; apply (Hkeys k)|].
      split; [apply Hk; intros k; apply (Hkeys k)|].
      split; [apply Hk; intros k; apply (Hkeys k)|].
      split; [exact Hdetails|]. split; [reflexivity|]. split; [reflexivity|].
      intros Hno. congruence.
    + eexists. split; [reflexivity|].
      cbn [Splitt.unclaimed Splitt.subtotals Splitt.taxShares Splitt.tipShares
           Splitt.totals Splitt.details Splitt.summary Splitt.participantCount
           Splitt.unclaimedCount Splitt.foodSubtotal Splitt.grandTotal].
      split; [exact Hunclaimed|]. split; [exact Hsubtotals|].
      split; [exact Hzeros|]. split; [exact Hzeros|]. split; [exact Hzeros|].
      split; [exact Hdetails|]. split; [reflexivity|]. split; [reflexivity|].
      intros _. split.
      * intros k Hk. apply Hzeros in Hk as [v Hv].
        rewrite Hv, (Hzero k v Hv). repeat split; reflexivity.
      * rewrite (zero_sum zeros Hzero). vm_compute. reflexivity.
  - exfalso. destruct Hloop as (item & x & _ & Hx & _ & Hout).
    rewrite list.Forall_forall in Hjoined. apply Hout, Hjoined, Hx.
Qed.

End Calculation.

(** A session of two participants and three items: one claimed by the
    first alone, one shared evenly, one claimed by nobody. *)
Definition sample_session : Splitt.Session :=
  Splitt.mkSession (str "AEKPUY") (str "u1") (str "selecting") 1000 86401000 1000
    (Splitt.mkSessionReceipt None
       [Splitt.mkReceiptItem (str "i1") (str "Wings") (num 12) (num 2) (str "other");
        Splitt.mkReceiptItem (str "i2") (str "Soda") (num 3) (num 1) (str "other");
        Splitt.mkReceiptItem (str "i3") (str "Salad") (num 9) (num 1) (str "other")]
       (num 3) (num 6) (num 36))
    [Splitt.mkParticipant (str "u1") (str "Ann") [] 1000 1000;
     Splitt.mkParticipant (str "u2") (str "Bob") [] 1001 1001]
    [Splitt.mkSelection (str "u1") (str "i1") (str "solo") None 1002;
     Splitt.mkSelection (str "u1") (str "i2") (str "even") None 1003;
     Splitt.mkSelection (str "u2") (str "i2") (str "even") None 1004].

Lemma sample_session_consistent : consistent sample_session.
Proof.
  unfold consistent. split; [|split]; apply (bool_decide_unpack _); vm_compute; exact I.
Qed.

Lemma sample_session_ids :
  (str "__proto__") ∉ (map Splitt.p_id (Splitt.participants sample_session)).
Proof. apply (bool_decide_unpack _). vm_compute. exact I. Qed.

Lemma calculateTotals_consistent_witness :
  ((str "__proto__") ∉ (map Splitt.p_id (Splitt.participants sample_session))) /\
  consistent sample_session /\
  exists r,
    Splitt.calculateTotals sample_session = Some r /\
    map Splitt.item_id (Splitt.unclaimed r) = [str "i3"].
Proof.
  split; [exact sample_session_ids|]. split; [exact sample_session_consistent|].
  destruct (calculateTotals_consistent sample_session sample_session_ids
              sample_session_consistent)
    as (r & Hr & Hunclaimed & _).
  exists r. split; [exact Hr|]. rewrite Hunclaimed. vm_compute. reflexivity.
Defined.

(** The totals of the sample session: 24 + 1.50 and 1.50 of food, tax 3
    and tip 6 in proportion, 36 in all. *)
Example calculateTotals_sample :
  match Splitt.calculateTotals sample_session with
  | Some r =>
      Splitt.subtotals r !! str "u1" = Some (dec 2550 100) /\
      Splitt.subtotals r !! str "u2" = Some (dec 150 100) /\
      Splitt.grandTotal r = dec 3600 100
  | None => False
  end.
Proof. vm_compute. repeat split; reflexivity. Qed.

(** The sample session in storage. *)
Definition stored_world : Splitt.World :=
  Splitt.mkWorld {[ str "AEKPUY" := sample_session ]} 0 0 [].

Lemma sound_stored : sound stored_world.
Proof.
  intros k s Hs. cbn [stored_world Splitt.storage] in Hs.
  apply lookup_singleton_Some in Hs as [<- <-].
  split; [reflexivity|]. split; [reflexivity|exact sample_session_consistent].
Qed.

Lemma deselectItem_undoes_witness :
  sound stored_world /\
  match Splitt.selectItem sample_host (str "aekpuy") (str "u2") (str "i1") (str "even") None
                          stored_world with
  | (Splitt.Return _, w1) =>
      exists s s2 w2,
        Splitt.storage stored_world !! toUpperCase (str "aekpuy") = Some s /\
        Splitt.deselectItem sample_host (str "aekpuy") (str "u2") (str "i1") w1
          = (Splitt.Return s2, w2) /\
        Splitt.participants s2 = Splitt.participants s /\
        Splitt.selections s2
          = map Splitt.json_selection
              (if str_eqb (str "even") (str "solo")
               then filter (fun x => Splitt.itemId x <> str "i1") (Splitt.selections s)
               else filter (fun x => ~ (Splitt.participantId x = str "u2" /\
                                        Splitt.itemId x = str "i1"))
                           (Splitt.selections s))
  | (Splitt.Throw _, w1) => w1 = stored_world
  end.
Proof.
  split; [exact sound_stored|].
  exact (deselectItem_undoes sample_host (str "aekpuy") (str "u2") (str "i1") (str "even")
           None stored_world sound_stored).
Defined.

(** In the stored sample session a second participant may claim an item
    that the first holds solo; both claims stand: the first is charged
    the full price and the second half of it. *)
Example selectItem_after_solo :
  match Splitt.selectItem sample_host (str "aekpuy") (str "u2") (str "i1") (str "even") None
                          stored_world with
  | (Splitt.Return s', _) =>
      Splitt.getItemClaimants s' (str "i1") = [str "u1"; str "u2"] /\
      match Splitt.calculateTotals s' with
      | Some r =>
          (Splitt.t_items r !! str "i1") ≫= (fun b => Splitt.b_shares b !! str "u1")
            = Some (dec 2400 100) /\
          (Splitt.t_items r !! str "i1") ≫= (fun b => Splitt.b_shares b !! str "u2")
            = Some (dec 1200 100)
      | None => False
      end
  | (Splitt.Throw _, _) => False
  end.
Proof. vm_compute. repeat split; reflexivity. Qed.
